(** * defi-compare: the comparison generator, embedded and verified

    The development embeds [scripts/generate_comparison.js], the script that
    reads the raw DeBank and Zerion payloads of every address and chain,
    normalises both into protocol buckets and writes the comparison data.
    The repository holds two revisions of the script that the properties
    below talk about:

    - [Rev1]: [src/scripts/generate_comparison.js];
    - [Rev2]: the later revision ([src/unnamed/part_003]), which adds the
      vesting token, two alias entries, the address allow-list and the
      [|| []] default on both raw payloads.

    The last part covers the two scripts that write the files the
    comparison reads, [scripts/fetch_protocol.js] for DeBank
    ([DeBankFetcher]) and its Zerion counterpart, [src/unnamed/part_001]
    ([ZerionFetcher]): their chain lists, their retry loops and what they
    save for an address.

    Modelling conventions.

    - Parsed JSON is a value of [jsval]; property access, truthiness,
      [||], [?.], [forEach] and [trim] follow the JavaScript semantics on
      these values.  An access that makes the runtime throw is the outcome
      [Throw TypeError]; nothing in the normalisers catches it.
    - JavaScript numbers are doubles.  The model computes with exact
      rationals ([Q]) plus [NaN]; rounding, infinities and the negative zero
      are not represented.  A sum is therefore stated as the code
      accumulates it, term by term from left to right ([sum_in_order]), and
      equated with [=], not [==]: no statement equates sums that the code
      adds in different orders.
    - Where the script would apply an implicit coercion that depends on
      number formatting or parsing (a property key that is not a string,
      [+] or [*] on a string, an array or an object) the outcome is
      [Unmodelled]: the development then states nothing about the run.
    - [protocols] and the alias table are objects used as maps: a finite
      map of their own keys ([gmap string _]) under the members every
      object inherits from [Object.prototype] ([inherited]).  A lookup of
      [constructor], [toString], [__proto__] and the like that finds no own
      key finds the inherited member, which is truthy, is not a bucket and
      is not a string.
    - [result] is the finite map of its own keys; the names of the
      subdirectories are addresses, and a subdirectory named [__proto__] is
      not represented.
    - Strings are sequences of 8-bit characters; [trim] and [toLowerCase]
      act on the ASCII range.
    - A request of a fetcher is answered by a [reply]; a call that retries
      is a function of the replies to its successive requests.  Pauses and
      console output are not represented. *)

From Stdlib Require Import Ascii String QArith Lqa.
From stdpp Require Import gmap strings list fin_maps.

Set Warnings "-register-all".
#[local] Open Scope string_scope.
#[local] Open Scope list_scope.

(** ** JavaScript values *)

Inductive number :=
| NaN
| Fin (q : Q).

Inductive jsval :=
| Undefined
| Null
| Bool (b : bool)
| Number (n : number)
| Str (s : string)
| Array (l : list jsval)
| Object (fields : list (string * jsval)).

(** A numeric literal of the script or of a payload. *)
Definition num (q : Q) : jsval := Number (Fin q).

(** ** Outcomes *)

Inductive error :=
| TypeError
| ENOENT.

Inductive outcome (A : Type) :=
| Ok (a : A)
| Throw (e : error)
| Unmodelled.

Arguments Ok {A} a.
Arguments Throw {A} e.
Arguments Unmodelled {A}.

#[global] Instance outcome_bind : MBind outcome := fun A B k m =>
  match m with
  | Ok a => k a
  | Throw e => Throw e
  | Unmodelled => Unmodelled
  end.

#[global] Instance outcome_ret : MRet outcome := @Ok.

(** ** Primitive operations of the language *)

(** ToBoolean. *)
Definition truthy (v : jsval) : bool :=
  match v with
  | Undefined | Null => false
  | Bool b => b
  | Number NaN => false
  | Number (Fin q) => negb (Qnum q =? 0)%Z
  | Str s => negb (String.eqb s EmptyString)
  | Array _ | Object _ => true
  end.

(** Own-property lookup; the first binding of a key is the property. *)
Fixpoint assoc (k : string) (fields : list (string * jsval)) : option jsval :=
  match fields with
  | [] => None
  | (k', v) :: rest => if String.eqb k k' then Some v else assoc k rest
  end.

(** [v.k] on a value that is neither [null] nor [undefined].  None of the
    keys the script reads ([name], [stats], [data], ...) is a property of a
    primitive or of an array, so these yield [undefined]. *)
Definition prop (v : jsval) (k : string) : jsval :=
  match v with
  | Object fields => default Undefined (assoc k fields)
  | _ => Undefined
  end.

(** [v.k]. *)
Definition get (v : jsval) (k : string) : outcome jsval :=
  match v with
  | Undefined | Null => Throw TypeError
  | _ => Ok (prop v k)
  end.

(** [v?.k]. *)
Definition get_opt (v : jsval) (k : string) : jsval :=
  match v with
  | Undefined | Null => Undefined
  | _ => prop v k
  end.

(** [a || b]. *)
Definition or_else (a b : jsval) : jsval := if truthy a then a else b.

(** [Array.prototype.forEach] with a callback that updates a state. *)
Fixpoint forEach {A S : Type} (l : list A) (cb : A -> S -> outcome S)
    (s : S) : outcome S :=
  match l with
  | [] => Ok s
  | x :: rest => s' ← cb x s; forEach rest cb s'
  end.

(** [v.forEach(cb)]: only arrays have the method. *)
Definition js_forEach {S : Type} (v : jsval) (cb : jsval -> S -> outcome S)
    (s : S) : outcome S :=
  match v with
  | Array l => forEach l cb s
  | _ => Throw TypeError
  end.

Definition is_space (c : ascii) : bool :=
  let n := nat_of_ascii c in
  ((9 <=? n)%nat && (n <=? 13)%nat) || (n =? 32)%nat.

Fixpoint trimStart (s : string) : string :=
  match s with
  | EmptyString => EmptyString
  | String c rest => if is_space c then trimStart rest else s
  end.

Fixpoint trimEnd (s : string) : string :=
  match s with
  | EmptyString => EmptyString
  | String c rest =>
      let rest' := trimEnd rest in
      if is_space c && String.eqb rest' EmptyString then EmptyString
      else String c rest'
  end.

(** [String.prototype.trim]. *)
Definition trim (s : string) : string := trimEnd (trimStart s).

(** [v.trim()]: only strings have the method. *)
Definition js_trim (v : jsval) : outcome string :=
  match v with
  | Str s => Ok (trim s)
  | _ => Throw TypeError
  end.

(** ToNumber on the primitives that need no parsing. *)
Definition to_number (v : jsval) : option number :=
  match v with
  | Undefined => Some NaN
  | Null => Some (Fin 0)
  | Bool b => Some (Fin (if b then 1 else 0))
  | Number n => Some n
  | Str _ | Array _ | Object _ => None
  end.

Definition num_mul (a b : number) : number :=
  match a, b with
  | Fin x, Fin y => Fin (x * y)
  | _, _ => NaN
  end.

(** [a * b]. *)
Definition js_mul (a b : jsval) : outcome jsval :=
  match to_number a, to_number b with
  | Some x, Some y => Ok (Number (num_mul x y))
  | _, _ => Unmodelled
  end.

(** [acc += val] for a running total [acc] and a [val] that came out of
    [x || 0].  Such a [val] is never [undefined], [null], [false] or [NaN];
    when it is not a number ([true], a string, an array, an object) the
    operator coerces, which is not followed. *)
Definition add_assign (acc : Q) (val : jsval) : outcome Q :=
  match val with
  | Number (Fin q) => Ok (acc + q)%Q
  | _ => Unmodelled
  end.

(** ToPropertyKey of a truthy value used as a key of [protocols] or of the
    alias table. *)
Definition as_key (v : jsval) : outcome string :=
  match v with
  | Str s => Ok s
  | _ => Unmodelled
  end.

(** [type === 'locked' || type === 'staked'] and the like. *)
Definition strict_eq_str (v : jsval) (s : string) : bool :=
  match v with
  | Str s' => String.eqb s' s
  | _ => false
  end.

(** ** The normalised data *)

(** An element of [assets]: [{ symbol, amount, price, value, type, flags }].
    [amount], [price], [type] and [flags] are copied from the payload as they
    are.  DeBank assets have no [flags] property; reading it gives
    [undefined], which is also what [JSON.stringify] leaves out. *)
Module Asset.
Record t := mk {
  symbol : string;
  amount : jsval;
  price : jsval;
  value : jsval;
  type : jsval;
  flags : jsval
}.
End Asset.

(** A bucket of [protocols]: [{ name, id, value, assets }]. *)
Module Protocol.
Record t := mk {
  name : string;
  id : jsval;
  value : Q;
  assets : list Asset.t
}.
End Protocol.

(** What a normaliser returns: [{ protocols, totalValue }]. *)
Module Snapshot.
Record t := mk {
  protocols : gmap string Protocol.t;
  totalValue : Q
}.
End Snapshot.

(** [{ protocols: {}, totalValue: 0 }]. *)
Definition empty_snapshot : Snapshot.t := Snapshot.mk ∅ 0.

(** ** Updates of the snapshot under construction

    Both normalisers keep a [protocols] object and a [totalValue] counter
    and update them in place; the pair is threaded as a [Snapshot.t]. *)

(** The property names of [Object.prototype].  [protocols] and the alias
    tables are object literals, so [obj[key]] for one of these names that
    is not an own key of [obj] is the inherited member: a function, or
    [Object.prototype] itself for [__proto__]. *)
Definition inherited (key : string) : bool :=
  existsb (String.eqb key)
    [ "constructor"; "hasOwnProperty"; "isPrototypeOf"; "propertyIsEnumerable";
      "toLocaleString"; "toString"; "valueOf"; "__proto__";
      "__defineGetter__"; "__defineSetter__"; "__lookupGetter__";
      "__lookupSetter__" ].

(** [if (!protocols[protoName]) protocols[protoName] =
      { name: protoName, id: id, value: 0, assets: [] }].
    An inherited member is truthy: under such a name no bucket is made. *)
Definition ensure_bucket (protoName : string) (id : jsval) (s : Snapshot.t)
    : Snapshot.t :=
  match Snapshot.protocols s !! protoName with
  | Some _ => s
  | None =>
      if inherited protoName then s
      else
        Snapshot.mk
          (<[protoName := Protocol.mk protoName id 0 []]> (Snapshot.protocols s))
          (Snapshot.totalValue s)
  end.

(** [protocols[protoName].value += val].  Without a bucket the receiver is
    [undefined] and the access throws, unless the name is an inherited
    member: then the sum is stored on that member, outside the snapshot. *)
Definition add_value (protoName : string) (val : jsval) (s : Snapshot.t)
    : outcome Snapshot.t :=
  match Snapshot.protocols s !! protoName with
  | None =>
      if inherited protoName then _ ← add_assign 0 val; Ok s
      else Throw TypeError
  | Some b =>
      v ← add_assign (Protocol.value b) val;
      Ok (Snapshot.mk
            (<[protoName := Protocol.mk (Protocol.name b) (Protocol.id b) v
                              (Protocol.assets b)]> (Snapshot.protocols s))
            (Snapshot.totalValue s))
  end.

(** [totalValue += val]. *)
Definition add_total (val : jsval) (s : Snapshot.t) : outcome Snapshot.t :=
  t ← add_assign (Snapshot.totalValue s) val;
  Ok (Snapshot.mk (Snapshot.protocols s) t).

(** [protocols[protoName].assets.push(a)]; the receiver is looked up before
    the argument [a] is evaluated.  Without a bucket, [protocols[protoName]]
    is [undefined] or an inherited member, whose [assets] is [undefined]:
    either way the call throws. *)
Definition push_asset (protoName : string) (a : outcome Asset.t)
    (s : Snapshot.t) : outcome Snapshot.t :=
  match Snapshot.protocols s !! protoName with
  | None => Throw TypeError
  | Some b =>
      a' ← a;
      Ok (Snapshot.mk
            (<[protoName := Protocol.mk (Protocol.name b) (Protocol.id b)
                              (Protocol.value b) (Protocol.assets b ++ [a'])]>
               (Snapshot.protocols s))
            (Snapshot.totalValue s))
  end.

(** ** normalizeDeBank *)

(** The object literal pushed for one token:
    [{ symbol: token.symbol.trim(), amount: token.amount, price: token.price,
       value: (token.amount * token.price), type: ty }],
    with [* -1] on the value for the borrow list. *)
Definition debankAsset (token : jsval) (negate : bool) (ty : string)
    : outcome Asset.t :=
  sym ← get token "symbol";
  symbol ← js_trim sym;
  amount ← get token "amount";
  price ← get token "price";
  product ← js_mul amount price;
  value ← (if negate then js_mul product (num (-1)) else Ok product);
  Ok (Asset.mk symbol amount price value (Str ty) Undefined).

(** [if (item.detail && item.detail.LIST)
       item.detail.LIST.forEach(token => protocols[protoName].assets.push(...))]. *)
Definition debankTokenList (list_key : string) (negate : bool) (ty : string)
    (protoName : string) (item : jsval) (s : Snapshot.t) : outcome Snapshot.t :=
  detail ← get item "detail";
  if truthy detail && truthy (prop detail list_key) then
    js_forEach (prop detail list_key)
      (fun token => push_asset protoName (debankAsset token negate ty)) s
  else Ok s.

(** [if (item.detail && item.detail.token) { const token = item.detail.token;
       protocols[protoName].assets.push(...) }]  (second revision only). *)
Definition debankVesting (protoName : string) (item : jsval) (s : Snapshot.t)
    : outcome Snapshot.t :=
  detail ← get item "detail";
  if truthy detail && truthy (prop detail "token") then
    push_asset protoName (debankAsset (prop detail "token") false "vesting") s
  else Ok s.

(** The callback of [proto.portfolio_item_list.forEach]. *)
Definition debankItem (vesting : bool) (protoName : string) (item : jsval)
    (s : Snapshot.t) : outcome Snapshot.t :=
  stats ← get item "stats";
  net_usd_value ← get stats "net_usd_value";
  let val := or_else net_usd_value (num 0) in
  s ← add_value protoName val s;
  s ← add_total val s;
  s ← debankTokenList "supply_token_list" false "supply" protoName item s;
  s ← debankTokenList "borrow_token_list" true "borrow" protoName item s;
  s ← debankTokenList "reward_token_list" false "reward" protoName item s;
  if vesting then debankVesting protoName item s else Ok s.

(** The callback of [chainData.forEach]. *)
Definition debankProtocol (vesting : bool) (proto : jsval) (s : Snapshot.t)
    : outcome Snapshot.t :=
  proto_name ← get proto "name";
  protoName ← as_key (or_else proto_name (Str "Unknown"));
  proto_id ← get proto "id";
  let s := ensure_bucket protoName proto_id s in
  portfolio_item_list ← get proto "portfolio_item_list";
  js_forEach portfolio_item_list (debankItem vesting protoName) s.

(** [normalizeDeBank(chainData)]; [vesting] tells the two revisions apart:
    the first has no vesting block, the second has it. *)
Definition normalizeDeBankRev (vesting : bool) (chainData : jsval)
    : outcome Snapshot.t :=
  match chainData with
  | Array l => forEach l (debankProtocol vesting) empty_snapshot
  | _ => Ok empty_snapshot
  end.

(** ** normalizeZerion *)

(** What the alias block leaves in [protoName]. *)
Inductive alias :=
| Name (protoName : string)   (* a string: the alias, or the name as it came *)
| Member (key : string).      (* [Object.prototype[key]], not a string *)

(** [if (chainId && PROTOCOL_NAME_MAP[chainId]
         && PROTOCOL_NAME_MAP[chainId][protoName])
       protoName = PROTOCOL_NAME_MAP[chainId][protoName];]
    Both lookups are plain property reads.  A [chainId] that names an
    inherited member and no table selects that member, whose properties are
    not followed; a [protoName] that names an inherited member and no alias
    of the table of the chain selects that member. *)
Definition resolveAlias (PROTOCOL_NAME_MAP : gmap string (gmap string string))
    (chainId protoName : string) : outcome alias :=
  if truthy (Str chainId) then
    match PROTOCOL_NAME_MAP !! chainId with
    | Some aliases =>
        match aliases !! protoName with
        | Some target =>
            Ok (Name (if truthy (Str target) then target else protoName))
        | None =>
            Ok (if inherited protoName then Member protoName else Name protoName)
        end
    | None => if inherited chainId then Unmodelled else Ok (Name protoName)
    end
  else Ok (Name protoName).

(** ToPropertyKey of [protoName] after the alias block.  The key of an
    inherited member is its source text, which is not followed. *)
Definition alias_key (a : alias) : outcome string :=
  match a with
  | Name protoName => Ok protoName
  | Member _ => Unmodelled
  end.

(** The name the alias block leaves when both lookups are answered by the
    own keys of the tables. *)
Definition resolveProtocolName (PROTOCOL_NAME_MAP : gmap string (gmap string string))
    (chainId protoName : string) : string :=
  if truthy (Str chainId) then
    match PROTOCOL_NAME_MAP !! chainId with
    | Some aliases =>
        match aliases !! protoName with
        | Some target => if truthy (Str target) then target else protoName
        | None => protoName
        end
    | None => protoName
    end
  else protoName.

(** [let type = attrs.position_type;
     if (type === 'locked' || type === 'staked') type = 'supply';] *)
Definition zerionType (attrs : jsval) : jsval :=
  let type := prop attrs "position_type" in
  if strict_eq_str type "locked" || strict_eq_str type "staked"
  then Str "supply" else type.

(** [let symbol = attrs.fungible_info?.symbol || '?'; symbol = symbol.trim();] *)
Definition zerionSymbol (attrs : jsval) : outcome string :=
  js_trim (or_else (get_opt (prop attrs "fungible_info") "symbol") (Str "?")).

(** The object literal pushed for one position:
    [{ symbol: symbol, amount: attrs.quantity?.float || 0,
       price: attrs.price || 0, value: val, type: type,
       flags: attrs.fungible_info?.flags }]. *)
Definition zerionAsset (attrs : jsval) (symbol : string) (val type : jsval)
    : Asset.t :=
  Asset.mk symbol
    (or_else (get_opt (prop attrs "quantity") "float") (num 0))
    (or_else (prop attrs "price") (num 0))
    val type
    (get_opt (prop attrs "fungible_info") "flags").

(** The callback of [items.forEach]. *)
Definition zerionPosition (PROTOCOL_NAME_MAP : gmap string (gmap string string))
    (chainId : string) (pos : jsval) (s : Snapshot.t) : outcome Snapshot.t :=
  attrs ← get pos "attributes";
  if negb (truthy attrs) then Ok s
  else if negb (truthy (prop attrs "protocol")) then Ok s
  else
    protocol ← as_key (prop attrs "protocol");
    resolved ← resolveAlias PROTOCOL_NAME_MAP chainId protocol;
    protoName ← alias_key resolved;
    let s := ensure_bucket protoName (Str protoName) s in
    let val := or_else (prop attrs "value") (num 0) in
    s ← add_value protoName val s;
    s ← add_total val s;
    let type := zerionType attrs in
    symbol ← zerionSymbol attrs;
    push_asset protoName (Ok (zerionAsset attrs symbol val type)) s.

(** [items]: the [data] wrapper, the bare array, or nothing. *)
Definition zerionItems (chainDataRaw : jsval) : outcome (list jsval) :=
  data ← get chainDataRaw "data";
  match data with
  | Array l => Ok l
  | _ => match chainDataRaw with
         | Array l => Ok l
         | _ => Ok []
         end
  end.

(** [normalizeZerion(chainDataRaw, chainId)]. *)
Definition normalizeZerionWith (PROTOCOL_NAME_MAP : gmap string (gmap string string))
    (chainDataRaw : jsval) (chainId : string) : outcome Snapshot.t :=
  items ← zerionItems chainDataRaw;
  forEach items (zerionPosition PROTOCOL_NAME_MAP chainId) empty_snapshot.

(** ** The assembler *)

(** [CHAIN_MAP], in the order [Object.keys] enumerates it. *)
Definition CHAIN_MAP : list (string * string) :=
  [ ("eth", "ethereum"); ("bsc", "binance-smart-chain"); ("matic", "polygon");
    ("ftm", "fantom"); ("avax", "avalanche"); ("op", "optimism");
    ("arb", "arbitrum"); ("base", "base"); ("linea", "linea");
    ("era", "zksync-era"); ("scrl", "scroll") ].

(** What the script can observe of a path [DIR/address/chain.json]. *)
Inductive file :=
| Absent                 (* [fs.existsSync] is false *)
| Unreadable             (* exists, but reading or [JSON.parse] throws *)
| Parsed (v : jsval).

(** The two data directories.  [debank_dirs] is the list of subdirectories
    of [DATA_DIR_DEBANK], or [None] when the directory cannot be listed. *)
Record FileSystem := {
  debank_dirs : option (list string);
  debank_file : string -> string -> file;
  zerion_file : string -> string -> file
}.

(** [getDirectories(DATA_DIR_DEBANK)]. *)
Definition getDirectories (fs : FileSystem) : outcome (list string) :=
  match debank_dirs fs with
  | Some dirs => Ok dirs
  | None => Throw ENOENT
  end.

Definition existsSync (f : file) : bool :=
  match f with
  | Absent => false
  | _ => true
  end.

(** [readJson(filePath)]: [null] for a missing file, and [null] (after
    logging) when reading or parsing throws. *)
Definition readJson (f : file) : jsval :=
  match f with
  | Parsed v => v
  | Absent | Unreadable => Null
  end.

(** [{ debank: ..., zerion: ... }]. *)
Record ComparisonRecord := {
  debank : Snapshot.t;
  zerion : Snapshot.t
}.

(** [result[address][zerionChainId] = record]. *)
Definition set_record (address zerionChainId : string) (r : ComparisonRecord)
    (result : gmap string (gmap string ComparisonRecord))
    : outcome (gmap string (gmap string ComparisonRecord)) :=
  match result !! address with
  | None => Throw TypeError
  | Some chains => Ok (<[address := <[zerionChainId := r]> chains]> result)
  end.

Definition toLowerCaseChar (c : ascii) : ascii :=
  let n := nat_of_ascii c in
  if (65 <=? n)%nat && (n <=? 90)%nat then ascii_of_nat (n + 32) else c.

(** [String.prototype.toLowerCase]. *)
Fixpoint toLowerCase (s : string) : string :=
  match s with
  | EmptyString => EmptyString
  | String c rest => String (toLowerCaseChar c) (toLowerCase rest)
  end.

(** [list.includes(x)] on strings. *)
Definition includes (l : list string) (x : string) : bool :=
  existsb (String.eqb x) l.

(** ** First revision: [src/scripts/generate_comparison.js] *)

Module Rev1.

Definition PROTOCOL_NAME_MAP : gmap string (gmap string string) :=
  list_to_map
    [ ("binance-smart-chain", list_to_map [ ("Helio", "Lista DAO") ]);
      ("ethereum",
        list_to_map
          [ ("Morpho Blue", "Morpho"); ("Tokemak", "AUTO Finance");
            ("Spool", "Yelay"); ("Euler v2", "Euler");
            ("Compound V2", "Compound"); ("MakerDAO", "Maker") ]);
      ("optimism", list_to_map [ ("Velodrome V2", "Velodrome") ]) ].

Definition normalizeDeBank : jsval -> outcome Snapshot.t :=
  normalizeDeBankRev false.

Definition normalizeZerion : jsval -> string -> outcome Snapshot.t :=
  normalizeZerionWith PROTOCOL_NAME_MAP.

(** The callback of [Object.keys(CHAIN_MAP).forEach] for one address. *)
Definition mainChain (fs : FileSystem) (address : string)
    (entry : string * string)
    (result : gmap string (gmap string ComparisonRecord))
    : outcome (gmap string (gmap string ComparisonRecord)) :=
  let debankChainId := entry.1 in
  let zerionChainId := entry.2 in
  let debankFile := debank_file fs address debankChainId in
  let zerionFile := zerion_file fs address zerionChainId in
  if negb (existsSync debankFile) && negb (existsSync zerionFile) then Ok result
  else
    let debankDataRaw := readJson debankFile in
    let zerionDataRaw := readJson zerionFile in
    d ← normalizeDeBank debankDataRaw;
    z ← normalizeZerion (or_else zerionDataRaw (Array [])) zerionChainId;
    set_record address zerionChainId {| debank := d; zerion := z |} result.

(** The callback of [addresses.forEach]. *)
Definition mainAddress (fs : FileSystem) (address : string)
    (result : gmap string (gmap string ComparisonRecord))
    : outcome (gmap string (gmap string ComparisonRecord)) :=
  forEach CHAIN_MAP (mainChain fs address) (<[address := ∅]> result).

(** [main()], up to the final write: the value of [result]. *)
Definition main (fs : FileSystem)
    : outcome (gmap string (gmap string ComparisonRecord)) :=
  addresses ← getDirectories fs;
  forEach addresses (mainAddress fs) ∅.

End Rev1.

(** ** Second revision: [src/unnamed/part_003] *)

Module Rev2.

Definition PROTOCOL_NAME_MAP : gmap string (gmap string string) :=
  list_to_map
    [ ("binance-smart-chain", list_to_map [ ("Helio", "Lista DAO") ]);
      ("ethereum",
        list_to_map
          [ ("Morpho Blue", "Morpho"); ("Tokemak", "AUTO Finance");
            ("Spool", "Yelay"); ("Euler v2", "Euler");
            ("Compound V2", "Compound"); ("MakerDAO", "Maker");
            ("ParaSwap", "Velora") ]);
      ("optimism",
        list_to_map
          [ ("Velodrome", "Velodrome V2"); ("Velodrome V2", "Velodrome") ]) ].

Definition TARGET_ADDRESSES : list string :=
  map toLowerCase
    [ "0x9d17bb55b57b31329cf01aa7017948e398b277bc";
      "0x5c9e30def85334e587cf36eb07bdd6a72bf1452d";
      "0xd92293daca6bbed57f8cb6d498b48ea93e035e99";
      "0x15b325660a1C4a9582a7d834C31119C0CB9e3A42";
      "0x47441bd9fb3441370cb5b6c4684a0104353aec66";
      "0x011b0a055e02425461a1ae95b30f483c4ff05be7";
      "0x0b32aa5c1e71715206fe29b7badb21ad95f272c0";
      "0x87f16c31e32ae543278f5194cf94862f1cb1eee0";
      "0xbbbc35dfac3a00a03a8fde3540eca4f0e15c5e64";
      "0x4e5ed30e3b4eb39abce3c150f31e180a3ae5806e";
      "0x84a6a7c0674a3aa03e09c026600cb46181821f07";
      "0x5c051c0ff69b6f5fdd47e847eb370dd48726ec4d";
      "0x7bfee91193d9df2ac0bfe90191d40f23c773c060";
      "0xde6b2a06407575b98724818445178c1f5fd53361";
      "0xbdfa4f4492dd7b7cf211209c4791af8d52bf5c50";
      "0x33eecc48943aaeabb5328a25ff28eb85f67945c2";
      "0x3e8734ec146c981e3ed1f6b582d447dde701d90c" ].

Definition normalizeDeBank : jsval -> outcome Snapshot.t :=
  normalizeDeBankRev true.

Definition normalizeZerion : jsval -> string -> outcome Snapshot.t :=
  normalizeZerionWith PROTOCOL_NAME_MAP.

(** The callback of [Object.keys(CHAIN_MAP).forEach] for one address. *)
Definition mainChain (fs : FileSystem) (address : string)
    (entry : string * string)
    (result : gmap string (gmap string ComparisonRecord))
    : outcome (gmap string (gmap string ComparisonRecord)) :=
  let debankChainId := entry.1 in
  let zerionChainId := entry.2 in
  let debankFile := debank_file fs address debankChainId in
  let zerionFile := zerion_file fs address zerionChainId in
  if negb (existsSync debankFile) && negb (existsSync zerionFile) then Ok result
  else
    let debankDataRaw := or_else (readJson debankFile) (Array []) in
    let zerionDataRaw := or_else (readJson zerionFile) (Array []) in
    d ← normalizeDeBank debankDataRaw;
    z ← normalizeZerion zerionDataRaw zerionChainId;
    set_record address zerionChainId {| debank := d; zerion := z |} result.

(** The callback of [addresses.forEach]. *)
Definition mainAddress (fs : FileSystem) (address : string)
    (result : gmap string (gmap string ComparisonRecord))
    : outcome (gmap string (gmap string ComparisonRecord)) :=
  forEach CHAIN_MAP (mainChain fs address) (<[address := ∅]> result).

(** [main()], up to the final write: the value of [result]. *)
Definition main (fs : FileSystem)
    : outcome (gmap string (gmap string ComparisonRecord)) :=
  dirs ← getDirectories fs;
  let addresses :=
    if (0 <? length TARGET_ADDRESSES)%nat
    then filter (fun addr => includes TARGET_ADDRESSES (toLowerCase addr) = true) dirs
    else dirs in
  forEach addresses (mainAddress fs) ∅.

End Rev2.

(** ** What one record contributes

    The callbacks above interleave reads of the payload with updates of the
    snapshot.  Read without the snapshot, a DeBank protocol record or a
    Zerion position yields a bucket name, the id a fresh bucket gets, the
    values added to the bucket and to the total, and the assets pushed. *)

Record Contribution := {
  c_name : string;
  c_id : jsval;
  c_vals : list Q;
  c_assets : list Asset.t
}.

(** The bucket [protoName] as it is right after the [if (!protocols[...])]
    block. *)
Definition bucket_or_fresh (protoName : string) (id : jsval)
    (m : gmap string Protocol.t) : Protocol.t :=
  default (Protocol.mk protoName id 0 []) (m !! protoName).

(** The snapshot after the values of [c] are added, in order, to its bucket
    and to the total and its assets are appended.  Under the name of an
    inherited member there is no bucket, and only the total grows. *)
Definition credit (s : Snapshot.t) (c : Contribution) : Snapshot.t :=
  if inherited (c_name c) then
    Snapshot.mk (Snapshot.protocols s)
      (fold_left Qplus (c_vals c) (Snapshot.totalValue s))
  else
    let b := bucket_or_fresh (c_name c) (c_id c) (Snapshot.protocols s) in
    Snapshot.mk
      (<[c_name c := Protocol.mk (Protocol.name b) (Protocol.id b)
                       (fold_left Qplus (c_vals c) (Protocol.value b))
                       (Protocol.assets b ++ c_assets c)]>
         (Snapshot.protocols s))
      (fold_left Qplus (c_vals c) (Snapshot.totalValue s)).

(** A contribution the callbacks get through: one named after an inherited
    member has no asset, since the push of an asset throws there. *)
Definition creditable (c : Contribution) : Prop :=
  inherited (c_name c) = true -> c_assets c = [].

(** No bucket sits under the name of an inherited member. *)
Definition no_inherited_bucket (s : Snapshot.t) : Prop :=
  forall n, inherited n = true -> Snapshot.protocols s !! n = None.

Definition creditAll (cs : list Contribution) : Snapshot.t :=
  fold_left credit cs empty_snapshot.

Fixpoint mapM {A B : Type} (f : A -> outcome B) (l : list A)
    : outcome (list B) :=
  match l with
  | [] => Ok []
  | x :: rest => y ← f x; ys ← mapM f rest; Ok (y :: ys)
  end.

(** The number a [val] adds under [+=]. *)
Definition amount_of (val : jsval) : outcome Q :=
  match val with
  | Number (Fin q) => Ok q
  | _ => Unmodelled
  end.

(** The assets one of the token lists of [item] yields. *)
Definition debankTokenAssets (list_key : string) (negate : bool) (ty : string)
    (item : jsval) : outcome (list Asset.t) :=
  detail ← get item "detail";
  if truthy detail && truthy (prop detail list_key) then
    match prop detail list_key with
    | Array l => mapM (fun token => debankAsset token negate ty) l
    | _ => Throw TypeError
    end
  else Ok [].

Definition debankVestingAssets (item : jsval) : outcome (list Asset.t) :=
  detail ← get item "detail";
  if truthy detail && truthy (prop detail "token") then
    a ← debankAsset (prop detail "token") false "vesting"; Ok [a]
  else Ok [].

(** Net value and assets of one portfolio item. *)
Definition debankItemContribution (vesting : bool) (item : jsval)
    : outcome (Q * list Asset.t) :=
  stats ← get item "stats";
  net_usd_value ← get stats "net_usd_value";
  q ← amount_of (or_else net_usd_value (num 0));
  supply ← debankTokenAssets "supply_token_list" false "supply" item;
  borrow ← debankTokenAssets "borrow_token_list" true "borrow" item;
  reward ← debankTokenAssets "reward_token_list" false "reward" item;
  vest ← (if vesting then debankVestingAssets item else Ok []);
  Ok (q, (supply ++ borrow ++ reward ++ vest)%list).

Definition debankContribution (vesting : bool) (proto : jsval)
    : outcome Contribution :=
  proto_name ← get proto "name";
  protoName ← as_key (or_else proto_name (Str "Unknown"));
  proto_id ← get proto "id";
  portfolio_item_list ← get proto "portfolio_item_list";
  items ← match portfolio_item_list with
          | Array l => mapM (debankItemContribution vesting) l
          | _ => Throw TypeError
          end;
  Ok {| c_name := protoName; c_id := proto_id;
        c_vals := items.*1; c_assets := concat items.*2 |}.

(** [None] for a position the callback returns early on. *)
Definition zerionContribution (PROTOCOL_NAME_MAP : gmap string (gmap string string))
    (chainId : string) (pos : jsval) : outcome (option Contribution) :=
  attrs ← get pos "attributes";
  if negb (truthy attrs) then Ok None
  else if negb (truthy (prop attrs "protocol")) then Ok None
  else
    protocol ← as_key (prop attrs "protocol");
    resolved ← resolveAlias PROTOCOL_NAME_MAP chainId protocol;
    protoName ← alias_key resolved;
    let val := or_else (prop attrs "value") (num 0) in
    q ← amount_of val;
    symbol ← zerionSymbol attrs;
    Ok (Some {| c_name := protoName; c_id := Str protoName; c_vals := [q];
                c_assets := [zerionAsset attrs symbol val (zerionType attrs)] |}).

(** Left-to-right sum, as [+=] accumulates it from [0]. *)
Definition sum_in_order (vals : list Q) : Q := fold_left Qplus vals 0%Q.

(** The bucket a list of contributions leaves under [n]: none when no
    contribution carries the name; otherwise the id comes from the first one,
    the values are summed and the asset lists concatenated, in order. *)
Definition bucket_of (n : string) (cs : list Contribution)
    : option Protocol.t :=
  match filter (fun c => c_name c = n) cs with
  | [] => None
  | c0 :: rest =>
      Some (Protocol.mk n (c_id c0)
              (sum_in_order (concat (map c_vals (c0 :: rest))))
              (concat (map c_assets (c0 :: rest))))
  end.

(** Sum of the [value] fields of all buckets. *)
Definition sum_values (m : gmap string Protocol.t) : Q :=
  map_fold (fun _ b acc => Protocol.value b + acc)%Q 0%Q m.

(** The snapshot after one portfolio item, for a bucket that exists. *)
Definition credit_item (n : string) (b : Protocol.t) (s : Snapshot.t)
    (c : Q * list Asset.t) : Snapshot.t :=
  Snapshot.mk
    (<[n := Protocol.mk (Protocol.name b) (Protocol.id b) (Protocol.value b + c.1)%Q
              (Protocol.assets b ++ c.2)]> (Snapshot.protocols s))
    (Snapshot.totalValue s + c.1)%Q.

(** The bucket under [n] once the contributions [sel] named [n] are
    credited to a snapshot whose bucket under [n] is [init]. *)
Definition merged (n : string) (init : option Protocol.t) (sel : list Contribution)
    : option Protocol.t :=
  match sel with
  | [] => init
  | c0 :: _ =>
      let b := default (Protocol.mk n (c_id c0) 0 []) init in
      Some (Protocol.mk (Protocol.name b) (Protocol.id b)
              (fold_left Qplus (concat (map c_vals sel)) (Protocol.value b))
              (Protocol.assets b ++ concat (map c_assets sel)))
  end.

(** ** Payloads of the scenarios *)

(** [[{name:"Aave V3", id:"aave3", portfolio_item_list:[{stats:{net_usd_value:100},
       detail:{supply_token_list:[{symbol:" USDC ",amount:100,price:1}]}}]}]]. *)
Definition aave_payload : jsval :=
  Array [ Object [ ("name", Str "Aave V3"); ("id", Str "aave3");
    ("portfolio_item_list", Array [ Object [
       ("stats", Object [ ("net_usd_value", num 100) ]);
       ("detail", Object [ ("supply_token_list", Array [ Object [
          ("symbol", Str " USDC "); ("amount", num 100); ("price", num 1) ] ]) ]) ] ]) ] ].

(** [{data:[{attributes:{protocol:null,value:50}}]}]. *)
Definition wallet_payload : jsval :=
  Object [ ("data", Array [ Object [ ("attributes",
    Object [ ("protocol", Null); ("value", num 50) ]) ] ]) ].

(** A protocol record without [portfolio_item_list]: [[{name:"X", id:"x"}]]. *)
Definition no_items_payload : jsval :=
  Array [ Object [ ("name", Str "X"); ("id", Str "x") ] ].

(** A portfolio item without [stats]:
    [[{name:"X", id:"x", portfolio_item_list:[{detail:{}}]}]]. *)
Definition no_stats_payload : jsval :=
  Array [ Object [ ("name", Str "X"); ("id", Str "x");
    ("portfolio_item_list", Array [ Object [ ("detail", Object []) ] ]) ] ].

(** A protocol record with one item whose supply list holds [token]. *)
Definition one_supply_token_payload (token : jsval) : jsval :=
  Array [ Object [ ("name", Str "X"); ("id", Str "x");
    ("portfolio_item_list", Array [ Object [
       ("stats", Object [ ("net_usd_value", num 1) ]);
       ("detail", Object [ ("supply_token_list", Array [ token ]) ]) ] ]) ] ].

(** A token without [symbol]: [{amount:1, price:1}]. *)
Definition no_symbol_token : jsval :=
  Object [ ("amount", num 1); ("price", num 1) ].

(** A token without [amount]: [{symbol:"USDC", price:1}]. *)
Definition no_amount_token : jsval :=
  Object [ ("symbol", Str "USDC"); ("price", num 1) ].

(** A Zerion position with a protocol and nothing else:
    [[{attributes:{protocol:"Aave V3"}}]]. *)
Definition bare_position_payload : jsval :=
  Array [ Object [ ("attributes", Object [ ("protocol", Str "Aave V3") ]) ] ].

(** ** Runs of either normaliser *)

Inductive run :=
| DeBankRun (vesting : bool) (chainData : jsval)
| ZerionRun (PROTOCOL_NAME_MAP : gmap string (gmap string string))
    (chainDataRaw : jsval) (chainId : string).

Definition normalize (r : run) : outcome Snapshot.t :=
  match r with
  | DeBankRun vesting chainData => normalizeDeBankRev vesting chainData
  | ZerionRun table chainDataRaw chainId =>
      normalizeZerionWith table chainDataRaw chainId
  end.

(** The contributions of the records of a DeBank payload, in order. *)
Definition debankContributions (vesting : bool) (chainData : jsval)
    : outcome (list Contribution) :=
  match chainData with
  | Array l => mapM (debankContribution vesting) l
  | _ => Ok []
  end.

(** The contributions that are there. *)
Definition kept (ocs : list (option Contribution)) : list Contribution :=
  omap id ocs.

(** The contributions of the kept positions of a Zerion payload, in order. *)
Definition zerionContributions (PROTOCOL_NAME_MAP : gmap string (gmap string string))
    (chainDataRaw : jsval) (chainId : string) : outcome (list Contribution) :=
  items ← zerionItems chainDataRaw;
  ocs ← mapM (zerionContribution PROTOCOL_NAME_MAP chainId) items;
  Ok (kept ocs).

Definition contributions (r : run) : outcome (list Contribution) :=
  match r with
  | DeBankRun vesting chainData => debankContributions vesting chainData
  | ZerionRun table chainDataRaw chainId =>
      zerionContributions table chainDataRaw chainId
  end.

(** ** The value of a protocol against the values of its assets *)

(** The arithmetic sum of [assets[*].value], when every value is a number. *)
Fixpoint sum_asset_values (assets : list Asset.t) : option Q :=
  match assets with
  | [] => Some 0%Q
  | a :: rest =>
      match Asset.value a, sum_asset_values rest with
      | Number (Fin q), Some t => Some (q + t)%Q
      | _, _ => None
      end
  end.

(** "[value] is the arithmetic sum of [assets[*].value]". *)
Definition value_is_asset_sum (b : Protocol.t) : Prop :=
  exists t, sum_asset_values (Protocol.assets b) = Some t /\ (Protocol.value b == t)%Q.

(** One item reported at 100 whose only token is worth 200. *)
Definition mispriced_record : jsval :=
  Object [ ("name", Str "Aave V3"); ("id", Str "aave3");
    ("portfolio_item_list", Array [ Object [
       ("stats", Object [ ("net_usd_value", num 100) ]);
       ("detail", Object [ ("supply_token_list", Array [ Object [
          ("symbol", Str "USDC"); ("amount", num 100); ("price", num 2) ] ]) ]) ] ]) ].

Definition mispriced_payload : jsval := Array [ mispriced_record ].

(** A record named after a member of [Object.prototype]:
    [[{name:"constructor", id:"x",
       portfolio_item_list:[{stats:{net_usd_value:100}}]}]]. *)
Definition constructor_payload : jsval :=
  Array [ Object [ ("name", Str "constructor"); ("id", Str "x");
    ("portfolio_item_list", Array [ Object [
       ("stats", Object [ ("net_usd_value", num 100) ]) ] ]) ] ].

Definition mispriced_snapshot : Snapshot.t :=
  Snapshot.mk
    {[ "Aave V3" :=
         Protocol.mk "Aave V3" (Str "aave3") 100
           [ Asset.mk "USDC" (num 100) (num 2) (num 200) (Str "supply") Undefined ] ]}
    100.

(** A borrow entry with a negative amount:
    [{symbol:"DAI", amount:-5, price:2}] in the borrow list of one item. *)
Definition negative_borrow_payload : jsval :=
  Array [ Object [ ("name", Str "Aave V3"); ("id", Str "aave3");
    ("portfolio_item_list", Array [ Object [
       ("stats", Object [ ("net_usd_value", num 10) ]);
       ("detail", Object [ ("borrow_token_list", Array [ Object [
          ("symbol", Str "DAI"); ("amount", num (-5)); ("price", num 2) ] ]) ]) ] ]) ] ].

(** ** Alias tables *)

(** Every alias of the table is a name, that is, not the empty string. *)
Definition alias_targets_named (table : gmap string (gmap string string)) : Prop :=
  map_Forall
    (fun _ aliases => map_Forall (fun _ target : string => target ≠ EmptyString) aliases)
    table.

(** The configured alias of [(chainId, protoName)], if any. *)
Definition configured (table : gmap string (gmap string string))
    (chainId protoName : string) : option string :=
  aliases ← table !! chainId; aliases !! protoName.

(** [{name:null, id:"x", portfolio_item_list:[{stats:{net_usd_value:7}}]}]. *)
Definition unnamed_record : jsval :=
  Object [ ("name", Null); ("id", Str "x");
    ("portfolio_item_list", Array [ Object [
       ("stats", Object [ ("net_usd_value", num 7) ]) ] ]) ].

(** ** What the assembler stores for one chain *)

Definition is_ok {A : Type} (o : outcome A) : bool :=
  match o with
  | Ok _ => true
  | _ => false
  end.

(** The record [mainChain] stores under [entry.2], or [None] when neither
    file exists; [debankArg] and [zerionArg] are what the revision does to
    the result of [readJson] before it calls the normaliser. *)
Definition chainRecord
    (normalizeDeBank : jsval -> outcome Snapshot.t)
    (normalizeZerion : jsval -> string -> outcome Snapshot.t)
    (debankArg zerionArg : jsval -> jsval)
    (fs : FileSystem) (address : string) (entry : string * string)
    : outcome (option ComparisonRecord) :=
  let debankFile := debank_file fs address entry.1 in
  let zerionFile := zerion_file fs address entry.2 in
  if negb (existsSync debankFile) && negb (existsSync zerionFile) then Ok None
  else
    d ← normalizeDeBank (debankArg (readJson debankFile));
    z ← normalizeZerion (zerionArg (readJson zerionFile)) entry.2;
    Ok (Some {| debank := d; zerion := z |}).

Definition or_empty_array (v : jsval) : jsval := or_else v (Array []).

Definition recordRev1 : FileSystem -> string -> string * string
    -> outcome (option ComparisonRecord) :=
  chainRecord Rev1.normalizeDeBank Rev1.normalizeZerion (fun v => v) or_empty_array.

Definition recordRev2 : FileSystem -> string -> string * string
    -> outcome (option ComparisonRecord) :=
  chainRecord Rev2.normalizeDeBank Rev2.normalizeZerion or_empty_array or_empty_array.

(** No normaliser throws on the payloads of the listed addresses. *)
Definition clean_run (record : string -> string * string -> outcome (option ComparisonRecord))
    (addresses : list string) : Prop :=
  Forall (fun a => Forall (fun e => is_ok (record a e) = true) CHAIN_MAP) addresses.

(** The addresses the second revision processes. *)
Definition allowed (dirs : list string) : list string :=
  filter (fun addr => includes Rev2.TARGET_ADDRESSES (toLowerCase addr) = true) dirs.



(** [chains] holds, for every chain of [entries] with a record, that record
    under the chain's Zerion id. *)
Definition stores (record : string -> string * string -> outcome (option ComparisonRecord))
    (address : string) (entries : list (string * string))
    (chains : gmap string ComparisonRecord) : Prop :=
  forall e r, e ∈ entries -> record address e = Ok (Some r) ->
    chains !! e.2 = Some r.


(** Two Zerion positions on Ethereum that resolve to the same bucket:
    [[{attributes:{protocol:"Morpho Blue", value:10, position_type:"staked",
                   fungible_info:{symbol:" USDC "}}},
      {attributes:{protocol:"Morpho", value:5, position_type:"deposit",
                   fungible_info:{symbol:"WETH"}}}]]. *)
Definition staked_position : jsval :=
  Object [ ("attributes", Object [ ("protocol", Str "Morpho Blue");
    ("value", num 10); ("position_type", Str "staked");
    ("fungible_info", Object [ ("symbol", Str " USDC ") ]) ]) ].

Definition deposit_position : jsval :=
  Object [ ("attributes", Object [ ("protocol", Str "Morpho");
    ("value", num 5); ("position_type", Str "deposit");
    ("fungible_info", Object [ ("symbol", Str "WETH") ]) ]) ].

Definition morpho_payload : jsval := Array [ staked_position; deposit_position ].

Definition morpho_snapshot : Snapshot.t :=
  Snapshot.mk
    {[ "Morpho" :=
         Protocol.mk "Morpho" (Str "Morpho") 15
           [ Asset.mk "USDC" (num 0) (num 0) (num 10) (Str "supply") Undefined;
             Asset.mk "WETH" (num 0) (num 0) (num 5) (Str "deposit") Undefined ] ]}
    15.

(** One item with a supplied and a borrowed token. *)
Definition borrowed_token : jsval :=
  Object [ ("symbol", Str "DAI"); ("amount", num 30); ("price", num 1) ].

Definition borrow_item : jsval :=
  Object [ ("stats", Object [ ("net_usd_value", num 70) ]);
    ("detail", Object [
       ("supply_token_list", Array [ Object [
          ("symbol", Str "USDC"); ("amount", num 100); ("price", num 1) ] ]);
       ("borrow_token_list", Array [ borrowed_token ]) ]) ].

Definition borrow_record : jsval :=
  Object [ ("name", Str "Aave V3"); ("id", Str "aave3");
    ("portfolio_item_list", Array [ borrow_item ]) ].

Definition borrow_snapshot : Snapshot.t :=
  Snapshot.mk
    {[ "Aave V3" :=
         Protocol.mk "Aave V3" (Str "aave3") 70
           [ Asset.mk "USDC" (num 100) (num 1) (num 100) (Str "supply") Undefined;
             Asset.mk "DAI" (num 30) (num 1) (num (-30)) (Str "borrow") Undefined ] ]}
    70.

(** ** What [normalizeDeBank] reads of a record *)

(** [item.stats.net_usd_value || 0]. *)
Definition itemNetValue (item : jsval) : jsval :=
  or_else (prop (prop item "stats") "net_usd_value") (num 0).

(** [proto.name || 'Unknown']. *)
Definition recordName (proto : jsval) : jsval :=
  or_else (prop proto "name") (Str "Unknown").

(** The elements of [proto.portfolio_item_list]. *)
Definition recordItems (proto : jsval) : list jsval :=
  match prop proto "portfolio_item_list" with
  | Array items => items
  | _ => []
  end.

(** The records of [l] filed under [n], in order. *)
Definition recordsNamed (n : string) (l : list jsval) : list jsval :=
  filter (fun proto => strict_eq_str (recordName proto) n = true) l.

(** Their portfolio items, in order. *)
Definition itemsNamed (n : string) (l : list jsval) : list jsval :=
  concat (map recordItems (recordsNamed n l)).

(** [vals] are the net values of [items], one by one. *)
Definition net_values (items : list jsval) (vals : list Q) : Prop :=
  Forall2 (fun item q => itemNetValue item = num q) items vals.

(** What [debankContribution] takes from a record. *)
Definition reads (proto : jsval) (c : Contribution) : Prop :=
  recordName proto = Str (c_name c)
  /\ c_id c = prop proto "id"
  /\ net_values (recordItems proto) (c_vals c).

(** Two records without a name and with different ids:
    [[{name:null, id:"a", portfolio_item_list:[]},
      {name:'', id:"b", portfolio_item_list:[]}]]. *)
Definition first_unnamed : jsval :=
  Object [ ("name", Null); ("id", Str "a"); ("portfolio_item_list", Array []) ].

Definition second_unnamed : jsval :=
  Object [ ("name", Str EmptyString); ("id", Str "b"); ("portfolio_item_list", Array []) ].

(** "The bucket ['Unknown'] carries the id of every record of [l] that has
    no name". *)
Definition unnamed_ids_copied (l : list jsval) (s : Snapshot.t) : Prop :=
  forall proto, proto ∈ l -> truthy (prop proto "name") = false ->
    exists b, Snapshot.protocols s !! "Unknown" = Some b
      /\ Protocol.id b = prop proto "id".

Definition unnamed_snapshot : Snapshot.t :=
  Snapshot.mk {[ "Unknown" := Protocol.mk "Unknown" (Str "x") 7 [] ]} 7.

(** A position with a protocol, [{attributes:{protocol:"Aave V3", value:7}}],
    and one without, [{attributes:{value:50}}]. *)
Definition kept_position : jsval :=
  Object [ ("attributes", Object [ ("protocol", Str "Aave V3"); ("value", num 7) ]) ].

Definition wallet_position : jsval :=
  Object [ ("attributes", Object [ ("value", num 50) ]) ].

(** ** Symbols without surrounding white space *)

(** The first character of [s] is white space. *)
Definition starts_with_space (s : string) : bool :=
  match s with
  | EmptyString => false
  | String c _ => is_space c
  end.

(** The last character of [s] is white space. *)
Fixpoint ends_with_space (s : string) : bool :=
  match s with
  | EmptyString => false
  | String c EmptyString => is_space c
  | String _ rest => ends_with_space rest
  end.

(** ** The assets of a DeBank snapshot *)

(** [amount * price], times [-1] for an asset of type ['borrow'], computed
    from the fields of the asset itself. *)
Definition debankValueOf (a : Asset.t) : outcome jsval :=
  product ← js_mul (Asset.amount a) (Asset.price a);
  if strict_eq_str (Asset.type a) "borrow" then js_mul product (num (-1))
  else Ok product.

(** The type tags [normalizeDeBank] writes. *)
Definition debankTypes (vesting : bool) : list string :=
  [ "supply"; "borrow"; "reward" ] ++ (if vesting then [ "vesting" ] else []).

(** ** The vesting token of the second revision *)

Definition is_vesting (a : Asset.t) : bool := strict_eq_str (Asset.type a) "vesting".

(** A bucket, a contribution and a snapshot with the assets of type
    ['vesting'] left out. *)
Definition without_vesting (b : Protocol.t) : Protocol.t :=
  Protocol.mk (Protocol.name b) (Protocol.id b) (Protocol.value b)
    (filter (fun a => is_vesting a = false) (Protocol.assets b)).

Definition contribution_without_vesting (c : Contribution) : Contribution :=
  {| c_name := c_name c; c_id := c_id c; c_vals := c_vals c;
     c_assets := filter (fun a => is_vesting a = false) (c_assets c) |}.

Definition snapshot_without_vesting (s : Snapshot.t) : Snapshot.t :=
  Snapshot.mk (without_vesting <$> Snapshot.protocols s) (Snapshot.totalValue s).

(** One item with a supplied token and a vesting token:
    [[{name:"Sablier", id:"sablier", portfolio_item_list:[{stats:{net_usd_value:12},
       detail:{supply_token_list:[{symbol:"DAI",amount:2,price:1}],
               token:{symbol:" ARB ",amount:5,price:2}}}]}]]. *)
Definition vesting_payload : jsval :=
  Array [ Object [ ("name", Str "Sablier"); ("id", Str "sablier");
    ("portfolio_item_list", Array [ Object [
       ("stats", Object [ ("net_usd_value", num 12) ]);
       ("detail", Object [
          ("supply_token_list", Array [ Object [
             ("symbol", Str "DAI"); ("amount", num 2); ("price", num 1) ] ]);
          ("token", Object [
             ("symbol", Str " ARB "); ("amount", num 5); ("price", num 2) ]) ]) ] ]) ] ].

Definition vesting_snapshot : Snapshot.t :=
  Snapshot.mk
    {[ "Sablier" :=
         Protocol.mk "Sablier" (Str "sablier") 12
           [ Asset.mk "DAI" (num 2) (num 1) (num 2) (Str "supply") Undefined;
             Asset.mk "ARB" (num 5) (num 2) (num 10) (Str "vesting") Undefined ] ]}
    12.

(** ** The payloads a normaliser returns on *)

Definition is_nullish (v : jsval) : bool :=
  match v with
  | Undefined | Null => true
  | _ => false
  end.

Definition is_string (v : jsval) : bool :=
  match v with
  | Str _ => true
  | _ => false
  end.

(** A number other than [NaN]. *)
Definition is_number (v : jsval) : bool :=
  match v with
  | Number (Fin _) => true
  | _ => false
  end.

(** A value [*] takes without parsing: [undefined], [null], a boolean or a
    number. *)
Definition is_numeric (v : jsval) : bool :=
  match to_number v with
  | Some _ => true
  | None => false
  end.

Definition falsy_or (p : jsval -> bool) (v : jsval) : bool :=
  negb (truthy v) || p v.

(** A token with a string [symbol] and numeric [amount] and [price]. *)
Definition token_ok (token : jsval) : bool :=
  is_string (prop token "symbol")
  && is_numeric (prop token "amount") && is_numeric (prop token "price").

(** [detail[list_key]] is falsy or an array of such tokens. *)
Definition token_list_ok (detail : jsval) (list_key : string) : bool :=
  match prop detail list_key with
  | Array tokens => forallb token_ok tokens
  | v => negb (truthy v)
  end.

(** An item with a [stats] object whose [net_usd_value] is falsy or a number,
    and token lists as above; with [vesting], [detail.token] is falsy or a
    token as above. *)
Definition item_ok (vesting : bool) (item : jsval) : bool :=
  let stats := prop item "stats" in
  let detail := prop item "detail" in
  negb (is_nullish stats)
  && falsy_or is_number (prop stats "net_usd_value")
  && token_list_ok detail "supply_token_list"
  && token_list_ok detail "borrow_token_list"
  && token_list_ok detail "reward_token_list"
  && (negb vesting || falsy_or token_ok (prop detail "token")).

(** A record whose [name] is falsy or a string and whose
    [portfolio_item_list] is an array of such items. *)
Definition record_ok (vesting : bool) (proto : jsval) : bool :=
  falsy_or is_string (prop proto "name")
  && match prop proto "portfolio_item_list" with
     | Array items => forallb (item_ok vesting) items
     | _ => false
     end.

(** [detail[list_key]] is falsy or the empty array: nothing is pushed. *)
Definition token_list_empty (detail : jsval) (list_key : string) : bool :=
  match prop detail list_key with
  | Array tokens => match tokens with [] => true | _ :: _ => false end
  | v => negb (truthy v)
  end.

(** An item for which no asset is pushed. *)
Definition item_without_asset (vesting : bool) (item : jsval) : bool :=
  let detail := prop item "detail" in
  token_list_empty detail "supply_token_list"
  && token_list_empty detail "borrow_token_list"
  && token_list_empty detail "reward_token_list"
  && (negb vesting || negb (truthy (prop detail "token"))).

(** A record whose pushes find a bucket: it is not filed under the name of
    an inherited member, or no asset is pushed for any of its items. *)
Definition record_filed (vesting : bool) (proto : jsval) : bool :=
  match or_else (prop proto "name") (Str "Unknown"),
        prop proto "portfolio_item_list" with
  | Str protoName, Array items =>
      negb (inherited protoName) || forallb (item_without_asset vesting) items
  | _, _ => true
  end.

Definition debank_payload_ok (vesting : bool) (chainData : jsval) : bool :=
  match chainData with
  | Array l =>
      forallb (fun proto => record_ok vesting proto && record_filed vesting proto) l
  | _ => true
  end.

(** A [protocol] attribute that is a string for which the alias block
    leaves a string that is not the name of an inherited member. *)
Definition protocol_ok (PROTOCOL_NAME_MAP : gmap string (gmap string string))
    (chainId : string) (protocol : jsval) : bool :=
  match protocol with
  | Str p =>
      match resolveAlias PROTOCOL_NAME_MAP chainId p with
      | Ok (Name protoName) => negb (inherited protoName)
      | _ => false
      end
  | _ => false
  end.

(** A position that is skipped, or has such a [protocol], a [value] that
    is falsy or a number and a [fungible_info.symbol] that is falsy or a
    string. *)
Definition position_ok (PROTOCOL_NAME_MAP : gmap string (gmap string string))
    (chainId : string) (pos : jsval) : bool :=
  let attrs := prop pos "attributes" in
  negb (is_nullish pos)
  && (negb (truthy attrs) || negb (truthy (prop attrs "protocol"))
      || protocol_ok PROTOCOL_NAME_MAP chainId (prop attrs "protocol")
         && falsy_or is_number (prop attrs "value")
         && falsy_or is_string (get_opt (prop attrs "fungible_info") "symbol")).

(** The positions [normalizeZerion] iterates over. *)
Definition itemsOf (chainDataRaw : jsval) : list jsval :=
  match prop chainDataRaw "data", chainDataRaw with
  | Array l, _ => l
  | _, Array l => l
  | _, _ => []
  end.

Definition zerion_payload_ok (PROTOCOL_NAME_MAP : gmap string (gmap string string))
    (chainDataRaw : jsval) (chainId : string) : bool :=
  negb (is_nullish chainDataRaw)
  && forallb (position_ok PROTOCOL_NAME_MAP chainId) (itemsOf chainDataRaw).

(** ** What [main] leaves under an address *)

(** [chains] holds, under the Zerion id of every mapped chain, the record of
    the chain when there is one and nothing when there is none, and it holds
    nothing under any other key. *)
Definition exact_chains
    (record : string -> string * string -> outcome (option ComparisonRecord))
    (address : string) (chains : gmap string ComparisonRecord) : Prop :=
  (forall e, e ∈ CHAIN_MAP -> record address e = Ok (chains !! e.2))
  /\ (forall z, z ∉ CHAIN_MAP.*2 -> chains !! z = None).

(** The two file systems list the same files under the mapped chains of
    [addresses]. *)
Definition same_mapped_files (fs fs' : FileSystem) (addresses : list string) : Prop :=
  forall a e, a ∈ addresses -> e ∈ CHAIN_MAP ->
    debank_file fs a e.1 = debank_file fs' a e.1
    /\ zerion_file fs a e.2 = zerion_file fs' a e.2.

(** A file system in which every file that exists but cannot be read or
    parsed holds [[]] instead. *)
Definition repaired (f : file) : file :=
  match f with
  | Unreadable => Parsed (Array [])
  | _ => f
  end.

Definition repaired_fs (fs : FileSystem) : FileSystem :=
  {| debank_dirs := debank_dirs fs;
     debank_file := fun address chain => repaired (debank_file fs address chain);
     zerion_file := fun address chain => repaired (zerion_file fs address chain) |}.

(** Two addresses, the first with both files for Ethereum and a DeBank file
    that is never looked up, the second with a Zerion file that cannot be
    parsed. *)
Definition two_address_fs : FileSystem :=
  {| debank_dirs := Some ["0x9d17bb55b57b31329cf01aa7017948e398b277bc"; "0xabc"];
     debank_file := fun address chain =>
       if String.eqb address "0x9d17bb55b57b31329cf01aa7017948e398b277bc"
       then if String.eqb chain "eth" then Parsed aave_payload
            else if String.eqb chain "zksync" then Parsed no_items_payload
            else Absent
       else Absent;
     zerion_file := fun address chain =>
       if String.eqb chain "ethereum"
       then if String.eqb address "0xabc" then Unreadable else Parsed morpho_payload
       else Absent |}.

(** The same without the file that is never looked up. *)
Definition two_address_fs' : FileSystem :=
  {| debank_dirs := Some ["0x9d17bb55b57b31329cf01aa7017948e398b277bc"; "0xabc"];
     debank_file := fun address chain =>
       if String.eqb address "0x9d17bb55b57b31329cf01aa7017948e398b277bc"
          && String.eqb chain "eth"
       then Parsed aave_payload else Absent;
     zerion_file := zerion_file two_address_fs |}.

(** ** The fetchers

    [scripts/fetch_protocol.js] (DeBank) and its Zerion counterpart
    ([src/unnamed/part_001]) write the files the comparison reads.  Their
    requests go through axios; what a request gives is a [reply], and a
    call that may retry takes the replies to its successive requests.  The
    pauses between requests are not represented. *)

(** [await apiClient.get(...)]: the response axios resolves with, or the
    error it rejects with; the status of an error is
    [error.response.status], and [None] when the error has no response. *)
Inductive reply :=
| Resolved (status : nat) (data : jsval)
| Rejected (status : option nat).

(** [error.response && error.response.status === 429]. *)
Definition rate_limited (status : option nat) : bool :=
  match status with
  | Some code => (code =? 429)%nat
  | None => false
  end.

(** [TARGET_CHAINS_IDS.map(id => TARGET_CHAIN_MAP[id]).filter(Boolean)]. *)
Definition allowedChains (TARGET_CHAIN_MAP : gmap Z string) (TARGET_CHAINS_IDS : list Z)
    : list string :=
  omap (fun id =>
          match TARGET_CHAIN_MAP !! id with
          | Some chain => if truthy (Str chain) then Some chain else None
          | None => None
          end)
       TARGET_CHAINS_IDS.

Module ZerionFetcher.

Definition TARGET_CHAIN_MAP : gmap Z string :=
  list_to_map
    [ (1%Z, "ethereum"); (10%Z, "optimism"); (56%Z, "binance-smart-chain");
      (137%Z, "polygon"); (250%Z, "fantom"); (324%Z, "zksync-era");
      (8453%Z, "base"); (42161%Z, "arbitrum"); (43114%Z, "avalanche");
      (59144%Z, "linea"); (534352%Z, "scroll") ].

Definition TARGET_CHAINS_IDS : list Z :=
  [ 1; 10; 137; 250; 324; 42161; 43114; 534352; 56; 59144; 8453 ]%Z.

Definition ALLOWED_ZERION_CHAINS : list string :=
  allowedChains TARGET_CHAIN_MAP TARGET_CHAINS_IDS.

Definition MAX_RETRIES : nat := 3.

(** The loop of [getWalletPositions], entered with [retries] retries done;
    [net k] is the reply to request number [k], and the result comes with
    the number of requests made.  Every iteration that does not return
    increments [retries], so [fuel] bounds the iterations. *)
Fixpoint getWalletPositionsLoop (fuel retries : nat) (net : nat -> reply)
    : option (jsval * nat) :=
  match fuel with
  | O => None
  | S fuel =>
      if (retries <? MAX_RETRIES)%nat then
        match net retries with
        | Resolved status data =>
            if (status =? 202)%nat then getWalletPositionsLoop fuel (S retries) net
            else
              (* [return response.data.data]; a [TypeError] here is caught
                 by the [catch] below, which returns [null] *)
              match get data "data" with
              | Ok positions => Some (positions, S retries)
              | _ => Some (Null, S retries)
              end
        | Rejected status =>
            if rate_limited status then getWalletPositionsLoop fuel (S retries) net
            else Some (Null, S retries)
        end
      else Some (Null, retries)
  end.

(** [getWalletPositions(address)]. *)
Definition getWalletPositions (net : nat -> reply) : option (jsval * nat) :=
  getWalletPositionsLoop (S MAX_RETRIES) 0 net.

(** [ALLOWED_ZERION_CHAINS.forEach(chain => { chainData[chain] = []; })]. *)
Definition initChainData : gmap string (list jsval) :=
  fold_left (fun chainData chain => <[chain := []]> chainData) ALLOWED_ZERION_CHAINS ∅.

(** The callback of [positions.forEach]: [chainData] and [matchCount]. *)
Definition groupPosition (pos : jsval) (st : gmap string (list jsval) * nat)
    : outcome (gmap string (list jsval) * nat) :=
  relationships ← get pos "relationships";
  let chainId := get_opt (get_opt (get_opt relationships "chain") "data") "id" in
  match chainId with
  | Str chain =>
      if truthy chainId && includes ALLOWED_ZERION_CHAINS chain then
        match st.1 !! chain with
        | Some positions => Ok (<[chain := positions ++ [pos]]> st.1, S st.2)
        | None => Throw TypeError
        end
      else Ok st
  | _ => Ok st      (* a value that is not a string is not in the list *)
  end.

Definition groupPositions (positions : list jsval)
    : outcome (gmap string (list jsval) * nat) :=
  forEach positions groupPosition (initChainData, O).

(** [{ data: chainPositions,
       meta: { chain_id: chainId, address: address, timestamp: ... } }]. *)
Definition chainOutput (address chainId timestamp : string)
    (chainPositions : list jsval) : jsval :=
  Object [ ("data", Array chainPositions);
           ("meta", Object [ ("chain_id", Str chainId); ("address", Str address);
                             ("timestamp", Str timestamp) ]) ].

(** The loop [for (const chainId of ALLOWED_ZERION_CHAINS)]: the files
    written under the directory of [address], by name (without [.json]), in
    order; [now chainId] is the time stamp taken for the file. *)
Definition savedChainFiles (address : string) (now : string -> string)
    (chainData : gmap string (list jsval)) : list (string * jsval) :=
  omap (fun chainId =>
          match chainData !! chainId with
          | Some (pos :: rest) =>
              Some (chainId, chainOutput address chainId (now chainId) (pos :: rest))
          | _ => None
          end)
       ALLOWED_ZERION_CHAINS.

(** One turn of the loop over the addresses, from the result of
    [getWalletPositions] on. *)
Definition saveAddress (address : string) (now : string -> string)
    (positionsData : jsval) : outcome (list (string * jsval)) :=
  match positionsData with
  | Array positions =>
      st ← groupPositions positions;
      Ok (savedChainFiles address now st.1)
  | _ => Ok []
  end.

End ZerionFetcher.

Module DeBankFetcher.

Definition TARGET_CHAIN_MAP : gmap Z string :=
  list_to_map
    [ (1%Z, "eth"); (10%Z, "op"); (56%Z, "bsc"); (137%Z, "matic");
      (250%Z, "ftm"); (324%Z, "zksync"); (8453%Z, "base"); (42161%Z, "arb");
      (43114%Z, "avax"); (59144%Z, "linea"); (534352%Z, "scroll") ].

Definition TARGET_CHAINS_IDS : list Z :=
  [ 1; 10; 137; 250; 324; 42161; 43114; 534352; 56; 59144; 8453 ]%Z.

Definition ALLOWED_DEBANK_CHAINS : list string :=
  allowedChains TARGET_CHAIN_MAP TARGET_CHAINS_IDS.

Definition MAX_RETRIES : nat := 3.

(** The loop of [getProtocolList], as for [getWalletPositions]. *)
Fixpoint getProtocolListLoop (fuel retries : nat) (net : nat -> reply)
    : option (jsval * nat) :=
  match fuel with
  | O => None
  | S fuel =>
      if (retries <=? MAX_RETRIES)%nat then
        match net retries with
        | Resolved _ data => Some (or_else data (Array []), S retries)
        | Rejected status =>
            if rate_limited status && (S retries <=? MAX_RETRIES)%nat
            then getProtocolListLoop fuel (S retries) net
            else Some (Array [], S retries)
        end
      else Some (Array [], retries)
  end.

(** [getProtocolList(address, chainId)]. *)
Definition getProtocolList (net : nat -> reply) : option (jsval * nat) :=
  getProtocolListLoop (S (S MAX_RETRIES)) 0 net.

(** [usedChains.filter(c => ALLOWED_DEBANK_CHAINS.includes(c))], on the ids
    [getUsedChains] took from the response. *)
Definition targetChains (usedChains : list jsval) : list string :=
  omap (fun c =>
          match c with
          | Str chain => if includes ALLOWED_DEBANK_CHAINS chain then Some chain else None
          | _ => None
          end)
       usedChains.

(** [protocols.length]. *)
Definition lengthOf (protocols : jsval) : outcome jsval :=
  match protocols with
  | Array l => Ok (num (inject_Z (Z.of_nat (length l))))
  | Str s => Ok (num (inject_Z (Z.of_nat (String.length s))))
  | _ => get protocols "length"
  end.

(** [len > 0]; a [len] that is a string, an array or an object is compared
    after a conversion that is not followed. *)
Definition positive (len : jsval) : outcome bool :=
  match to_number len with
  | Some (Fin q) => Ok (0 <? Qnum q)%Z
  | Some NaN => Ok false
  | None => Unmodelled
  end.

(** [...protocols]: arrays and strings are iterable, nothing else that
    [JSON.parse] yields is. *)
Definition spread (protocols : jsval) : outcome (list jsval) :=
  match protocols with
  | Array l => Ok l
  | Str s => Ok (map (fun c => Str (String c EmptyString)) (list_ascii_of_string s))
  | _ => Throw TypeError
  end.

(** What one turn of the loop over the addresses has written and collected:
    the chain files by name (without [.json]), in order, and [allProtocols]. *)
Record Saved := {
  chainFiles : list (string * jsval);
  allProtocols : list jsval
}.

(** The body of [for (const chainId of usedChains)]; [protocols] is what
    [getProtocolList] returned for the chain. *)
Definition saveChain (chainId : string) (protocols : jsval) (saved : Saved)
    : outcome Saved :=
  len ← lengthOf protocols;
  nonEmpty ← positive len;
  if nonEmpty : bool then
    items ← spread protocols;
    Ok {| chainFiles := chainFiles saved ++ [(chainId, protocols)];
          allProtocols := allProtocols saved ++ items |}
  else Ok saved.

(** The loop, from the [i]-th chain on; [protocolsAt i] is what
    [getProtocolList] returns for the [i]-th chain.  A throw ends the run of
    the script; the files written before it stay, so the loop returns what
    was saved together with how it ended. *)
Fixpoint saveChains (chains : list string) (i : nat) (protocolsAt : nat -> jsval)
    (saved : Saved) : Saved * outcome unit :=
  match chains with
  | [] => (saved, Ok tt)
  | chainId :: rest =>
      match saveChain chainId (protocolsAt i) saved with
      | Ok saved' => saveChains rest (S i) protocolsAt saved'
      | Throw e => (saved, Throw e)
      | Unmodelled => (saved, Unmodelled)
      end
  end.

(** The files in the directory of an address after its turn, by name
    (without [.json]), in the order written: the chain files and, when the
    loop completed with something collected, [all_protocols]. *)
Definition savedFiles (usedChains : list jsval) (protocolsAt : nat -> jsval)
    : list (string * jsval) :=
  let run := saveChains (targetChains usedChains) 0 protocolsAt
               {| chainFiles := []; allProtocols := [] |} in
  chainFiles run.1
  ++ match run.2, allProtocols run.1 with
     | Ok _, p :: rest => [("all_protocols", Array (p :: rest))]
     | _, _ => []
     end.

End DeBankFetcher.

(** The reply asks for another attempt: status 202 on a response or 429 on
    an error for Zerion, status 429 on an error for DeBank. *)
Definition zerionRetry (r : reply) : bool :=
  match r with
  | Resolved status _ => (status =? 202)%nat
  | Rejected status => rate_limited status
  end.

Definition debankRetry (r : reply) : bool :=
  match r with
  | Resolved _ _ => false
  | Rejected status => rate_limited status
  end.

(** What the calls return on a reply that ends them. *)
Definition zerionAnswer (r : reply) : jsval :=
  match r with
  | Resolved _ data =>
      match get data "data" with
      | Ok positions => positions
      | _ => Null
      end
  | Rejected _ => Null
  end.

Definition debankAnswer (r : reply) : jsval :=
  match r with
  | Resolved _ data => or_else data (Array [])
  | Rejected _ => Array []
  end.

(** The first of the replies [0 .. n-1] that does not ask for another
    attempt. *)
Fixpoint firstFinal (retry : reply -> bool) (net : nat -> reply) (k n : nat)
    : option nat :=
  match n with
  | O => None
  | S n => if retry (net k) then firstFinal retry net (S k) n else Some k
  end.

(** The chain a position is on: [pos.relationships?.chain?.data?.id]. *)
Definition chainOf (pos : jsval) : jsval :=
  get_opt (get_opt (get_opt (prop pos "relationships") "chain") "data") "id".

Definition onChain (chain : string) (pos : jsval) : bool :=
  strict_eq_str (chainOf pos) chain.

(** Three positions: one on Ethereum, one on a chain that is not fetched,
    one more on Ethereum. *)
Definition position_on (chain protocol : string) (value : Q) : jsval :=
  Object [ ("attributes", Object [ ("protocol", Str protocol); ("value", num value) ]);
           ("relationships", Object [ ("chain", Object [ ("data",
              Object [ ("type", Str "chains"); ("id", Str chain) ]) ]) ]) ].

Definition fetched_positions : list jsval :=
  [ position_on "ethereum" "Morpho Blue" 10; position_on "solana" "Jito" 3;
    position_on "ethereum" "Morpho" 5 ].

(** The position is on one of the chains the Zerion fetcher keeps. *)
Definition onTargetChain (pos : jsval) : bool :=
  match chainOf pos with
  | Str chain => includes ZerionFetcher.ALLOWED_ZERION_CHAINS chain
  | _ => false
  end.

(** The positions of [positions] on [chain], in order. *)
Definition positionsOn (chain : string) (positions : list jsval) : list jsval :=
  filter (fun pos => onChain chain pos = true) positions.

(** DeBank data saved for zkSync Era under the fetcher's name for the
    chain, next to a Zerion file for the same chain. *)
Definition zksync_fs : FileSystem :=
  {| debank_dirs := Some ["0xabc"];
     debank_file := fun address chain =>
       if String.eqb chain "zksync" then Parsed aave_payload else Absent;
     zerion_file := fun address chain =>
       if String.eqb chain "zksync-era" then Parsed morpho_payload else Absent |}.

(** * Properties *)

#[local] Open Scope Q_scope.

(** ** The outcome monad *)

Lemma bind_Ok {A B} (a : A) (k : A -> outcome B) : (Ok a ≫= k) = k a.
Proof. reflexivity. Qed.

Lemma bind_ext {A B} (m : outcome A) (f g : A -> outcome B) :
  (forall a, m = Ok a -> f a = g a) -> m ≫= f = m ≫= g.
Proof. destruct m; simpl; auto. Qed.

(** ** Stepping through computations *)

(** The computation a chain of binds starts with. *)
Ltac first_step t :=
  lazymatch t with
  | mbind _ ?m => first_step m
  | _ => t
  end.

(** [run as x]: the goal equates two computations that start with the same
    step; go on with the value [x] that the step returns. *)
Tactic Notation "run" "as" simple_intropattern(x) :=
  lazymatch goal with
  | |- ?l = _ =>
      let m := first_step l in
      destruct m as [x| |]; [rewrite ?bind_Ok | done ..]
  end.

Tactic Notation "run" "as" simple_intropattern(x) "eqn" ":" ident(E) :=
  lazymatch goal with
  | |- ?l = _ =>
      let m := first_step l in
      destruct m as [x| |] eqn:E; [rewrite ?bind_Ok | done ..]
  end.

(** [returned as x in H]: [H] says that a computation returns; name the
    value [x] that its first step returns. *)
Tactic Notation "returned" "as" simple_intropattern(x) "in" hyp(H) :=
  lazymatch type of H with
  | ?l = _ =>
      let m := first_step l in
      destruct m as [x| |]; [rewrite ?bind_Ok in H | discriminate H ..]
  end.

Tactic Notation "returned" "as" simple_intropattern(x) "eqn" ":" ident(E)
    "in" hyp(H) :=
  lazymatch type of H with
  | ?l = _ =>
      let m := first_step l in
      destruct m as [x| |] eqn:E; [rewrite ?bind_Ok in H | discriminate H ..]
  end.

Lemma forEach_app {A S} (l1 l2 : list A) (cb : A -> S -> outcome S) (s : S) :
  forEach (l1 ++ l2) cb s = forEach l1 cb s ≫= forEach l2 cb.
Proof.
  revert s. induction l1 as [|x l1 IH]; intros s; simpl; [done|].
  destruct (cb x s); simpl; auto.
Qed.

Lemma add_assign_amount (acc : Q) (val : jsval) :
  add_assign acc val = (q ← amount_of val; Ok (acc + q)).
Proof. by destruct val as [| | |[|]| | |]. Qed.

(** ** Pushing assets *)

Lemma push_asset_Some (n : string) (oa : outcome Asset.t) (s : Snapshot.t) (b : Protocol.t) :
  Snapshot.protocols s !! n = Some b ->
  push_asset n oa s =
  (a ← oa;
   Ok (Snapshot.mk
         (<[n := Protocol.mk (Protocol.name b) (Protocol.id b) (Protocol.value b)
                   (Protocol.assets b ++ [a])]> (Snapshot.protocols s))
         (Snapshot.totalValue s))).
Proof. intros Hb. unfold push_asset. by rewrite Hb. Qed.

Lemma push_assets_forEach (n : string) (f : jsval -> outcome Asset.t) (l : list jsval) :
  forall (s : Snapshot.t) (b : Protocol.t),
  Snapshot.protocols s !! n = Some b ->
  forEach l (fun token => push_asset n (f token)) s =
  (new ← mapM f l;
   Ok (Snapshot.mk
         (<[n := Protocol.mk (Protocol.name b) (Protocol.id b) (Protocol.value b)
                   (Protocol.assets b ++ new)]> (Snapshot.protocols s))
         (Snapshot.totalValue s))).
Proof.
  induction l as [|x l IH]; intros s b Hb; cbn [forEach mapM].
  - simpl. rewrite app_nil_r. destruct s as [m t]; simpl in *.
    destruct b; simpl. by rewrite insert_id.
  - rewrite (push_asset_Some _ _ _ _ Hb).
    destruct (f x) as [a| |]; simpl; [|done..].
    erewrite IH; [|simpl; apply lookup_insert_eq]. simpl.
    destruct (mapM f l); simpl; [|done..].
    by rewrite insert_insert_eq, <- app_assoc.
Qed.

Lemma debankTokenList_assets (list_key : string) (negate : bool) (ty n : string)
    (item : jsval) (s : Snapshot.t) (b : Protocol.t) :
  Snapshot.protocols s !! n = Some b ->
  debankTokenList list_key negate ty n item s =
  (new ← debankTokenAssets list_key negate ty item;
   Ok (Snapshot.mk
         (<[n := Protocol.mk (Protocol.name b) (Protocol.id b) (Protocol.value b)
                   (Protocol.assets b ++ new)]> (Snapshot.protocols s))
         (Snapshot.totalValue s))).
Proof.
  intros Hb. unfold debankTokenList, debankTokenAssets.
  destruct (get item "detail") as [detail| |]; simpl; [|done..].
  destruct (truthy detail && truthy (prop detail list_key)).
  - destruct (prop detail list_key); simpl; try done.
    by apply push_assets_forEach.
  - simpl. rewrite app_nil_r. destruct s as [m t], b; simpl in *.
    by rewrite insert_id.
Qed.

Lemma debankVesting_assets (n : string) (item : jsval) (s : Snapshot.t) (b : Protocol.t) :
  Snapshot.protocols s !! n = Some b ->
  debankVesting n item s =
  (new ← debankVestingAssets item;
   Ok (Snapshot.mk
         (<[n := Protocol.mk (Protocol.name b) (Protocol.id b) (Protocol.value b)
                   (Protocol.assets b ++ new)]> (Snapshot.protocols s))
         (Snapshot.totalValue s))).
Proof.
  intros Hb. unfold debankVesting, debankVestingAssets.
  destruct (get item "detail") as [detail| |]; simpl; [|done..].
  destruct (truthy detail && truthy (prop detail "token")).
  - rewrite (push_asset_Some _ _ _ _ Hb).
    by destruct (debankAsset _ _ _).
  - simpl. rewrite app_nil_r. destruct s as [m t], b; simpl in *.
    by rewrite insert_id.
Qed.

Lemma debankItem_credit (vesting : bool) (n : string) (item : jsval)
    (s : Snapshot.t) (b : Protocol.t) :
  Snapshot.protocols s !! n = Some b ->
  debankItem vesting n item s =
  (c ← debankItemContribution vesting item; Ok (credit_item n b s c)).
Proof.
  intros Hb. unfold debankItem, debankItemContribution.
  run as stats.
  run as nuv.
  unfold add_value. rewrite Hb, add_assign_amount.
  run as q eqn:Hq.
  unfold add_total; cbn [Snapshot.totalValue Snapshot.protocols].
  rewrite add_assign_amount, Hq, !bind_Ok.
  erewrite debankTokenList_assets; [|simpl; apply lookup_insert_eq].
  run as a1.
  erewrite debankTokenList_assets; [|simpl; apply lookup_insert_eq].
  run as a2.
  erewrite debankTokenList_assets; [|simpl; apply lookup_insert_eq].
  run as a3.
  destruct vesting.
  - erewrite debankVesting_assets; [|simpl; apply lookup_insert_eq].
    run as a4.
    unfold credit_item; simpl. by rewrite !insert_insert_eq, <- !app_assoc.
  - rewrite !bind_Ok. unfold credit_item; simpl.
    by rewrite !insert_insert_eq, app_nil_r, <- !app_assoc.
Qed.

Lemma debankItems_credit (vesting : bool) (n : string) (items : list jsval) :
  forall (s : Snapshot.t) (b : Protocol.t),
  Snapshot.protocols s !! n = Some b ->
  forEach items (debankItem vesting n) s =
  (cs ← mapM (debankItemContribution vesting) items;
   Ok (Snapshot.mk
         (<[n := Protocol.mk (Protocol.name b) (Protocol.id b)
                   (fold_left Qplus cs.*1 (Protocol.value b))
                   (Protocol.assets b ++ concat cs.*2)]> (Snapshot.protocols s))
         (fold_left Qplus cs.*1 (Snapshot.totalValue s)))).
Proof.
  induction items as [|item items IH]; intros s b Hb; cbn [forEach mapM].
  - rewrite bind_Ok. simpl. rewrite app_nil_r.
    destruct s as [m t], b; simpl in *. by rewrite insert_id.
  - rewrite (debankItem_credit _ _ _ _ _ Hb).
    destruct (debankItemContribution vesting item) as [[q new]| |];
      [rewrite !bind_Ok|done..].
    erewrite IH; [|simpl; apply lookup_insert_eq].
    run as cs.
    simpl. by rewrite insert_insert_eq, <- app_assoc.
Qed.

Lemma ensure_bucket_lookup (n : string) (id : jsval) (s : Snapshot.t) :
  inherited n = false ->
  Snapshot.protocols (ensure_bucket n id s) !! n
  = Some (bucket_or_fresh n id (Snapshot.protocols s)).
Proof.
  intros Hn. unfold ensure_bucket, bucket_or_fresh.
  destruct (Snapshot.protocols s !! n) as [b|] eqn:Hb; simpl; [done|].
  rewrite Hn. apply lookup_insert_eq.
Qed.

Lemma ensure_bucket_insert (n : string) (id : jsval) (s : Snapshot.t) (b : Protocol.t) :
  inherited n = false ->
  <[n := b]> (Snapshot.protocols (ensure_bucket n id s))
  = <[n := b]> (Snapshot.protocols s).
Proof.
  intros Hn. unfold ensure_bucket.
  destruct (Snapshot.protocols s !! n); simpl; [done|].
  rewrite Hn. apply insert_insert_eq.
Qed.

Lemma ensure_bucket_total (n : string) (id : jsval) (s : Snapshot.t) :
  Snapshot.totalValue (ensure_bucket n id s) = Snapshot.totalValue s.
Proof.
  unfold ensure_bucket.
  destruct (Snapshot.protocols s !! n); [done|]. by destruct (inherited n).
Qed.

(** ** Names of inherited members

    Under such a name [protocols[protoName]] is the inherited member: no
    bucket is made, the value is added to the total alone, and the first
    push of an asset throws. *)

Lemma ensure_bucket_inherited (n : string) (id : jsval) (s : Snapshot.t) :
  inherited n = true -> ensure_bucket n id s = s.
Proof.
  intros Hn. unfold ensure_bucket.
  destruct (Snapshot.protocols s !! n); [done|]. by rewrite Hn.
Qed.

(** [step as x]: the goal says that a computation returns exactly when a
    second one, which starts with the same step, returns; go on with the
    value [x] of that step. *)
Ltac both_fail :=
  simpl; split; [intros ?H; discriminate | intros (? & ?H & _); discriminate].

Tactic Notation "step" "as" simple_intropattern(x) :=
  lazymatch goal with
  | |- ?l = _ <-> _ =>
      let m := first_step l in
      destruct m as [x| |]; [rewrite ?bind_Ok | both_fail ..]
  end.

Tactic Notation "step" "as" simple_intropattern(x) "eqn" ":" ident(E) :=
  lazymatch goal with
  | |- ?l = _ <-> _ =>
      let m := first_step l in
      destruct m as [x| |] eqn:E; [rewrite ?bind_Ok | both_fail ..]
  end.

Lemma mapM_cons_not_nil {A B} (f : A -> outcome B) (x : A) (l : list A) :
  mapM f (x :: l) ≠ Ok [].
Proof.
  cbn [mapM]. destruct (f x); [rewrite bind_Ok|done..].
  by destruct (mapM f l).
Qed.

Lemma debankTokenList_inherited (list_key : string) (negate : bool) (ty n : string)
    (item : jsval) (s s' : Snapshot.t) :
  Snapshot.protocols s !! n = None ->
  debankTokenList list_key negate ty n item s = Ok s' <->
  debankTokenAssets list_key negate ty item = Ok [] /\ s' = s.
Proof.
  intros Hn. unfold debankTokenList, debankTokenAssets.
  destruct (get item "detail") as [detail| |]; simpl;
    [|split; [done|by intros [? _]]..].
  destruct (truthy detail && truthy (prop detail list_key)).
  - destruct (prop detail list_key) as [| | | | |l|]; simpl;
      try (split; [done|by intros [? _]]).
    destruct l as [|token l].
    + simpl. split; [by intros [= <-]|by intros [_ ->]].
    + cbn [forEach]. unfold push_asset. rewrite Hn.
      split; [done|]. intros [H _]. by apply mapM_cons_not_nil in H.
  - split; [by intros [= <-]|by intros [_ ->]].
Qed.

Lemma debankVesting_inherited (n : string) (item : jsval) (s s' : Snapshot.t) :
  Snapshot.protocols s !! n = None ->
  debankVesting n item s = Ok s' <->
  debankVestingAssets item = Ok [] /\ s' = s.
Proof.
  intros Hn. unfold debankVesting, debankVestingAssets.
  destruct (get item "detail") as [detail| |]; simpl;
    [|split; [done|by intros [? _]]..].
  destruct (truthy detail && truthy (prop detail "token")).
  - unfold push_asset. rewrite Hn. split; [done|]. intros [H _].
    by destruct (debankAsset _ _ _).
  - split; [by intros [= <-]|by intros [_ ->]].
Qed.

Lemma debankItem_inherited (vesting : bool) (n : string) (item : jsval)
    (s s' : Snapshot.t) :
  Snapshot.protocols s !! n = None -> inherited n = true ->
  debankItem vesting n item s = Ok s' <->
  exists q, debankItemContribution vesting item = Ok (q, [])
    /\ s' = Snapshot.mk (Snapshot.protocols s) (Snapshot.totalValue s + q).
Proof.
  intros Hn Hi. unfold debankItem, debankItemContribution.
  step as stats.
  step as nuv.
  unfold add_value. rewrite Hn, Hi, !add_assign_amount.
  step as q eqn:Hq.
  unfold add_total. rewrite add_assign_amount, Hq, !bind_Ok.
  set (s1 := Snapshot.mk (Snapshot.protocols s) (Snapshot.totalValue s + q)).
  assert (Hn1 : Snapshot.protocols s1 !! n = None) by exact Hn.
  split.
  - intros H. exists q.
    returned as s2 eqn:H1 in H.
    apply debankTokenList_inherited in H1 as [Ha1 ->]; [|done].
    returned as s3 eqn:H2 in H.
    apply debankTokenList_inherited in H2 as [Ha2 ->]; [|done].
    returned as s4 eqn:H3 in H.
    apply debankTokenList_inherited in H3 as [Ha3 ->]; [|done].
    rewrite Ha1, Ha2, Ha3, !bind_Ok. destruct vesting.
    + apply debankVesting_inherited in H as [Ha4 ->]; [|done].
      by rewrite Ha4.
    + by injection H as <-.
  - intros (q' & H & ->).
    returned as a1 eqn:Ha1 in H.
    returned as a2 eqn:Ha2 in H.
    returned as a3 eqn:Ha3 in H.
    returned as a4 eqn:Ha4 in H.
    injection H as <- H.
    apply app_eq_nil in H as [-> H]. apply app_eq_nil in H as [-> H].
    apply app_eq_nil in H as [-> ->].
    rewrite (proj2 (debankTokenList_inherited _ _ _ _ _ _ _ Hn1) (conj Ha1 eq_refl)).
    rewrite bind_Ok.
    rewrite (proj2 (debankTokenList_inherited _ _ _ _ _ _ _ Hn1) (conj Ha2 eq_refl)).
    rewrite bind_Ok.
    rewrite (proj2 (debankTokenList_inherited _ _ _ _ _ _ _ Hn1) (conj Ha3 eq_refl)).
    rewrite bind_Ok. destruct vesting; [|done].
    by rewrite (proj2 (debankVesting_inherited _ _ _ _ Hn1) (conj Ha4 eq_refl)).
Qed.

Lemma debankItems_inherited (vesting : bool) (n : string) (items : list jsval) :
  inherited n = true ->
  forall s s' : Snapshot.t,
  Snapshot.protocols s !! n = None ->
  forEach items (debankItem vesting n) s = Ok s' <->
  exists ics, mapM (debankItemContribution vesting) items = Ok ics
    /\ concat ics.*2 = []
    /\ s' = Snapshot.mk (Snapshot.protocols s)
              (fold_left Qplus ics.*1 (Snapshot.totalValue s)).
Proof.
  intros Hi. induction items as [|item items IH]; intros s s' Hn;
    cbn [forEach mapM].
  - split.
    + intros [= <-]. exists []. by destruct s.
    + intros (ics & [= <-] & _ & ->). by destruct s.
  - split.
    + intros H. returned as s1 eqn:H1 in H.
      apply debankItem_inherited in H1 as (q & Hq & ->); [|done..].
      apply IH in H as (ics & Hics & Hnil & ->); [|done].
      exists ((q, []) :: ics). by rewrite Hq, Hics.
    + intros (ics' & H & Hnil & ->).
      returned as [q a] eqn:Hq in H. returned as ics eqn:Hics in H.
      injection H as <-. simpl in Hnil.
      apply app_eq_nil in Hnil as [-> Hnil].
      rewrite (proj2 (debankItem_inherited _ _ _ _ _ Hn Hi) (ex_intro _ q (conj Hq eq_refl))).
      rewrite bind_Ok. apply IH; [done|]. by exists ics.
Qed.

Lemma credit_no_inherited (s : Snapshot.t) (c : Contribution) :
  no_inherited_bucket s -> no_inherited_bucket (credit s c).
Proof.
  intros Hs n Hn. unfold credit.
  destruct (inherited (c_name c)) eqn:Hc; simpl; [by apply Hs|].
  rewrite lookup_insert_ne; [by apply Hs|]. congruence.
Qed.

Lemma credit_fold_no_inherited (cs : list Contribution) (s : Snapshot.t) :
  no_inherited_bucket s -> no_inherited_bucket (fold_left credit cs s).
Proof.
  revert s. induction cs as [|c cs IH]; intros s Hs; simpl; [done|].
  by apply IH, credit_no_inherited.
Qed.

Lemma creditAll_no_inherited (cs : list Contribution) :
  no_inherited_bucket (creditAll cs).
Proof. apply credit_fold_no_inherited. intros n _. apply lookup_empty. Qed.

(** ** The callbacks credit contributions *)

Lemma debankProtocol_credit (vesting : bool) (proto : jsval) (s s' : Snapshot.t) :
  no_inherited_bucket s ->
  debankProtocol vesting proto s = Ok s' <->
  exists c, debankContribution vesting proto = Ok c
    /\ creditable c /\ s' = credit s c.
Proof.
  intros Hs. unfold debankProtocol, debankContribution.
  step as pn.
  step as n.
  step as pid.
  step as pil.
  destruct pil as [| | | | |items|]; try both_fail.
  unfold js_forEach. destruct (inherited n) eqn:Hi.
  - rewrite (ensure_bucket_inherited _ _ _ Hi).
    rewrite (debankItems_inherited _ _ _ Hi) by by apply Hs.
    unfold creditable, credit. split.
    + intros (ics & Hics & Hnil & ->). rewrite Hics, bind_Ok.
      eexists. split; [done|]. simpl. by rewrite Hi.
    + intros (c & H & Hc & ->). returned as ics eqn:Hics in H.
      injection H as <-. simpl in *. rewrite Hi. exists ics. auto.
  - rewrite (debankItems_credit _ _ _ _ _ (ensure_bucket_lookup n pid s Hi)).
    destruct (mapM _ items) as [ics| |]; [rewrite !bind_Ok|both_fail..].
    unfold creditable, credit. split.
    + intros [= <-]. eexists. split; [done|]. simpl. rewrite Hi.
      split; [done|]. by rewrite ensure_bucket_insert, ensure_bucket_total.
    + intros (c & [= <-] & _ & ->). simpl. rewrite Hi.
      by rewrite ensure_bucket_insert, ensure_bucket_total.
Qed.

Lemma forEach_credit {A} (cb : A -> Snapshot.t -> outcome Snapshot.t)
    (f : A -> outcome (option Contribution)) :
  (forall x s s', no_inherited_bucket s ->
     cb x s = Ok s' <->
     exists oc, f x = Ok oc /\ from_option creditable True oc
       /\ s' = from_option (credit s) s oc) ->
  forall l s s', no_inherited_bucket s ->
  forEach l cb s = Ok s' <->
  exists ocs, mapM f l = Ok ocs /\ Forall creditable (omap id ocs)
    /\ s' = fold_left credit (omap id ocs) s.
Proof.
  intros Hcb. induction l as [|x l IH]; intros s s' Hs; cbn [forEach mapM].
  - split.
    + intros [= <-]. by exists [].
    + by intros (ocs & [= <-] & _ & ->).
  - split.
    + intros H. returned as s1 eqn:H1 in H.
      apply Hcb in H1 as (oc & Hoc & Hc & ->); [|done].
      apply IH in H as (ocs & Hocs & Hcs & ->);
        [|destruct oc; simpl; [by apply credit_no_inherited|done]].
      exists (oc :: ocs). rewrite Hoc, Hocs. split; [done|].
      destruct oc; simpl in *; [split; [by constructor|done]|done].
    + intros (ocs' & H & Hcs & ->).
      returned as oc eqn:Hoc in H. returned as ocs eqn:Hocs in H.
      injection H as <-.
      assert (H1 : cb x s = Ok (from_option (credit s) s oc)).
      { apply Hcb; [done|]. exists oc. split; [done|]. split; [|done].
        destruct oc; simpl in *; [by inversion Hcs|done]. }
      rewrite H1, bind_Ok. apply IH.
      { destruct oc; simpl; [by apply credit_no_inherited|done]. }
      exists ocs. split; [done|].
      destruct oc; simpl in *; [by inversion Hcs|done].
Qed.

Lemma omap_id_Some {A} (l : list A) : omap id (map Some l) = l.
Proof. induction l; simpl; by f_equal. Qed.

Lemma mapM_Some {A B} (f : A -> outcome B) (l : list A) :
  mapM (fun x => y ← f x; (Ok (Some y) : outcome (option B))) l
  = (ys ← mapM f l; (Ok (map Some ys) : outcome (list (option B)))).
Proof.
  induction l as [|x l IH]; cbn [mapM]; [done|].
  destruct (f x); [rewrite !bind_Ok|done..]. rewrite IH.
  by destruct (mapM f l).
Qed.

Lemma empty_no_inherited : no_inherited_bucket empty_snapshot.
Proof. intros n _. apply lookup_empty. Qed.

(** [normalizeDeBank] returns exactly when every record has a contribution
    it gets through, and then it has credited them, in order. *)
Lemma normalizeDeBank_creditAll (vesting : bool) (l : list jsval) (s : Snapshot.t) :
  normalizeDeBankRev vesting (Array l) = Ok s <->
  exists cs, mapM (debankContribution vesting) l = Ok cs
    /\ Forall creditable cs /\ s = creditAll cs.
Proof.
  unfold normalizeDeBankRev, creditAll.
  rewrite (forEach_credit _
    (fun x => c ← debankContribution vesting x;
              (Ok (Some c) : outcome (option Contribution))));
    [| |exact empty_no_inherited].
  - rewrite mapM_Some. split.
    + intros (ocs & H & Hc & ->). returned as cs eqn:Hcs in H.
      injection H as <-. rewrite omap_id_Some in *. by exists cs.
    + intros (cs & Hcs & Hc & ->). exists (map Some cs).
      by rewrite Hcs, omap_id_Some.
  - intros x s0 s1 Hs0. rewrite debankProtocol_credit by done. split.
    + intros (c & Hc & Hq & ->). exists (Some c). by rewrite Hc.
    + intros (oc & H & Hq & ->). returned as c eqn:Hc in H.
      injection H as <-. by exists c.
Qed.

Lemma resolveAlias_Name (T : gmap string (gmap string string))
    (chainId protoName n : string) :
  resolveAlias T chainId protoName = Ok (Name n) ->
  n = resolveProtocolName T chainId protoName.
Proof.
  unfold resolveAlias, resolveProtocolName.
  destruct (truthy (Str chainId)); [|congruence].
  destruct (T !! chainId) as [aliases|].
  - destruct (aliases !! protoName) as [target|]; [congruence|].
    destruct (inherited protoName); congruence.
  - destruct (inherited chainId); congruence.
Qed.

Lemma zerionPosition_credit (T : gmap string (gmap string string)) (chainId : string)
    (pos : jsval) (s s' : Snapshot.t) :
  no_inherited_bucket s ->
  zerionPosition T chainId pos s = Ok s' <->
  exists oc, zerionContribution T chainId pos = Ok oc
    /\ from_option creditable True oc /\ s' = from_option (credit s) s oc.
Proof.
  intros Hs. unfold zerionPosition, zerionContribution.
  step as attrs.
  destruct (truthy attrs); cbn [negb].
  2: { split; [intros [= <-]; by exists None|by intros (oc & [= <-] & _ & ->)]. }
  destruct (truthy (prop attrs "protocol")); cbn [negb].
  2: { split; [intros [= <-]; by exists None|by intros (oc & [= <-] & _ & ->)]. }
  step as p.
  step as r.
  step as n.
  cbv zeta. destruct (inherited n) eqn:Hi; unfold add_value.
  - rewrite (ensure_bucket_inherited _ _ _ Hi), (Hs n Hi), Hi, add_assign_amount.
    step as q eqn:Hq.
    unfold add_total. rewrite add_assign_amount, Hq, !bind_Ok.
    step as sym.
    unfold push_asset, creditable. cbn [Snapshot.protocols]. rewrite (Hs n Hi).
    split; [done|]. intros (oc & [= <-] & Hc & _). by specialize (Hc Hi).
  - rewrite (ensure_bucket_lookup _ _ _ Hi), add_assign_amount.
    step as q eqn:Hq.
    unfold add_total; cbn [Snapshot.totalValue Snapshot.protocols].
    rewrite add_assign_amount, Hq, !bind_Ok.
    step as sym.
    erewrite push_asset_Some; [|simpl; apply lookup_insert_eq].
    rewrite bind_Ok. unfold creditable, credit. split.
    + intros [= <-]. eexists (Some _). split; [done|]. simpl. rewrite Hi.
      split; [done|].
      by rewrite insert_insert_eq, ensure_bucket_insert, ensure_bucket_total.
    + intros (oc & [= <-] & _ & ->). simpl. rewrite Hi.
      by rewrite insert_insert_eq, ensure_bucket_insert, ensure_bucket_total.
Qed.

(** [normalizeZerion] returns exactly when every kept position has a
    contribution it gets through, and then it has credited them, in order. *)
Lemma normalizeZerion_creditAll (T : gmap string (gmap string string))
    (raw : jsval) (chainId : string) (s : Snapshot.t) :
  normalizeZerionWith T raw chainId = Ok s <->
  exists cs, zerionContributions T raw chainId = Ok cs
    /\ Forall creditable cs /\ s = creditAll cs.
Proof.
  unfold normalizeZerionWith, zerionContributions, creditAll, kept.
  step as items.
  rewrite (forEach_credit _ (zerionContribution T chainId));
    [| |exact empty_no_inherited].
  - split.
    + intros (ocs & Hocs & Hc & ->). rewrite Hocs, bind_Ok. by eexists.
    + intros (cs & H & Hc & ->). returned as ocs eqn:Hocs in H.
      injection H as <-. by exists ocs.
  - intros. by apply zerionPosition_credit.
Qed.

(** ** Sums *)

Lemma sum_values_empty : sum_values ∅ = 0.
Proof. apply map_fold_empty. Qed.

Lemma credit_fold_total_in_order (cs : list Contribution) (s : Snapshot.t) :
  Snapshot.totalValue (fold_left credit cs s)
  = fold_left Qplus (concat (map c_vals cs)) (Snapshot.totalValue s).
Proof.
  revert s. induction cs as [|c cs IH]; intros s; simpl; [done|].
  rewrite IH, fold_left_app. unfold credit. by destruct (inherited (c_name c)).
Qed.

(** ** Buckets *)

Lemma credit_lookup_ne (s : Snapshot.t) (c : Contribution) (n : string) :
  c_name c ≠ n ->
  Snapshot.protocols (credit s c) !! n = Snapshot.protocols s !! n.
Proof.
  intros Hne. unfold credit. destruct (inherited (c_name c)); simpl; [done|].
  by rewrite lookup_insert_ne.
Qed.

Lemma credit_lookup_eq (s : Snapshot.t) (c : Contribution) :
  inherited (c_name c) = false ->
  Snapshot.protocols (credit s c) !! c_name c =
  let b := bucket_or_fresh (c_name c) (c_id c) (Snapshot.protocols s) in
  Some (Protocol.mk (Protocol.name b) (Protocol.id b)
          (fold_left Qplus (c_vals c) (Protocol.value b))
          (Protocol.assets b ++ c_assets c)).
Proof. intros Hc. unfold credit. rewrite Hc. simpl. by rewrite lookup_insert_eq. Qed.

Lemma credit_fold_lookup (n : string) (cs : list Contribution) :
  inherited n = false ->
  forall s : Snapshot.t,
  Snapshot.protocols (fold_left credit cs s) !! n
  = merged n (Snapshot.protocols s !! n) (filter (fun c => c_name c = n) cs).
Proof.
  intros Hn. induction cs as [|c cs IH]; intros s; [done|].
  cbn [fold_left]. rewrite IH, filter_cons.
  destruct (decide (c_name c = n)) as [<-|Hne].
  - rewrite credit_lookup_eq by done. unfold bucket_or_fresh.
    destruct (filter _ cs) as [|c1 sel]; simpl.
    + by rewrite !app_nil_r.
    + by rewrite !fold_left_app, <- !app_assoc.
  - by rewrite credit_lookup_ne.
Qed.

Lemma creditAll_lookup (n : string) (cs : list Contribution) :
  inherited n = false ->
  Snapshot.protocols (creditAll cs) !! n = bucket_of n cs.
Proof.
  intros Hn. unfold creditAll. rewrite credit_fold_lookup by done.
  unfold bucket_of, merged.
  simpl. rewrite lookup_empty. by destruct (filter _ cs).
Qed.

Lemma creditAll_lookup_Some (n : string) (cs : list Contribution) (b : Protocol.t) :
  Snapshot.protocols (creditAll cs) !! n = Some b ->
  inherited n = false /\ bucket_of n cs = Some b.
Proof.
  intros Hb. destruct (inherited n) eqn:Hn.
  - by rewrite (creditAll_no_inherited cs n Hn) in Hb.
  - by rewrite creditAll_lookup in Hb.
Qed.

Lemma creditable_named (cs : list Contribution) (c : Contribution) (a : Asset.t) :
  Forall creditable cs -> c ∈ cs -> a ∈ c_assets c -> inherited (c_name c) = false.
Proof.
  intros Hcs Hc Ha. destruct (inherited (c_name c)) eqn:Hn; [|done].
  rewrite (proj1 (Forall_forall _ _) Hcs c Hc Hn) in Ha.
  by apply not_elem_of_nil in Ha.
Qed.

(** ** Elements of [mapM] and of merged buckets *)

Lemma mapM_Forall2 {A B} (f : A -> outcome B) (l : list A) (ys : list B) :
  mapM f l = Ok ys -> Forall2 (fun x y => f x = Ok y) l ys.
Proof.
  revert ys. induction l as [|x l IH]; intros ys; cbn [mapM].
  - intros [= <-]. constructor.
  - destruct (f x) as [y| |] eqn:Hx; try discriminate. rewrite bind_Ok.
    destruct (mapM f l) as [ys'| |]; try discriminate. rewrite bind_Ok.
    intros [= <-]. constructor; auto.
Qed.

Lemma mapM_elem_of {A B} (f : A -> outcome B) (l : list A) (ys : list B) (x : A) :
  mapM f l = Ok ys -> x ∈ l -> exists y, f x = Ok y /\ y ∈ ys.
Proof.
  intros H%mapM_Forall2 Hx.
  destruct (proj1 (list_elem_of_lookup l x) Hx) as [i Hi].
  destruct (Forall2_lookup_l _ _ _ _ _ H Hi) as (y & Hy & Hf).
  exists y. split; [done|]. by eapply list_elem_of_lookup_2.
Qed.

(** A normaliser returns exactly when every record, or kept position, has a
    contribution it gets through, and then it has credited them, in order. *)
Lemma normalize_creditAll (r : run) (s : Snapshot.t) :
  normalize r = Ok s <->
  exists cs, contributions r = Ok cs /\ Forall creditable cs /\ s = creditAll cs.
Proof.
  destruct r as [v chainData | T raw c]; simpl.
  - destruct chainData; try apply normalizeDeBank_creditAll;
      (split; [intros [= <-]; by exists []|by intros (cs & [= <-] & _ & ->)]).
  - apply normalizeZerion_creditAll.
Qed.

Lemma get_Ok (v w : jsval) (k : string) : get v k = Ok w -> w = prop v k.
Proof. destruct v; simpl; congruence. Qed.

Lemma prop_Array_truthy (v : jsval) (k : string) (l : list jsval) :
  prop v k = Array l -> truthy v = true.
Proof. by destruct v. Qed.

Lemma debankAsset_fields (token : jsval) (negate : bool) (ty : string) (a : Asset.t) :
  debankAsset token negate ty = Ok a ->
  Asset.type a = Str ty
  /\ Asset.amount a = prop token "amount"
  /\ Asset.price a = prop token "price"
  /\ forall x p, prop token "amount" = num x -> prop token "price" = num p ->
       Asset.value a = num (if negate then x * p * -1 else x * p).
Proof.
  unfold debankAsset.
  destruct (get token "symbol") as [sym| |] eqn:Hsym; try discriminate. rewrite bind_Ok.
  destruct (js_trim sym) as [symbol| |]; try discriminate. rewrite bind_Ok.
  assert (Hg : forall k, get token k = Ok (prop token k)) by (by destruct token).
  rewrite !Hg, !bind_Ok.
  destruct (js_mul _ _) as [product| |] eqn:Hmul; try discriminate. rewrite bind_Ok.
  destruct negate.
  - destruct (js_mul product _) as [value| |] eqn:Hneg; try discriminate.
    rewrite bind_Ok. intros [= <-]; simpl. repeat split; try done.
    intros x p Hx Hp. rewrite Hx, Hp in Hmul. injection Hmul as <-.
    by injection Hneg as <-.
  - rewrite bind_Ok. intros [= <-]; simpl. repeat split; try done.
    intros x p Hx Hp. rewrite Hx, Hp in Hmul. by injection Hmul as <-.
Qed.

Lemma elem_of_concat {A} (x : A) (l : list A) (ls : list (list A)) :
  x ∈ l -> l ∈ ls -> x ∈ concat ls.
Proof.
  intros Hx Hl. induction ls as [|l' ls IH]; [by apply not_elem_of_nil in Hl|].
  simpl. apply elem_of_app. apply elem_of_cons in Hl as [-> | Hl]; [by left|].
  right. by apply IH.
Qed.

Lemma bucket_of_elem (cs : list Contribution) (c : Contribution) :
  c ∈ cs ->
  exists b, bucket_of (c_name c) cs = Some b
    /\ Protocol.name b = c_name c
    /\ forall a, a ∈ c_assets c -> a ∈ Protocol.assets b.
Proof.
  intros Hc. unfold bucket_of.
  assert (Hin : c ∈ filter (fun c' => c_name c' = c_name c) cs)
    by (by apply list_elem_of_filter).
  destruct (filter _ cs) as [|c0 rest]; [by apply not_elem_of_nil in Hin|].
  eexists. split; [done|]. split; [done|]. simpl.
  intros a Ha. change (a ∈ concat (map c_assets (c0 :: rest))).
  apply (elem_of_concat _ (c_assets c)); [done|].
  by apply (list_elem_of_fmap_2 c_assets).
Qed.

(** ** Invariants of the snapshots *)




Lemma debankItemContribution_net (vesting : bool) (item : jsval)
    (ic : Q * list Asset.t) :
  debankItemContribution vesting item = Ok ic -> itemNetValue item = num ic.1.
Proof.
  unfold debankItemContribution, itemNetValue. intros H.
  returned as stats eqn:Hstats in H. apply get_Ok in Hstats as ->.
  returned as nuv eqn:Hnuv in H. apply get_Ok in Hnuv as ->.
  destruct (or_else _ _) as [| | |[|q]| | |]; try discriminate H.
  simpl amount_of in H. rewrite bind_Ok in H.
  returned as a1 in H. returned as a2 in H. returned as a3 in H.
  returned as a4 in H. by injection H as <-.
Qed.

Lemma Forall2_concat {A B} (P : A -> B -> Prop) (ls1 : list (list A))
    (ls2 : list (list B)) :
  Forall2 (Forall2 P) ls1 ls2 -> Forall2 P (concat ls1) (concat ls2).
Proof. induction 1; simpl; [constructor|]. by apply Forall2_app. Qed.

Lemma debankContribution_reads (vesting : bool) (proto : jsval) (c : Contribution) :
  debankContribution vesting proto = Ok c -> reads proto c.
Proof.
  unfold debankContribution, reads, recordName, recordItems, net_values. intros H.
  returned as pn eqn:Hpn in H. apply get_Ok in Hpn as ->.
  destruct (or_else _ _) as [| | | |n| |]; try discriminate H.
  simpl as_key in H. rewrite bind_Ok in H.
  returned as pid eqn:Hpid in H. apply get_Ok in Hpid as ->.
  returned as pil eqn:Hpil in H. apply get_Ok in Hpil as ->.
  destruct (prop proto "portfolio_item_list") as [| | | | |items|];
    try discriminate H.
  returned as ics eqn:Hics in H. injection H as <-. simpl.
  split; [done|]. split; [done|]. apply Forall2_fmap_r.
  apply mapM_Forall2 in Hics.
  eapply Forall2_impl; [exact Hics|]. intros item ic Hic.
  by apply debankItemContribution_net in Hic.
Qed.

Lemma reads_filter (n : string) (l : list jsval) (cs : list Contribution) :
  Forall2 reads l cs ->
  Forall2 reads (recordsNamed n l) (filter (fun c => c_name c = n) cs).
Proof.
  unfold recordsNamed.
  induction 1 as [|proto c l cs Hr _ IH]; [constructor|].
  rewrite !filter_cons. destruct Hr as (Hname & Hid & Hvals).
  rewrite Hname. simpl strict_eq_str.
  destruct (decide (c_name c = n)) as [->|Hne].
  - rewrite String.eqb_refl. rewrite decide_True by done.
    constructor; [|done]. by repeat split.
  - apply String.eqb_neq in Hne. rewrite Hne. by rewrite decide_False.
Qed.

Lemma reads_net_values (l : list jsval) (cs : list Contribution) :
  Forall2 reads l cs ->
  net_values (concat (map recordItems l)) (concat (map c_vals cs)).
Proof.
  unfold net_values. intros H. apply Forall2_concat.
  induction H as [|proto c l cs (_ & _ & Hvals) _ IH]; simpl; by constructor.
Qed.

Lemma reads_named (n : string) (l : list jsval) (cs : list Contribution) :
  Forall2 reads l cs ->
  net_values (concat (map recordItems (recordsNamed n l)))
    (concat (map c_vals (filter (fun c => c_name c = n) cs))).
Proof. intros H. by apply reads_net_values, reads_filter. Qed.

(** C1 (as the code has it). In every snapshot [normalizeDeBank] returns,
    [totalValue] is the sum of [item.stats.net_usd_value || 0] over all
    portfolio items of the payload, added one after the other in payload
    order, and the value of a bucket is that sum over the portfolio items of
    the records filed under the bucket's name.  The asset values play no
    part in either. *)
Theorem debank_values_are_net_values (vesting : bool) (l : list jsval)
    (s : Snapshot.t) :
  normalizeDeBankRev vesting (Array l) = Ok s ->
  (exists vals, net_values (concat (map recordItems l)) vals
     /\ Snapshot.totalValue s = sum_in_order vals)
  /\ forall n b, Snapshot.protocols s !! n = Some b ->
       exists vals, net_values (itemsNamed n l) vals
         /\ Protocol.value b = sum_in_order vals.
Proof.
  intros (cs & Hcs & _ & ->)%normalizeDeBank_creditAll.
  assert (Hreads : Forall2 reads l cs).
  { apply mapM_Forall2 in Hcs. eapply Forall2_impl; [exact Hcs|].
    intros proto c. apply debankContribution_reads. }
  split.
  - exists (concat (map c_vals cs)). split; [by apply reads_net_values|].
    unfold creditAll. by rewrite credit_fold_total_in_order.
  - intros n b [_ Hb]%creditAll_lookup_Some. revert Hb. unfold bucket_of.
    destruct (filter _ cs) as [|c0 rest] eqn:Hsel; [done|]. intros [= <-].
    exists (concat (map c_vals (c0 :: rest))). split; [|done].
    rewrite <- Hsel. by apply reads_named.
Qed.

(** C1, as stated, fails: on [mispriced_payload] the bucket has value 100
    while its asset values sum to 200; and on [constructor_payload], whose
    record is named after a member of [Object.prototype], [totalValue] is
    100 while there is no bucket at all. *)
Lemma debank_value_is_not_asset_sum :
  (exists s b, Rev1.normalizeDeBank mispriced_payload = Ok s
     /\ Snapshot.protocols s !! "Aave V3" = Some b
     /\ ~ value_is_asset_sum b)
  /\ (exists s, Rev1.normalizeDeBank constructor_payload = Ok s
        /\ Snapshot.protocols s = ∅
        /\ ~ Snapshot.totalValue s == sum_values (Snapshot.protocols s)).
Proof.
  split.
  - eexists _, _. split; [vm_compute; reflexivity|].
    split; [vm_compute; reflexivity|].
    intros (t & Ht & Hv). vm_compute in Ht. injection Ht as <-.
    vm_compute in Hv. discriminate.
  - exists (Snapshot.mk ∅ 100). split; [vm_compute; reflexivity|].
    split; [reflexivity|]. simpl. rewrite sum_values_empty.
    intros H. discriminate H.
Qed.

(** On [mispriced_payload]: the bucket and the total hold the net value of
    the item, 100. *)
Lemma debank_values_are_net_values_witness :
  Rev1.normalizeDeBank mispriced_payload = Ok mispriced_snapshot
  /\ forall n b, Snapshot.protocols mispriced_snapshot !! n = Some b ->
       exists vals, net_values (itemsNamed n [mispriced_record]) vals
         /\ Protocol.value b = sum_in_order vals.
Proof.
  assert (H : Rev1.normalizeDeBank mispriced_payload = Ok mispriced_snapshot)
    by (vm_compute; reflexivity).
  split; [exact H|].
  exact (proj2 (debank_values_are_net_values false [mispriced_record] _ H)).
Defined.

(** ** Scenarios *)

(** C6. On the Aave scenario input [normalizeDeBank] returns exactly one
    bucket ["Aave V3"] with id ["aave3"], value 100 and the single asset
    USDC (symbol trimmed), amount 100, price 1, value 100, whose [type] field
    (the spec's role) is ["supply"] and which has no [flags]; [totalValue]
    is 100.  Both revisions agree. *)
Theorem aave_scenario :
  let expected :=
    Snapshot.mk
      {[ "Aave V3" :=
           Protocol.mk "Aave V3" (Str "aave3") 100
             [ Asset.mk "USDC" (num 100) (num 1) (num 100) (Str "supply") Undefined ] ]}
      100 in
  Rev1.normalizeDeBank aave_payload = Ok expected
  /\ Rev2.normalizeDeBank aave_payload = Ok expected.
Proof. split; vm_compute; reflexivity. Qed.

(** C2. [normalizeDeBank] is not total: it throws on a protocol record
    without [portfolio_item_list], on an item without [stats] and on a token
    without [symbol], and a token without [amount] yields the value [NaN]
    and no amount instead of zero.  [normalizeZerion] degrades a position
    without asset fields to the symbol ["?"] and zeros, but throws on a
    [null] payload and on a [null] position. *)
Theorem normalizers_not_total :
  Rev1.normalizeDeBank no_items_payload = Throw TypeError
  /\ Rev2.normalizeDeBank no_items_payload = Throw TypeError
  /\ Rev1.normalizeDeBank no_stats_payload = Throw TypeError
  /\ Rev1.normalizeDeBank (one_supply_token_payload no_symbol_token) = Throw TypeError
  /\ Rev1.normalizeDeBank (one_supply_token_payload no_amount_token)
     = Ok (Snapshot.mk
             {[ "X" := Protocol.mk "X" (Str "x") 1
                  [ Asset.mk "USDC" Undefined (num 1) (Number NaN) (Str "supply")
                      Undefined ] ]} 1)
  /\ Rev1.normalizeZerion bare_position_payload "ethereum"
     = Ok (Snapshot.mk
             {[ "Aave V3" := Protocol.mk "Aave V3" (Str "Aave V3") 0
                  [ Asset.mk "?" (num 0) (num 0) (num 0) Undefined Undefined ] ]} 0)
  /\ Rev1.normalizeZerion Null "ethereum" = Throw TypeError
  /\ Rev1.normalizeZerion (Array [Null]) "ethereum" = Throw TypeError.
Proof. repeat split; vm_compute; reflexivity. Qed.

(** ** Wallet positions *)

Lemma zerionPosition_wallet (T : gmap string (gmap string string)) (chainId : string)
    (pos attrs : jsval) (s : Snapshot.t) :
  get pos "attributes" = Ok attrs ->
  prop attrs "protocol" = Null \/ prop attrs "protocol" = Undefined ->
  zerionPosition T chainId pos s = Ok s.
Proof.
  intros Ha Hp. unfold zerionPosition. rewrite Ha, bind_Ok.
  destruct (truthy attrs); [|done]. cbn [negb].
  by destruct Hp as [-> | ->].
Qed.

(** C5. A position whose [protocol] attribute is [null] or absent leaves no
    trace: the payload with the position and the payload without it
    normalise to the same outcome, whatever surrounds the position and in
    either payload shape.  On [{data:[{attributes:{protocol:null,value:50}}]}]
    the snapshot is [{protocols:{}, totalValue:0}]. *)
Theorem wallet_positions_excluded (T : gmap string (gmap string string))
    (chainId : string) (raw raw' : jsval) (before after : list jsval)
    (pos attrs : jsval) :
  zerionItems raw = Ok (before ++ pos :: after)%list ->
  zerionItems raw' = Ok (before ++ after)%list ->
  get pos "attributes" = Ok attrs ->
  prop attrs "protocol" = Null \/ prop attrs "protocol" = Undefined ->
  normalizeZerionWith T raw chainId = normalizeZerionWith T raw' chainId
  /\ normalizeZerionWith T wallet_payload chainId = Ok empty_snapshot.
Proof.
  intros Hraw Hraw' Ha Hp. split; [|done].
  unfold normalizeZerionWith. rewrite Hraw, Hraw', !bind_Ok, !forEach_app.
  run as s.
  cbn [forEach]. by rewrite (zerionPosition_wallet _ _ _ _ _ Ha Hp), bind_Ok.
Qed.

(** A wallet position behind a kept one, in the wrapped shape, against the
    bare array without it. *)
Lemma wallet_positions_excluded_witness :
  Rev1.normalizeZerion (Object [ ("data", Array [ kept_position; wallet_position ]) ])
    "ethereum"
  = Rev1.normalizeZerion (Array [ kept_position ]) "ethereum".
Proof.
  refine (proj1 (wallet_positions_excluded Rev1.PROTOCOL_NAME_MAP "ethereum" _ _
            [ kept_position ] [] wallet_position (Object [ ("value", num 50) ])
            _ _ _ _)).
  - reflexivity.
  - reflexivity.
  - reflexivity.
  - right. reflexivity.
Defined.

(** ** Borrowed tokens *)

Lemma debankContribution_items (vesting : bool) (proto : jsval) (c : Contribution)
    (items : list jsval) :
  debankContribution vesting proto = Ok c ->
  prop proto "portfolio_item_list" = Array items ->
  exists ics, mapM (debankItemContribution vesting) items = Ok ics
    /\ c_vals c = ics.*1 /\ c_assets c = concat ics.*2
    /\ or_else (prop proto "name") (Str "Unknown") = Str (c_name c)
    /\ c_id c = prop proto "id".
Proof.
  unfold debankContribution. intros H Hitems.
  assert (Hg : forall k, get proto k = Ok (prop proto k)).
  { destruct proto; try done; discriminate. }
  rewrite !Hg, !bind_Ok in H.
  destruct (or_else _ _) as [| | | |n| |] eqn:Hn; try discriminate.
  simpl as_key in H. rewrite !bind_Ok, Hitems in H.
  returned as ics in H. injection H as <-. by exists ics.
Qed.

Lemma debankTokenAssets_elem (list_key : string) (negate : bool) (ty : string)
    (item : jsval) (assets : list Asset.t) (toks : list jsval) (tok : jsval) :
  debankTokenAssets list_key negate ty item = Ok assets ->
  prop (prop item "detail") list_key = Array toks ->
  tok ∈ toks ->
  exists a, debankAsset tok negate ty = Ok a /\ a ∈ assets.
Proof.
  unfold debankTokenAssets. intros H Htoks Htok.
  destruct (get item "detail") as [detail| |] eqn:Hd; try discriminate.
  apply get_Ok in Hd as ->. rewrite bind_Ok in H.
  rewrite (prop_Array_truthy _ _ _ Htoks), Htoks in H. simpl in H.
  by apply (mapM_elem_of _ _ _ tok) in H.
Qed.

Lemma debankItemContribution_borrow (vesting : bool) (item : jsval)
    (ic : Q * list Asset.t) (toks : list jsval) (tok : jsval) :
  debankItemContribution vesting item = Ok ic ->
  prop (prop item "detail") "borrow_token_list" = Array toks ->
  tok ∈ toks ->
  exists a, debankAsset tok true "borrow" = Ok a /\ a ∈ ic.2.
Proof.
  unfold debankItemContribution. intros H Htoks Htok.
  returned as stats in H.
  returned as nuv in H.
  returned as q in H.
  returned as a1 in H.
  returned as a2 eqn:Hb in H.
  returned as a3 in H.
  returned as a4 in H. injection H as <-. simpl.
  destruct (debankTokenAssets_elem _ _ _ _ _ _ _ Hb Htoks Htok) as (a & Ha & Hin).
  exists a. split; [done|]. set_solver.
Qed.

(** C3 (as the code has it). Every entry of a borrow list that
    [normalizeDeBank] processes ends up as an asset of the record's bucket
    with type ["borrow"], the entry's amount and price, and the value
    amount × price × −1.  The value is at most zero when amount × price is
    at least zero, and below zero when amount × price is above zero. *)
Theorem borrow_value_negated (vesting : bool) (l : list jsval) (s : Snapshot.t)
    (proto : jsval) (items : list jsval) (item : jsval) (toks : list jsval)
    (tok : jsval) :
  normalizeDeBankRev vesting (Array l) = Ok s ->
  proto ∈ l ->
  prop proto "portfolio_item_list" = Array items ->
  item ∈ items ->
  prop (prop item "detail") "borrow_token_list" = Array toks ->
  tok ∈ toks ->
  exists n b a,
    or_else (prop proto "name") (Str "Unknown") = Str n
    /\ Snapshot.protocols s !! n = Some b
    /\ a ∈ Protocol.assets b
    /\ Asset.type a = Str "borrow"
    /\ Asset.amount a = prop tok "amount"
    /\ Asset.price a = prop tok "price"
    /\ forall x p, prop tok "amount" = num x -> prop tok "price" = num p ->
         Asset.value a = num (x * p * -1)
         /\ (0 <= x * p -> x * p * -1 <= 0)
         /\ (0 < x * p -> x * p * -1 < 0).
Proof.
  intros Hs Hproto Hitems Hitem Htoks Htok.
  apply normalizeDeBank_creditAll in Hs as (cs & Hcs & Hcr & ->).
  destruct (mapM_elem_of _ _ _ _ Hcs Hproto) as (c & Hc & Hcin).
  destruct (debankContribution_items _ _ _ _ Hc Hitems)
    as (ics & Hics & _ & Hassets & Hname & _).
  destruct (mapM_elem_of _ _ _ _ Hics Hitem) as (ic & Hic & Hicin).
  destruct (debankItemContribution_borrow _ _ _ _ _ Hic Htoks Htok)
    as (a & Ha & Hain).
  destruct (bucket_of_elem _ _ Hcin) as (b & Hb & _ & Hsub).
  destruct (debankAsset_fields _ _ _ _ Ha) as (Hty & Ham & Hpr & Hval).
  assert (Hac : a ∈ c_assets c).
  { rewrite Hassets. apply (elem_of_concat _ ic.2); [done|].
    by apply (list_elem_of_fmap_2 snd). }
  exists (c_name c), b, a. split; [done|].
  split; [by rewrite creditAll_lookup by by eapply creditable_named|].
  split; [by apply Hsub|].
  repeat split; try done.
  - by apply Hval.
  - lra.
  - lra.
Qed.

(** C3, as stated, fails: the borrow entry of [negative_borrow_payload]
    has amount −5 and price 2, and its asset gets the value 10. *)
Lemma borrow_value_can_be_positive :
  exists s b a, Rev1.normalizeDeBank negative_borrow_payload = Ok s
    /\ Snapshot.protocols s !! "Aave V3" = Some b
    /\ Protocol.assets b = [a]
    /\ Asset.type a = Str "borrow"
    /\ Asset.value a = num 10
    /\ ~ (10 <= 0).
Proof.
  eexists _, _, _. split; [vm_compute; reflexivity|].
  split; [vm_compute; reflexivity|]. split; [reflexivity|].
  split; [reflexivity|]. split; [reflexivity|]. intros H. vm_compute in H. by apply H.
Qed.

(** The borrowed DAI of [borrow_record]: 30 at price 1 is recorded as −30. *)
Lemma borrow_value_negated_witness :
  exists n b a,
    or_else (prop borrow_record "name") (Str "Unknown") = Str n
    /\ Snapshot.protocols borrow_snapshot !! n = Some b
    /\ a ∈ Protocol.assets b
    /\ Asset.type a = Str "borrow"
    /\ Asset.value a = num (30 * 1 * -1).
Proof.
  destruct (borrow_value_negated false [borrow_record] borrow_snapshot borrow_record
              [borrow_item] borrow_item [borrowed_token] borrowed_token)
    as (n & b & a & Hn & Hb & Ha & Hty & _ & _ & Hval).
  - vm_compute; reflexivity.
  - constructor.
  - reflexivity.
  - constructor.
  - reflexivity.
  - constructor.
  - exists n, b, a. repeat split; try done. by apply (Hval 30 1).
Defined.

(** ** Position types *)

Lemma strict_eq_str_spec (v : jsval) (s : string) :
  strict_eq_str v s = true <-> v = Str s.
Proof.
  destruct v; simpl; try (split; [discriminate|discriminate]).
  rewrite String.eqb_eq. split; congruence.
Qed.

Lemma zerionType_coalesced (attrs : jsval) :
  prop attrs "position_type" = Str "locked"
  \/ prop attrs "position_type" = Str "staked" ->
  zerionType attrs = Str "supply".
Proof. unfold zerionType. by intros [-> | ->]. Qed.

Lemma zerionType_unchanged (attrs : jsval) :
  prop attrs "position_type" ≠ Str "locked" ->
  prop attrs "position_type" ≠ Str "staked" ->
  zerionType attrs = prop attrs "position_type".
Proof.
  intros H1 H2. unfold zerionType.
  destruct (strict_eq_str _ "locked") eqn:E1;
    [by apply strict_eq_str_spec in E1|].
  destruct (strict_eq_str _ "staked") eqn:E2;
    [by apply strict_eq_str_spec in E2|].
  done.
Qed.

Lemma zerionContribution_kept (T : gmap string (gmap string string)) (chainId : string)
    (pos : jsval) (oc : option Contribution) :
  zerionContribution T chainId pos = Ok oc ->
  truthy (prop pos "attributes") = true ->
  truthy (prop (prop pos "attributes") "protocol") = true ->
  let attrs := prop pos "attributes" in
  exists protocol symbol q,
    prop attrs "protocol" = Str protocol
    /\ zerionSymbol attrs = Ok symbol
    /\ or_else (prop attrs "value") (num 0) = num q
    /\ oc = Some {| c_name := resolveProtocolName T chainId protocol;
                    c_id := Str (resolveProtocolName T chainId protocol);
                    c_vals := [q];
                    c_assets := [zerionAsset attrs symbol (num q) (zerionType attrs)] |}.
Proof.
  unfold zerionContribution. intros H Ha Hp.
  destruct (get pos "attributes") as [attrs| |] eqn:Hg; try discriminate.
  apply get_Ok in Hg as ->. rewrite bind_Ok, Ha, Hp in H. cbn [negb] in H.
  destruct (prop (prop pos "attributes") "protocol") as [| | | |p| |];
    try discriminate.
  simpl as_key in H. rewrite bind_Ok in H.
  returned as r eqn:Hr in H.
  returned as n eqn:Hn in H.
  destruct r as [n'|]; [injection Hn as ->|discriminate Hn].
  apply resolveAlias_Name in Hr as ->. cbv zeta in H.
  destruct (or_else _ _) as [| | |[|q]| | |] eqn:Hv; try discriminate.
  simpl amount_of in H. rewrite bind_Ok in H.
  returned as symbol in H. injection H as <-.
  by exists p, symbol, q.
Qed.

(** C9. Every position [normalizeZerion] keeps ends up as an asset of the
    bucket its protocol resolves to, built from the position's own fields.
    The asset's [type] (the spec's role) is ["supply"] when the position's
    [position_type] is ["locked"] or ["staked"]; for every other
    [position_type] it is the position's tag, unchanged. *)
Theorem position_type_coalesced (T : gmap string (gmap string string))
    (raw : jsval) (chainId : string) (s : Snapshot.t) (items : list jsval)
    (pos : jsval) :
  normalizeZerionWith T raw chainId = Ok s ->
  zerionItems raw = Ok items ->
  pos ∈ items ->
  truthy (prop pos "attributes") = true ->
  truthy (prop (prop pos "attributes") "protocol") = true ->
  let attrs := prop pos "attributes" in
  exists protocol symbol b a,
    prop attrs "protocol" = Str protocol
    /\ zerionSymbol attrs = Ok symbol
    /\ Snapshot.protocols s !! resolveProtocolName T chainId protocol = Some b
    /\ a ∈ Protocol.assets b
    /\ a = zerionAsset attrs symbol (or_else (prop attrs "value") (num 0)) (Asset.type a)
    /\ (prop attrs "position_type" = Str "locked"
        \/ prop attrs "position_type" = Str "staked" ->
        Asset.type a = Str "supply")
    /\ (prop attrs "position_type" ≠ Str "locked" ->
        prop attrs "position_type" ≠ Str "staked" ->
        Asset.type a = prop attrs "position_type").
Proof.
  intros Hs Hitems Hpos Ha Hp. cbv zeta.
  apply normalizeZerion_creditAll in Hs as (cs & Hcs & Hcr & ->).
  unfold zerionContributions, kept in Hcs. rewrite Hitems, bind_Ok in Hcs.
  returned as ocs eqn:Hocs in Hcs. injection Hcs as <-.
  destruct (mapM_elem_of _ _ _ _ Hocs Hpos) as (oc & Hoc & Hin).
  destruct (zerionContribution_kept _ _ _ _ Hoc Ha Hp)
    as (protocol & symbol & q & Hprot & Hsym & Hval & ->).
  set (c := Build_Contribution _ _ _ _) in Hin.
  assert (Hc : c ∈ omap id ocs) by (apply list_elem_of_omap; by exists (Some c)).
  destruct (bucket_of_elem _ _ Hc) as (b & Hb & _ & Hsub).
  set (a := zerionAsset (prop pos "attributes") symbol (num q)
              (zerionType (prop pos "attributes"))).
  assert (Hac : a ∈ c_assets c) by (simpl; set_solver).
  pose proof (creditable_named _ _ _ Hcr Hc Hac) as Hn.
  exists protocol, symbol, b, a.
  split; [done|]. split; [done|].
  split; [by rewrite creditAll_lookup by exact Hn|].
  split; [by apply Hsub|].
  split; [by rewrite Hval|].
  split; [apply zerionType_coalesced | apply zerionType_unchanged].
Qed.

(** The staked position of [morpho_payload] is recorded as a supply. *)
Lemma position_type_coalesced_witness :
  exists b a,
    Snapshot.protocols morpho_snapshot !! "Morpho" = Some b
    /\ a ∈ Protocol.assets b
    /\ Asset.symbol a = "USDC"
    /\ Asset.type a = Str "supply".
Proof.
  destruct (position_type_coalesced Rev1.PROTOCOL_NAME_MAP morpho_payload "ethereum"
              morpho_snapshot [staked_position; deposit_position] staked_position)
    as (protocol & symbol & b & a & Hp & Hsym & Hb & Ha & Hfields & Hsupply & _).
  - vm_compute; reflexivity.
  - reflexivity.
  - constructor.
  - reflexivity.
  - reflexivity.
  - injection Hp as <-. injection Hsym as <-.
    exists b, a. split; [exact Hb|]. split; [exact Ha|].
    split; [by rewrite Hfields|]. apply Hsupply. by right.
Defined.

(** ** Records without a name *)

Lemma debankProtocol_rename (vesting : bool) (fields : list (string * jsval))
    (s : Snapshot.t) :
  truthy (prop (Object fields) "name") = false ->
  debankProtocol vesting (Object fields) s
  = debankProtocol vesting (Object (("name", Str "Unknown") :: fields)) s.
Proof.
  intros Hname. unfold debankProtocol, get, or_else.
  rewrite !bind_Ok, Hname. reflexivity.
Qed.

(** C10 (as the code has it). A protocol record whose [name] is absent or
    falsy is treated exactly as the same record named ["Unknown"].  Every
    snapshot of a payload that holds it has the bucket ["Unknown"], named
    ["Unknown"]; the bucket's id is the record's [id] when no earlier record
    is filed under ["Unknown"]; the bucket's value is the sum of the item
    values of the records filed there, the record's own among them, and the
    total is the sum of the item values of all records, the record's own
    among them. *)
Theorem unnamed_record_is_unknown (vesting : bool) (before after : list jsval)
    (fields : list (string * jsval)) (s : Snapshot.t) :
  let proto := Object fields in
  truthy (prop proto "name") = false ->
  normalizeDeBankRev vesting (Array (before ++ proto :: after)%list) = Ok s ->
  normalizeDeBankRev vesting
    (Array (before ++ Object (("name", Str "Unknown") :: fields) :: after)%list) = Ok s
  /\ exists b, Snapshot.protocols s !! "Unknown" = Some b
       /\ Protocol.name b = "Unknown"
       /\ (recordsNamed "Unknown" before = [] -> Protocol.id b = prop proto "id")
       /\ (exists vals,
             net_values (concat (map recordItems (recordsNamed "Unknown" before))
                         ++ recordItems proto
                         ++ concat (map recordItems (recordsNamed "Unknown" after)))%list vals
             /\ Protocol.value b = sum_in_order vals)
       /\ (exists vals,
             net_values (concat (map recordItems before) ++ recordItems proto
                         ++ concat (map recordItems after))%list vals
             /\ Snapshot.totalValue s = sum_in_order vals).
Proof.
  intros proto Hname Hs. split.
  { rewrite <- Hs. unfold normalizeDeBankRev. rewrite !forEach_app.
    apply bind_ext. intros s' _. cbn [forEach].
    by rewrite (debankProtocol_rename _ _ _ Hname). }
  apply normalizeDeBank_creditAll in Hs as (cs & Hcs & _ & ->).
  assert (Hreads : Forall2 reads (before ++ proto :: after) cs).
  { apply mapM_Forall2 in Hcs. eapply Forall2_impl; [exact Hcs|].
    intros p c. apply debankContribution_reads. }
  apply Forall2_app_inv_l in Hreads as (cb & cs' & Hb & Hreads & ->).
  apply Forall2_cons_inv_l in Hreads as (c & ca & Hc & Ha & ->).
  assert (Hn : c_name c = "Unknown").
  { destruct Hc as (Hn & _). unfold recordName, or_else in Hn.
    fold proto in Hn. rewrite Hname in Hn. by injection Hn. }
  pose proof (reads_named "Unknown" _ _ Hb) as Hvb.
  pose proof (reads_named "Unknown" _ _ Ha) as Hva.
  pose proof (reads_filter "Unknown" _ _ Hb) as Hfb.
  destruct Hc as (_ & Hid & Hv).
  assert (Hsel : filter (fun c' => c_name c' = "Unknown") (cb ++ c :: ca)
                 = (filter (fun c' => c_name c' = "Unknown") cb
                    ++ c :: filter (fun c' => c_name c' = "Unknown") ca)%list).
  { rewrite filter_app, filter_cons. by rewrite decide_True. }
  assert (Hbucket : exists c0 rest,
            (filter (fun c' => c_name c' = "Unknown") cb
             ++ c :: filter (fun c' => c_name c' = "Unknown") ca) = c0 :: rest
            /\ (filter (fun c' => c_name c' = "Unknown") cb = [] -> c0 = c)).
  { destruct (filter _ cb) as [|c1 rest]; [by eexists _, _|].
    eexists _, _. split; [reflexivity|]. discriminate. }
  destruct Hbucket as (c0 & rest & Hcons & Hfirst).
  exists (Protocol.mk "Unknown" (c_id c0)
            (sum_in_order (concat (map c_vals (c0 :: rest))))
            (concat (map c_assets (c0 :: rest)))).
  split; [by rewrite creditAll_lookup by done; unfold bucket_of; rewrite Hsel, Hcons|].
  split; [done|]. split; [|split].
  - intros Hnone. rewrite Hnone in Hfb. apply Forall2_nil_inv_l in Hfb.
    simpl. by rewrite (Hfirst Hfb).
  - exists (concat (map c_vals (c0 :: rest))). split; [|done].
    rewrite <- Hcons, map_app, concat_app. simpl.
    apply Forall2_app; [exact Hvb|]. apply Forall2_app; [exact Hv | exact Hva].
  - exists (concat (map c_vals cb) ++ c_vals c ++ concat (map c_vals ca)).
    split.
    + apply Forall2_app; [by apply reads_net_values|].
      apply Forall2_app; [exact Hv | by apply reads_net_values].
    + unfold creditAll. rewrite credit_fold_total_in_order.
      by rewrite map_app, concat_app.
Qed.

(** C10, as stated, fails for the id: of two records without a name the
    second one's id is not the id of the bucket. *)
Lemma second_unnamed_id_dropped :
  exists s, Rev1.normalizeDeBank (Array [first_unnamed; second_unnamed]) = Ok s
    /\ ~ unnamed_ids_copied [first_unnamed; second_unnamed] s.
Proof.
  eexists. split; [vm_compute; reflexivity|]. intros H.
  destruct (H second_unnamed) as (b & Hb & Hid); [set_solver | reflexivity |].
  vm_compute in Hb. injection Hb as <-. discriminate Hid.
Qed.

(** [unnamed_record] alone. *)
Lemma unnamed_record_is_unknown_witness :
  Rev1.normalizeDeBank (Array [unnamed_record]) = Ok unnamed_snapshot
  /\ exists b, Snapshot.protocols unnamed_snapshot !! "Unknown" = Some b
       /\ Protocol.name b = "Unknown"
       /\ Protocol.id b = Str "x".
Proof.
  assert (H : Rev1.normalizeDeBank (Array [unnamed_record]) = Ok unnamed_snapshot)
    by (vm_compute; reflexivity).
  split; [exact H|].
  destruct (unnamed_record_is_unknown false [] []
              [ ("name", Null); ("id", Str "x");
                ("portfolio_item_list", Array [ Object [
                   ("stats", Object [ ("net_usd_value", num 7) ]) ] ]) ]
              unnamed_snapshot eq_refl H)
    as (_ & b & Hb & Hname & Hid & _).
  exists b. split; [exact Hb|]. split; [exact Hname|]. by apply Hid.
Defined.

(** ** Alias resolution *)

#[global] Instance alias_targets_named_dec (T : gmap string (gmap string string)) :
  Decision (alias_targets_named T).
Proof. unfold alias_targets_named. apply _. Defined.

Lemma resolve_configured (T : gmap string (gmap string string)) (chainId protoName : string) :
  chainId ≠ EmptyString -> alias_targets_named T ->
  resolveProtocolName T chainId protoName
  = default protoName (configured T chainId protoName).
Proof.
  intros Hchain HT. unfold resolveProtocolName, configured.
  replace (truthy (Str chainId)) with true
    by (simpl; by destruct (String.eqb_spec chainId EmptyString)).
  destruct (T !! chainId) as [aliases|] eqn:Ha; [|done]. simpl.
  destruct (aliases !! protoName) as [target|] eqn:Ht; [|done]. simpl.
  assert (target ≠ EmptyString) as Hne by (by eapply (HT _ _ Ha)).
  by destruct (String.eqb_spec target EmptyString).
Qed.

Lemma Rev1_aliases_named : alias_targets_named Rev1.PROTOCOL_NAME_MAP.
Proof. apply (bool_decide_unpack _). vm_compute. exact I. Qed.

Lemma Rev2_aliases_named : alias_targets_named Rev2.PROTOCOL_NAME_MAP.
Proof. apply (bool_decide_unpack _). vm_compute. exact I. Qed.

Lemma resolve_configured_shipped (T : gmap string (gmap string string))
    (chainId protoName : string) :
  T = Rev1.PROTOCOL_NAME_MAP \/ T = Rev2.PROTOCOL_NAME_MAP ->
  resolveProtocolName T chainId protoName
  = default protoName (configured T chainId protoName).
Proof.
  intros HT. destruct (decide (chainId = EmptyString)) as [->|Hchain].
  - unfold resolveProtocolName, configured. simpl.
    by destruct HT as [-> | ->].
  - apply resolve_configured; [done|].
    destruct HT as [-> | ->]; [apply Rev1_aliases_named | apply Rev2_aliases_named].
Qed.

(** C8. The alias block reads [PROTOCOL_NAME_MAP[chainId][protoName]] as a
    plain property, and a plain property read also answers with the members
    inherited from [Object.prototype].  With the table of either revision
    no alias is configured for ["constructor"] on Ethereum, and yet the
    block replaces the name, by the inherited member, where the name should
    be left unchanged.  On Polygon, a chain without a table, the same name
    is left unchanged; and the two directions of Velodrome, both configured
    on Optimism in the second revision, are each applied there and not on
    Ethereum. *)
Theorem alias_lookup_reads_inherited_members :
  configured Rev1.PROTOCOL_NAME_MAP "ethereum" "constructor" = None
  /\ resolveAlias Rev1.PROTOCOL_NAME_MAP "ethereum" "constructor"
     = Ok (Member "constructor")
  /\ configured Rev2.PROTOCOL_NAME_MAP "ethereum" "constructor" = None
  /\ resolveAlias Rev2.PROTOCOL_NAME_MAP "ethereum" "constructor"
     = Ok (Member "constructor")
  /\ resolveAlias Rev1.PROTOCOL_NAME_MAP "polygon" "constructor"
     = Ok (Name "constructor")
  /\ resolveAlias Rev2.PROTOCOL_NAME_MAP "optimism" "Velodrome"
     = Ok (Name "Velodrome V2")
  /\ resolveAlias Rev2.PROTOCOL_NAME_MAP "optimism" "Velodrome V2"
     = Ok (Name "Velodrome")
  /\ resolveAlias Rev2.PROTOCOL_NAME_MAP "ethereum" "Velodrome"
     = Ok (Name "Velodrome")
  /\ resolveAlias Rev2.PROTOCOL_NAME_MAP "ethereum" "Velodrome V2"
     = Ok (Name "Velodrome V2").
Proof. repeat split; vm_compute; reflexivity. Qed.

(** ** The assembler *)

Lemma CHAIN_MAP_NoDup : NoDup CHAIN_MAP.*2.
Proof. apply (bool_decide_unpack _). vm_compute. exact I. Qed.

Section Assembler.

Variable record : string -> string * string -> outcome (option ComparisonRecord).
Variable mainChain : string -> string * string
  -> gmap string (gmap string ComparisonRecord)
  -> outcome (gmap string (gmap string ComparisonRecord)).
Variable mainAddress : string
  -> gmap string (gmap string ComparisonRecord)
  -> outcome (gmap string (gmap string ComparisonRecord)).

Hypothesis mainChain_record : forall address entry result,
  mainChain address entry result =
  (orec ← record address entry;
   match orec with
   | Some r => set_record address entry.2 r result
   | None => Ok result
   end).

Hypothesis mainAddress_loop : forall address result,
  mainAddress address result
  = forEach CHAIN_MAP (mainChain address) (<[address := ∅]> result).

Lemma chains_loop (address : string) (entries : list (string * string)) :
  forall result chains,
  result !! address = Some chains ->
  Forall (fun e => is_ok (record address e) = true) entries ->
  exists chains',
    forEach entries (mainChain address) result = Ok (<[address := chains']> result)
    /\ (forall z, z ∉ entries.*2 -> chains' !! z = chains !! z)
    /\ (NoDup entries.*2 -> stores record address entries chains').
Proof.
  induction entries as [|e entries IH]; intros result chains Hres Hok.
  - exists chains. cbn [forEach]. rewrite insert_id by done.
    split; [done|]. split; [done|]. intros _ e r He. by apply not_elem_of_nil in He.
  - apply Forall_cons in Hok as [He Hok]. cbn [forEach].
    rewrite mainChain_record.
    destruct (record address e) as [orec| |] eqn:Hrec; try discriminate.
    rewrite bind_Ok.
    destruct orec as [r|].
    + unfold set_record. rewrite Hres, bind_Ok.
      destruct (IH (<[address := <[e.2 := r]> chains]> result) (<[e.2 := r]> chains))
        as (chains' & Hrun & Hkeep & Hstores); [apply lookup_insert_eq | done |].
      exists chains'. rewrite Hrun, insert_insert_eq. split; [done|]. split.
      * intros z Hz. rewrite fmap_cons, not_elem_of_cons in Hz.
        destruct Hz as [Hne Hz]. rewrite Hkeep by done. by rewrite lookup_insert_ne.
      * intros Hnd e' r' He' Hr'. rewrite fmap_cons in Hnd.
        apply NoDup_cons in Hnd as [Hfresh Hnd].
        apply elem_of_cons in He' as [-> | He'].
        -- rewrite Hkeep by done. rewrite lookup_insert_eq. congruence.
        -- by apply Hstores.
    + rewrite bind_Ok.
      destruct (IH result chains Hres Hok) as (chains' & Hrun & Hkeep & Hstores).
      exists chains'. split; [done|]. split.
      * intros z Hz. rewrite fmap_cons, not_elem_of_cons in Hz.
        destruct Hz as [_ Hz]. by apply Hkeep.
      * intros Hnd e' r' He' Hr'. rewrite fmap_cons in Hnd.
        apply NoDup_cons in Hnd as [Hfresh Hnd].
        apply elem_of_cons in He' as [-> | He']; [congruence|].
        by apply Hstores.
Qed.

Lemma mainAddress_stores (address : string)
    (result : gmap string (gmap string ComparisonRecord)) :
  Forall (fun e => is_ok (record address e) = true) CHAIN_MAP ->
  exists chains,
    mainAddress address result = Ok (<[address := chains]> result)
    /\ stores record address CHAIN_MAP chains.
Proof.
  intros Hok. rewrite mainAddress_loop.
  destruct (chains_loop address CHAIN_MAP (<[address := ∅]> result) ∅)
    as (chains & Hrun & _ & Hstores); [apply lookup_insert_eq | done |].
  exists chains. rewrite Hrun, insert_insert_eq.
  split; [done|]. apply Hstores, CHAIN_MAP_NoDup.
Qed.

Lemma addresses_loop (addresses : list string) :
  forall result,
  clean_run record addresses ->
  exists result',
    forEach addresses mainAddress result = Ok result'
    /\ (forall a, a ∉ addresses -> result' !! a = result !! a)
    /\ (forall a, a ∈ addresses ->
          exists chains, result' !! a = Some chains
            /\ stores record a CHAIN_MAP chains).
Proof.
  unfold clean_run.
  induction addresses as [|a0 addresses IH]; intros result Hok.
  - exists result. split; [done|]. split; [done|].
    intros a Ha. by apply not_elem_of_nil in Ha.
  - apply Forall_cons in Hok as [Ha0 Hok]. cbn [forEach].
    destruct (mainAddress_stores a0 result Ha0) as (chains & Hrun & Hstores).
    rewrite Hrun, bind_Ok.
    destruct (IH (<[a0 := chains]> result) Hok) as (result' & Hrun' & Hkeep & Hin).
    exists result'. split; [done|]. split.
    + intros a Ha. apply not_elem_of_cons in Ha as [Hne Ha].
      rewrite Hkeep by done. by rewrite lookup_insert_ne.
    + intros a Ha. destruct (decide (a ∈ addresses)) as [Hrest|Hrest].
      * by apply Hin.
      * apply elem_of_cons in Ha as [-> | Ha]; [|done].
        exists chains. rewrite Hkeep by done. by rewrite lookup_insert_eq.
Qed.

End Assembler.

Lemma Rev1_mainChain_record (fs : FileSystem) (address : string)
    (entry : string * string) (result : gmap string (gmap string ComparisonRecord)) :
  Rev1.mainChain fs address entry result =
  (orec ← recordRev1 fs address entry;
   match orec with
   | Some r => set_record address entry.2 r result
   | None => Ok result
   end).
Proof.
  unfold Rev1.mainChain, recordRev1, chainRecord, or_empty_array.
  destruct (negb _ && negb _); [done|].
  destruct (Rev1.normalizeDeBank _); [rewrite !bind_Ok|done..].
  by destruct (Rev1.normalizeZerion _ _).
Qed.

Lemma Rev2_mainChain_record (fs : FileSystem) (address : string)
    (entry : string * string) (result : gmap string (gmap string ComparisonRecord)) :
  Rev2.mainChain fs address entry result =
  (orec ← recordRev2 fs address entry;
   match orec with
   | Some r => set_record address entry.2 r result
   | None => Ok result
   end).
Proof.
  unfold Rev2.mainChain, recordRev2, chainRecord, or_empty_array.
  destruct (negb _ && negb _); [done|].
  destruct (Rev2.normalizeDeBank _); [rewrite !bind_Ok|done..].
  by destruct (Rev2.normalizeZerion _ _).
Qed.


Lemma existsSync_false (f : file) : existsSync f = false -> readJson f = Null.
Proof. by destruct f. Qed.

Lemma Rev2_main_allowed (fs : FileSystem) (dirs : list string) :
  debank_dirs fs = Some dirs ->
  Rev2.main fs = forEach (allowed dirs) (Rev2.mainAddress fs) ∅.
Proof. intros Hdirs. unfold Rev2.main, getDirectories. by rewrite Hdirs. Qed.




(** * Further properties of the code *)

Lemma elem_of_concat_inv {A} (x : A) (ls : list (list A)) :
  x ∈ concat ls -> exists l, l ∈ ls /\ x ∈ l.
Proof.
  induction ls as [|l ls IH]; simpl; [by intros ?%not_elem_of_nil|].
  intros [H|H]%elem_of_app.
  - exists l. split; [left|done].
  - destruct (IH H) as (l' & Hl' & Hx). exists l'. split; [by right|done].
Qed.

Lemma bucket_of_Some (n : string) (cs : list Contribution) (b : Protocol.t) :
  bucket_of n cs = Some b ->
  exists c0 rest,
    filter (fun c => c_name c = n) cs = c0 :: rest
    /\ b = Protocol.mk n (c_id c0) (sum_in_order (concat (map c_vals (c0 :: rest))))
             (concat (map c_assets (c0 :: rest))).
Proof.
  unfold bucket_of. destruct (filter _ cs) as [|c0 rest]; [done|].
  intros [= <-]. by exists c0, rest.
Qed.

Lemma bucket_of_asset (n : string) (cs : list Contribution) (b : Protocol.t)
    (a : Asset.t) :
  bucket_of n cs = Some b -> a ∈ Protocol.assets b ->
  exists c, c ∈ cs /\ c_name c = n /\ a ∈ c_assets c.
Proof.
  intros (c0 & rest & Hsel & ->)%bucket_of_Some Ha.
  cbn [Protocol.assets] in Ha.
  apply elem_of_concat_inv in Ha as (l & Hl & Ha).
  apply list_elem_of_fmap in Hl as (c & -> & Hc).
  rewrite <- Hsel in Hc. apply list_elem_of_filter in Hc as [Hn Hc].
  by exists c.
Qed.

Lemma mapM_elem_of_inv {A B} (f : A -> outcome B) (l : list A) (ys : list B) (y : B) :
  mapM f l = Ok ys -> y ∈ ys -> exists x, x ∈ l /\ f x = Ok y.
Proof.
  intros H%mapM_Forall2 Hy.
  destruct (proj1 (list_elem_of_lookup ys y) Hy) as [i Hi].
  destruct (Forall2_lookup_r _ _ _ _ _ H Hi) as (x & Hx & Hf).
  exists x. split; [by eapply list_elem_of_lookup_2|done].
Qed.

(** ** Trimming *)

Lemma trimStart_clean (s : string) : starts_with_space (trimStart s) = false.
Proof.
  induction s as [|c s IH]; simpl; [done|].
  destruct (is_space c) eqn:Hc; [done|]. simpl. by rewrite Hc.
Qed.

Lemma trimEnd_head (s : string) :
  starts_with_space s = false -> starts_with_space (trimEnd s) = false.
Proof.
  destruct s as [|c s]; [done|]. simpl. intros Hc. by rewrite Hc.
Qed.

Lemma trimEnd_clean (s : string) : ends_with_space (trimEnd s) = false.
Proof.
  induction s as [|c s IH]; simpl; [done|].
  destruct (trimEnd s) as [|c' s'] eqn:Hs.
  - simpl. rewrite andb_true_r. by destruct (is_space c) eqn:Hc; simpl.
  - simpl. rewrite andb_false_r. done.
Qed.

Lemma trim_clean (s : string) :
  starts_with_space (trim s) = false /\ ends_with_space (trim s) = false.
Proof.
  unfold trim. split; [apply trimEnd_head, trimStart_clean | apply trimEnd_clean].
Qed.

(** ** Where the assets of a contribution come from *)

Lemma debankAsset_symbol (token : jsval) (negate : bool) (ty : string) (a : Asset.t) :
  debankAsset token negate ty = Ok a ->
  exists raw, prop token "symbol" = Str raw /\ Asset.symbol a = trim raw.
Proof.
  unfold debankAsset. intros H.
  returned as sym eqn:Hsym in H. apply get_Ok in Hsym as ->.
  destruct (prop token "symbol") as [| | | |raw| |]; try discriminate.
  simpl js_trim in H. rewrite bind_Ok in H.
  returned as amount in H. returned as price in H. returned as product in H.
  returned as value in H. injection H as <-. by exists raw.
Qed.

Lemma debankAsset_value (token : jsval) (negate : bool) (ty : string) (a : Asset.t) :
  debankAsset token negate ty = Ok a ->
  Asset.type a = Str ty /\ Asset.flags a = Undefined
  /\ exists product, js_mul (Asset.amount a) (Asset.price a) = Ok product
       /\ (if negate then js_mul product (num (-1)) else Ok product) = Ok (Asset.value a).
Proof.
  unfold debankAsset. intros H.
  returned as sym in H. returned as symbol in H.
  returned as amount in H. returned as price in H.
  returned as product eqn:Hp in H.
  returned as value eqn:Hv in H. injection H as <-. simpl.
  split; [done|]. split; [done|]. by exists product.
Qed.

Lemma debankTokenAssets_from (list_key : string) (negate : bool) (ty : string)
    (item : jsval) (assets : list Asset.t) (a : Asset.t) :
  debankTokenAssets list_key negate ty item = Ok assets -> a ∈ assets ->
  exists token, debankAsset token negate ty = Ok a.
Proof.
  unfold debankTokenAssets. intros H Ha.
  returned as detail in H.
  destruct (truthy detail && truthy (prop detail list_key)).
  - destruct (prop detail list_key); try discriminate.
    destruct (mapM_elem_of_inv _ _ _ _ H Ha) as (token & _ & Htok). by exists token.
  - injection H as <-. by apply not_elem_of_nil in Ha.
Qed.

Lemma debankVestingAssets_from (item : jsval) (assets : list Asset.t) (a : Asset.t) :
  debankVestingAssets item = Ok assets -> a ∈ assets ->
  exists token, debankAsset token false "vesting" = Ok a.
Proof.
  unfold debankVestingAssets. intros H Ha.
  returned as detail in H.
  destruct (truthy detail && truthy (prop detail "token")).
  - returned as a' eqn:Ha' in H. injection H as <-.
    apply list_elem_of_singleton in Ha as ->. by eexists.
  - injection H as <-. by apply not_elem_of_nil in Ha.
Qed.

(** The list an asset of an item was read from: its [negate] flag and tag. *)
Lemma debankItemContribution_from (vesting : bool) (item : jsval)
    (ic : Q * list Asset.t) (a : Asset.t) :
  debankItemContribution vesting item = Ok ic -> a ∈ ic.2 ->
  exists token negate ty,
    debankAsset token negate ty = Ok a
    /\ ty ∈ debankTypes vesting
    /\ negate = String.eqb ty "borrow".
Proof.
  unfold debankItemContribution. intros H Ha.
  returned as stats in H. returned as nuv in H. returned as q in H.
  returned as supply eqn:Hs in H. returned as borrow eqn:Hb in H.
  returned as reward eqn:Hr in H. returned as vest eqn:Hv in H.
  injection H as <-. cbn [snd] in Ha.
  rewrite !elem_of_app in Ha. destruct Ha as [Ha|[Ha|[Ha|Ha]]].
  - destruct (debankTokenAssets_from _ _ _ _ _ _ Hs Ha) as [token Htok].
    exists token, false, "supply". split; [done|]. split; [|done].
    unfold debankTypes. set_solver.
  - destruct (debankTokenAssets_from _ _ _ _ _ _ Hb Ha) as [token Htok].
    exists token, true, "borrow". split; [done|]. split; [|done].
    unfold debankTypes. set_solver.
  - destruct (debankTokenAssets_from _ _ _ _ _ _ Hr Ha) as [token Htok].
    exists token, false, "reward". split; [done|]. split; [|done].
    unfold debankTypes. set_solver.
  - destruct vesting.
    + destruct (debankVestingAssets_from _ _ _ Hv Ha) as [token Htok].
      exists token, false, "vesting". split; [done|]. split; [|done].
      unfold debankTypes. set_solver.
    + injection Hv as <-. by apply not_elem_of_nil in Ha.
Qed.

Lemma debankContribution_from (vesting : bool) (proto : jsval) (c : Contribution)
    (a : Asset.t) :
  debankContribution vesting proto = Ok c -> a ∈ c_assets c ->
  exists token negate ty,
    debankAsset token negate ty = Ok a
    /\ ty ∈ debankTypes vesting
    /\ negate = String.eqb ty "borrow".
Proof.
  unfold debankContribution. intros H Ha.
  returned as pn in H. returned as n in H. returned as pid in H.
  returned as pil in H.
  destruct pil as [| | | | |items|]; try discriminate.
  returned as ics eqn:Hics in H. injection H as <-. cbn [c_assets] in Ha.
  apply elem_of_concat_inv in Ha as (l & Hl & Ha).
  apply list_elem_of_fmap in Hl as (ic & -> & Hic).
  destruct (mapM_elem_of_inv _ _ _ _ Hics Hic) as (item & _ & Hitem).
  by eapply debankItemContribution_from.
Qed.

Lemma empty_snapshot_lookup (n : string) :
  Snapshot.protocols empty_snapshot !! n = None.
Proof. apply lookup_empty. Qed.

(** The assets of a bucket of a DeBank snapshot, traced to their tokens. *)
Lemma normalizeDeBank_asset_from (vesting : bool) (chainData : jsval) (s : Snapshot.t)
    (n : string) (b : Protocol.t) (a : Asset.t) :
  normalizeDeBankRev vesting chainData = Ok s ->
  Snapshot.protocols s !! n = Some b -> a ∈ Protocol.assets b ->
  exists token negate ty,
    debankAsset token negate ty = Ok a
    /\ ty ∈ debankTypes vesting
    /\ negate = String.eqb ty "borrow".
Proof.
  intros H Hb Ha.
  destruct chainData as [| | | | |l|];
    try (injection H as <-; by rewrite empty_snapshot_lookup in Hb).
  apply normalizeDeBank_creditAll in H as (cs & Hcs & _ & ->).
  apply creditAll_lookup_Some in Hb as [_ Hb].
  destruct (bucket_of_asset _ _ _ _ Hb Ha) as (c & Hc & _ & Hac).
  destruct (mapM_elem_of_inv _ _ _ _ Hcs Hc) as (proto & _ & Hproto).
  by eapply debankContribution_from.
Qed.

Lemma zerionContribution_Some (T : gmap string (gmap string string)) (chainId : string)
    (pos : jsval) (c : Contribution) :
  zerionContribution T chainId pos = Ok (Some c) ->
  let attrs := prop pos "attributes" in
  exists protocol symbol q,
    prop attrs "protocol" = Str protocol
    /\ zerionSymbol attrs = Ok symbol
    /\ or_else (prop attrs "value") (num 0) = num q
    /\ c = {| c_name := resolveProtocolName T chainId protocol;
              c_id := Str (resolveProtocolName T chainId protocol);
              c_vals := [q];
              c_assets := [zerionAsset attrs symbol (num q) (zerionType attrs)] |}.
Proof.
  intros H.
  assert (Ht : truthy (prop pos "attributes") = true
               /\ truthy (prop (prop pos "attributes") "protocol") = true).
  { unfold zerionContribution in H.
    returned as attrs eqn:Hg in H. apply get_Ok in Hg as ->.
    destruct (truthy (prop pos "attributes")); [|discriminate].
    by destruct (truthy (prop (prop pos "attributes") "protocol")). }
  destruct Ht as [Ha Hp].
  destruct (zerionContribution_kept _ _ _ _ H Ha Hp)
    as (protocol & symbol & q & H1 & H2 & H3 & [= ->]).
  by exists protocol, symbol, q.
Qed.

Lemma normalizeZerion_contributions (T : gmap string (gmap string string))
    (raw : jsval) (chainId : string) (s : Snapshot.t) :
  normalizeZerionWith T raw chainId = Ok s ->
  exists cs, s = creditAll cs
    /\ Forall (fun c => exists pos, zerionContribution T chainId pos = Ok (Some c)) cs.
Proof.
  intros (cs & H & _ & ->)%normalizeZerion_creditAll.
  unfold zerionContributions, kept in H.
  returned as items in H. returned as ocs eqn:Hocs in H. injection H as <-.
  eexists. split; [done|]. apply Forall_forall. intros c Hc.
  apply list_elem_of_omap in Hc as (oc & Hoc & Hid). simpl in Hid. subst oc.
  destruct (mapM_elem_of_inv _ _ _ _ Hocs Hoc) as (pos & _ & Hpos). by exists pos.
Qed.

Lemma zerion_sums (cs : list Contribution) :
  Forall (fun c => exists q a, c_vals c = [q] /\ c_assets c = [a]
                     /\ Asset.value a = num q) cs ->
  Forall2 (fun a q => Asset.value a = num q)
    (concat (map c_assets cs)) (concat (map c_vals cs)).
Proof.
  induction 1 as [|c cs (q & a & Hv & Ha & Hq) _ IH]; simpl; [constructor|].
  rewrite Hv, Ha. simpl. by constructor.
Qed.

(** X1. In every snapshot [normalizeZerion] returns, no bucket is without
    assets, the value of every asset is a number, and the value of a bucket
    is the sum of the values of its assets, added one after the other in
    the order of the asset list: every kept position adds its [value || 0]
    to the bucket and pushes one asset that carries the same number. *)
Theorem zerion_value_is_asset_sum (T : gmap string (gmap string string))
    (raw : jsval) (chainId n : string) (s : Snapshot.t) (b : Protocol.t) :
  normalizeZerionWith T raw chainId = Ok s ->
  Snapshot.protocols s !! n = Some b ->
  Protocol.assets b ≠ []
  /\ exists vals,
       Forall2 (fun a q => Asset.value a = num q) (Protocol.assets b) vals
       /\ Protocol.value b = sum_in_order vals.
Proof.
  intros H Hb.
  destruct (normalizeZerion_contributions _ _ _ _ H) as (cs & -> & Hcs).
  apply creditAll_lookup_Some in Hb as [_ Hb].
  apply bucket_of_Some in Hb as (c0 & rest & Hsel & ->).
  assert (Hshape : Forall (fun c => exists q a, c_vals c = [q] /\ c_assets c = [a]
                                      /\ Asset.value a = num q) (c0 :: rest)).
  { rewrite <- Hsel. apply Forall_forall. intros c [_ Hc]%list_elem_of_filter.
    rewrite Forall_forall in Hcs. destruct (Hcs c Hc) as [pos Hpos].
    apply zerionContribution_Some in Hpos as (p & sym & q & _ & _ & _ & ->).
    by eexists _, _. }
  split.
  - cbn [Protocol.assets]. apply Forall_cons in Hshape as [(q & a & _ & Ha & _) _].
    simpl. by rewrite Ha.
  - exists (concat (map c_vals (c0 :: rest))). split; [|done].
    by apply zerion_sums.
Qed.

Lemma zerion_value_is_asset_sum_witness :
  Protocol.assets (Protocol.mk "Morpho" (Str "Morpho") 15
     [ Asset.mk "USDC" (num 0) (num 0) (num 10) (Str "supply") Undefined;
       Asset.mk "WETH" (num 0) (num 0) (num 5) (Str "deposit") Undefined ]) ≠ []
  /\ exists vals,
       Forall2 (fun a q => Asset.value a = num q)
         (Protocol.assets (Protocol.mk "Morpho" (Str "Morpho") 15
            [ Asset.mk "USDC" (num 0) (num 0) (num 10) (Str "supply") Undefined;
              Asset.mk "WETH" (num 0) (num 0) (num 5) (Str "deposit") Undefined ]))
         vals
       /\ Protocol.value (Protocol.mk "Morpho" (Str "Morpho") 15
            [ Asset.mk "USDC" (num 0) (num 0) (num 10) (Str "supply") Undefined;
              Asset.mk "WETH" (num 0) (num 0) (num 5) (Str "deposit") Undefined ])
          = sum_in_order vals.
Proof.
  apply (zerion_value_is_asset_sum Rev1.PROTOCOL_NAME_MAP morpho_payload
           "ethereum" "Morpho" morpho_snapshot).
  - vm_compute. reflexivity.
  - vm_compute. reflexivity.
Defined.

(** ** Names and symbols *)

Lemma js_trim_Ok (v : jsval) (s : string) :
  js_trim v = Ok s -> exists raw, v = Str raw /\ s = trim raw.
Proof. destruct v; try discriminate. intros [= <-]. by eexists. Qed.

Lemma normalize_contributions (r : run) (s : Snapshot.t) :
  normalize r = Ok s -> exists cs, contributions r = Ok cs /\ s = creditAll cs.
Proof.
  intros (cs & Hcs & _ & ->)%normalize_creditAll. by exists cs.
Qed.

Lemma zerionContributions_elem (T : gmap string (gmap string string)) (raw : jsval)
    (chainId : string) (cs : list Contribution) (c : Contribution) :
  zerionContributions T raw chainId = Ok cs -> c ∈ cs ->
  exists pos, zerionContribution T chainId pos = Ok (Some c).
Proof.
  unfold zerionContributions, kept. intros H Hc.
  returned as items in H. returned as ocs eqn:Hocs in H. injection H as <-.
  apply list_elem_of_omap in Hc as (oc & Hoc & Hid). simpl in Hid. subst oc.
  destruct (mapM_elem_of_inv _ _ _ _ Hocs Hoc) as (pos & _ & Hpos). by exists pos.
Qed.

Lemma debankContributions_elem (vesting : bool) (chainData : jsval)
    (cs : list Contribution) (c : Contribution) :
  debankContributions vesting chainData = Ok cs -> c ∈ cs ->
  exists proto, debankContribution vesting proto = Ok c.
Proof.
  unfold debankContributions. intros H Hc.
  destruct chainData as [| | | | |l|];
    try (injection H as <-; by apply not_elem_of_nil in Hc).
  destruct (mapM_elem_of_inv _ _ _ _ H Hc) as (proto & _ & Hproto). by exists proto.
Qed.

(** X2. Every bucket of a snapshot is stored under its own name: the
    [name] field of [protocols[n]] is [n], for either normaliser.  In a
    Zerion snapshot the [id] of the bucket is that name as well.  This is
    about the runs in which the alias block leaves a string for every kept
    position; when a lookup answers with a member of [Object.prototype]
    (["constructor"] on a chain with a table), the bucket is filed under
    the source text of that member, and the run is not followed. *)
Theorem bucket_is_keyed_by_its_name (r : run) (s : Snapshot.t) (n : string)
    (b : Protocol.t) :
  normalize r = Ok s ->
  Snapshot.protocols s !! n = Some b ->
  Protocol.name b = n
  /\ (forall T raw chainId, r = ZerionRun T raw chainId -> Protocol.id b = Str n).
Proof.
  intros (cs & Hcs & ->)%normalize_contributions Hb.
  apply creditAll_lookup_Some in Hb as [_ Hb].
  apply bucket_of_Some in Hb as (c0 & rest & Hsel & ->).
  split; [done|]. intros T raw chainId ->. cbn [Protocol.id].
  assert (Hc0 : c0 ∈ filter (fun c => c_name c = n) cs) by (rewrite Hsel; left).
  apply list_elem_of_filter in Hc0 as [Hn Hc0].
  destruct (zerionContributions_elem _ _ _ _ _ Hcs Hc0) as [pos Hpos].
  apply zerionContribution_Some in Hpos as (p & sym & q & _ & _ & _ & ->).
  simpl in *. by rewrite Hn.
Qed.

Lemma bucket_is_keyed_by_its_name_witness :
  exists b, Snapshot.protocols morpho_snapshot !! "Morpho" = Some b
    /\ Protocol.name b = "Morpho" /\ Protocol.id b = Str "Morpho".
Proof.
  eexists. split; [vm_compute; reflexivity|].
  destruct (bucket_is_keyed_by_its_name
              (ZerionRun Rev1.PROTOCOL_NAME_MAP morpho_payload "ethereum")
              morpho_snapshot "Morpho" _ ltac:(vm_compute; reflexivity)
              ltac:(vm_compute; reflexivity)) as [Hname Hid].
  split; [exact Hname|]. exact (Hid _ _ _ eq_refl).
Defined.

(** X3. No asset symbol of a snapshot starts or ends with white space,
    for either normaliser: every symbol is stored through [trim]. *)
Theorem symbols_are_trimmed (r : run) (s : Snapshot.t) (n : string)
    (b : Protocol.t) (a : Asset.t) :
  normalize r = Ok s ->
  Snapshot.protocols s !! n = Some b ->
  a ∈ Protocol.assets b ->
  starts_with_space (Asset.symbol a) = false
  /\ ends_with_space (Asset.symbol a) = false.
Proof.
  intros (cs & Hcs & ->)%normalize_contributions Hb Ha.
  apply creditAll_lookup_Some in Hb as [_ Hb].
  destruct (bucket_of_asset _ _ _ _ Hb Ha) as (c & Hc & _ & Hac).
  assert (Hraw : exists raw, Asset.symbol a = trim raw).
  { destruct r as [vesting chainData | T raw chainId]; simpl in Hcs.
    - destruct (debankContributions_elem _ _ _ _ Hcs Hc) as [proto Hproto].
      destruct (debankContribution_from _ _ _ _ Hproto Hac)
        as (token & negate & ty & Htok & _).
      apply debankAsset_symbol in Htok as (raw' & _ & Hsym). by exists raw'.
    - destruct (zerionContributions_elem _ _ _ _ _ Hcs Hc) as [pos Hpos].
      apply zerionContribution_Some in Hpos as (p & sym & q & _ & Hsym & _ & ->).
      apply list_elem_of_singleton in Hac as ->.
      apply js_trim_Ok in Hsym as (raw' & _ & ->). by exists raw'. }
  destruct Hraw as [raw ->]. apply trim_clean.
Qed.

Lemma symbols_are_trimmed_witness :
  starts_with_space "ARB" = false /\ ends_with_space "ARB" = false.
Proof.
  apply (symbols_are_trimmed (DeBankRun true vesting_payload) vesting_snapshot
           "Sablier"
           (Protocol.mk "Sablier" (Str "sablier") 12
              [ Asset.mk "DAI" (num 2) (num 1) (num 2) (Str "supply") Undefined;
                Asset.mk "ARB" (num 5) (num 2) (num 10) (Str "vesting") Undefined ])
           (Asset.mk "ARB" (num 5) (num 2) (num 10) (Str "vesting") Undefined)).
  - vm_compute. reflexivity.
  - vm_compute. reflexivity.
  - right. left.
Defined.

(** ** Assets of a DeBank snapshot *)

(** X4. Every asset of a DeBank snapshot is consistent with itself: its
    [type] is one of ["supply"], ["borrow"], ["reward"] (and ["vesting"] in
    the second revision), it has no [flags], and its [value] is its own
    [amount * price], times [-1] exactly when its type is ["borrow"]. *)
Theorem debank_asset_is_consistent (vesting : bool) (chainData : jsval)
    (s : Snapshot.t) (n : string) (b : Protocol.t) (a : Asset.t) :
  normalizeDeBankRev vesting chainData = Ok s ->
  Snapshot.protocols s !! n = Some b ->
  a ∈ Protocol.assets b ->
  (exists ty, Asset.type a = Str ty /\ ty ∈ debankTypes vesting)
  /\ Asset.flags a = Undefined
  /\ debankValueOf a = Ok (Asset.value a).
Proof.
  intros H Hb Ha.
  destruct (normalizeDeBank_asset_from _ _ _ _ _ _ H Hb Ha)
    as (token & negate & ty & Htok & Hty & ->).
  apply debankAsset_value in Htok as (Htype & Hflags & product & Hp & Hv).
  split; [by exists ty|]. split; [done|].
  unfold debankValueOf. rewrite Hp, bind_Ok, Htype. exact Hv.
Qed.

Lemma debank_asset_is_consistent_witness :
  debankValueOf (Asset.mk "DAI" (num 30) (num 1) (num (-30)) (Str "borrow") Undefined)
  = Ok (num (-30)).
Proof.
  apply (debank_asset_is_consistent false (Array [ borrow_record ]) borrow_snapshot
           "Aave V3"
           (Protocol.mk "Aave V3" (Str "aave3") 70
              [ Asset.mk "USDC" (num 100) (num 1) (num 100) (Str "supply") Undefined;
                Asset.mk "DAI" (num 30) (num 1) (num (-30)) (Str "borrow") Undefined ])
           (Asset.mk "DAI" (num 30) (num 1) (num (-30)) (Str "borrow") Undefined)).
  - vm_compute. reflexivity.
  - vm_compute. reflexivity.
  - right. left.
Defined.

(** ** The two revisions of [normalizeDeBank] *)

Lemma filter_concat {A} (P : A -> Prop) `{!forall x, Decision (P x)}
    (ls : list (list A)) :
  filter P (concat ls) = concat (map (filter P) ls).
Proof. induction ls as [|l ls IH]; simpl; [done|]. by rewrite filter_app, IH. Qed.

Lemma mapM_map_Ok {A B C} (f : A -> outcome B) (g : A -> outcome C) (h : B -> C)
    (l : list A) (ys : list B) :
  (forall x y, f x = Ok y -> g x = Ok (h y)) ->
  mapM f l = Ok ys -> mapM g l = Ok (map h ys).
Proof.
  intros Hfg. revert ys. induction l as [|x l IH]; intros ys; cbn [mapM].
  - by intros [= <-].
  - intros H. returned as y eqn:Hy in H. returned as ys' eqn:Hys in H.
    injection H as <-. by rewrite (Hfg _ _ Hy), bind_Ok, (IH _ eq_refl).
Qed.

Lemma filter_all {A} (P : A -> Prop) `{!forall x, Decision (P x)} (l : list A) :
  Forall P l -> filter P l = l.
Proof.
  induction 1 as [|x l Hx _ IH]; [done|]. by rewrite filter_cons_True, IH.
Qed.

Lemma debankTokenAssets_not_vesting (list_key : string) (negate : bool) (ty : string)
    (item : jsval) (assets : list Asset.t) :
  ty ≠ "vesting" ->
  debankTokenAssets list_key negate ty item = Ok assets ->
  filter (fun a => is_vesting a = false) assets = assets.
Proof.
  intros Hty H. apply filter_all, Forall_forall. intros a Ha.
  destruct (debankTokenAssets_from _ _ _ _ _ _ H Ha) as [token Htok].
  apply debankAsset_value in Htok as [Htype _].
  unfold is_vesting. rewrite Htype. simpl. by apply String.eqb_neq.
Qed.

Lemma debankVestingAssets_vesting (item : jsval) (assets : list Asset.t) :
  debankVestingAssets item = Ok assets ->
  filter (fun a => is_vesting a = false) assets = [].
Proof.
  unfold debankVestingAssets. intros H.
  returned as detail in H.
  destruct (truthy detail && truthy (prop detail "token")).
  - returned as a eqn:Ha in H. injection H as <-.
    apply debankAsset_value in Ha as [Htype _].
    rewrite filter_cons_False; [done|]. unfold is_vesting. by rewrite Htype.
  - by injection H as <-.
Qed.

Lemma debankItemContribution_without_vesting (item : jsval) (ic : Q * list Asset.t) :
  debankItemContribution true item = Ok ic ->
  debankItemContribution false item
  = Ok (ic.1, filter (fun a => is_vesting a = false) ic.2).
Proof.
  unfold debankItemContribution. intros H.
  returned as stats eqn:Hst in H. returned as nuv eqn:Hn in H.
  returned as q eqn:Hq in H.
  returned as supply eqn:Hs in H. returned as borrow eqn:Hb in H.
  returned as reward eqn:Hr in H. returned as vest eqn:Hv in H.
  injection H as <-. cbn [fst snd].
  rewrite ?Hst, ?bind_Ok, ?Hn, ?bind_Ok, ?Hq, ?bind_Ok, !filter_app.
  rewrite (debankTokenAssets_not_vesting _ _ "supply" _ _ ltac:(discriminate) Hs).
  rewrite (debankTokenAssets_not_vesting _ _ "borrow" _ _ ltac:(discriminate) Hb).
  rewrite (debankTokenAssets_not_vesting _ _ "reward" _ _ ltac:(discriminate) Hr).
  by rewrite (debankVestingAssets_vesting _ _ Hv).
Qed.

Lemma debankContribution_without_vesting (proto : jsval) (c : Contribution) :
  debankContribution true proto = Ok c ->
  debankContribution false proto = Ok (contribution_without_vesting c).
Proof.
  unfold debankContribution. intros H.
  returned as pn eqn:Hpn in H. returned as n eqn:Hn in H.
  returned as pid eqn:Hpid in H. returned as pil eqn:Hpil in H.
  destruct pil as [| | | | |items|]; try discriminate.
  returned as ics eqn:Hics in H. injection H as <-.
  rewrite ?Hpn, ?bind_Ok, ?Hn, ?bind_Ok, ?Hpid, ?bind_Ok, ?Hpil, ?bind_Ok.
  rewrite (mapM_map_Ok _ _
             (fun ic => (ic.1, filter (fun a => is_vesting a = false) ic.2))
             _ _ debankItemContribution_without_vesting Hics), bind_Ok.
  unfold contribution_without_vesting. cbn [c_name c_id c_vals c_assets].
  rewrite filter_concat. do 2 f_equal.
  - by rewrite <- list_fmap_compose.
  - by rewrite <- !list_fmap_compose.
Qed.

Lemma credit_without_vesting (s : Snapshot.t) (c : Contribution) :
  credit (snapshot_without_vesting s) (contribution_without_vesting c)
  = snapshot_without_vesting (credit s c).
Proof.
  unfold credit, snapshot_without_vesting, bucket_or_fresh,
    contribution_without_vesting.
  cbn [Snapshot.protocols Snapshot.totalValue c_name c_id c_vals c_assets].
  destruct (inherited (c_name c)); [done|].
  cbn [Snapshot.protocols Snapshot.totalValue].
  f_equal. rewrite fmap_insert, !lookup_fmap.
  destruct (Snapshot.protocols s !! c_name c) as [b|]; simpl;
    unfold without_vesting; simpl; by rewrite ?filter_app.
Qed.

Lemma creditAll_without_vesting (cs : list Contribution) :
  creditAll (map contribution_without_vesting cs)
  = snapshot_without_vesting (creditAll cs).
Proof.
  unfold creditAll.
  assert (H0 : empty_snapshot = snapshot_without_vesting empty_snapshot).
  { unfold snapshot_without_vesting, empty_snapshot. simpl. by rewrite fmap_empty. }
  rewrite H0 at 1. generalize empty_snapshot as s.
  induction cs as [|c cs IH]; intros s; simpl; [done|].
  by rewrite credit_without_vesting, IH.
Qed.

(** X5. The second revision of [normalizeDeBank] differs from the first
    by the vesting assets only: whenever the second returns a snapshot, the
    first returns the same snapshot with the assets of type ["vesting"]
    left out, so names, ids, bucket values and [totalValue] agree. *)
Theorem vesting_only_adds_assets (chainData : jsval) (s2 : Snapshot.t) :
  Rev2.normalizeDeBank chainData = Ok s2 ->
  Rev1.normalizeDeBank chainData = Ok (snapshot_without_vesting s2).
Proof.
  unfold Rev1.normalizeDeBank, Rev2.normalizeDeBank. intros H.
  destruct chainData as [| | | | |l|];
    try (injection H as <-; cbn; unfold snapshot_without_vesting, empty_snapshot;
         simpl; by rewrite fmap_empty).
  apply normalizeDeBank_creditAll in H as (cs & Hcs & Hcr & ->).
  apply normalizeDeBank_creditAll. exists (map contribution_without_vesting cs).
  split; [exact (mapM_map_Ok _ _ _ _ _ debankContribution_without_vesting Hcs)|].
  split; [|by rewrite creditAll_without_vesting].
  apply Forall_fmap. eapply Forall_impl; [exact Hcr|].
  intros c Hc Hn. unfold contribution_without_vesting in *. simpl in *.
  by rewrite (Hc Hn).
Qed.

Lemma vesting_only_adds_assets_witness :
  Rev1.normalizeDeBank vesting_payload
  = Ok (Snapshot.mk
          {[ "Sablier" :=
               Protocol.mk "Sablier" (Str "sablier") 12
                 [ Asset.mk "DAI" (num 2) (num 1) (num 2) (Str "supply") Undefined ] ]}
          12).
Proof.
  rewrite (vesting_only_adds_assets vesting_payload vesting_snapshot).
  - vm_compute. reflexivity.
  - vm_compute. reflexivity.
Defined.

(** ** The two revisions of [normalizeZerion] *)

Lemma forEach_ext {A S} (l : list A) (f g : A -> S -> outcome S) (s : S) :
  (forall x s', x ∈ l -> f x s' = g x s') -> forEach l f s = forEach l g s.
Proof.
  revert s. induction l as [|x l IH]; intros s Hfg; cbn [forEach]; [done|].
  rewrite Hfg by left. destruct (g x s); [rewrite !bind_Ok|done..].
  apply IH. intros y s' Hy. apply Hfg. by right.
Qed.

Lemma normalizeZerion_table (T T' : gmap string (gmap string string))
    (raw : jsval) (chainId : string) :
  T !! chainId = T' !! chainId ->
  normalizeZerionWith T raw chainId = normalizeZerionWith T' raw chainId.
Proof.
  intros HT. unfold normalizeZerionWith.
  run as items. apply forEach_ext. intros pos s _.
  unfold zerionPosition, resolveAlias. by rewrite HT.
Qed.

(** X6. The two revisions of [normalizeZerion] agree on every payload
    for every chain id other than ["ethereum"] and ["optimism"], the two
    chains whose alias entries the second revision extends. *)
Theorem zerion_revisions_agree (raw : jsval) (chainId : string) :
  chainId ≠ "ethereum" -> chainId ≠ "optimism" ->
  Rev1.normalizeZerion raw chainId = Rev2.normalizeZerion raw chainId.
Proof.
  intros He Ho. apply normalizeZerion_table.
  destruct (decide (chainId = "binance-smart-chain")) as [->|Hb].
  - vm_compute. reflexivity.
  - unfold Rev1.PROTOCOL_NAME_MAP, Rev2.PROTOCOL_NAME_MAP.
    rewrite !(not_elem_of_list_to_map_1 _ chainId); [done|..];
      cbn [fmap list_fmap fst]; rewrite !not_elem_of_cons;
      repeat split; try done; apply not_elem_of_nil.
Qed.

Lemma zerion_revisions_agree_witness :
  Rev1.normalizeZerion morpho_payload "binance-smart-chain"
  = Rev2.normalizeZerion morpho_payload "binance-smart-chain".
Proof.
  apply (zerion_revisions_agree morpho_payload "binance-smart-chain"); discriminate.
Defined.

(** ** The alias block on ordinary names *)

Lemma resolveAlias_own (T : gmap string (gmap string string))
    (chainId protoName : string) :
  inherited chainId = false -> inherited protoName = false ->
  resolveAlias T chainId protoName
  = Ok (Name (resolveProtocolName T chainId protoName)).
Proof.
  intros Hc Hp. unfold resolveAlias, resolveProtocolName.
  destruct (truthy (Str chainId)); [|done].
  destruct (T !! chainId) as [aliases|]; [|by rewrite Hc].
  destruct (aliases !! protoName); [done|by rewrite Hp].
Qed.

(** X20. For a chain id and a protocol name that are not names of members
    of [Object.prototype], the alias block is a lookup scoped to the chain:
    with the table of either revision, and with every table whose aliases
    are non-empty strings for a non-empty chain id, it leaves the alias
    configured for the chain and the name when there is one, and the name
    as it came otherwise; and it depends on the entries of that chain
    only. *)
Theorem alias_block_is_chain_scoped_lookup (T : gmap string (gmap string string))
    (chainId protoName : string) :
  inherited chainId = false -> inherited protoName = false ->
  T = Rev1.PROTOCOL_NAME_MAP \/ T = Rev2.PROTOCOL_NAME_MAP
  \/ (chainId ≠ EmptyString /\ alias_targets_named T) ->
  resolveAlias T chainId protoName
  = Ok (Name (default protoName (configured T chainId protoName)))
  /\ forall T', T' !! chainId = T !! chainId ->
       resolveAlias T' chainId protoName = resolveAlias T chainId protoName.
Proof.
  intros Hc Hp HT. split.
  - rewrite resolveAlias_own by done. do 2 f_equal.
    destruct HT as [HT|[HT|[Hne HT]]].
    + apply resolve_configured_shipped. by left.
    + apply resolve_configured_shipped. by right.
    + by apply resolve_configured.
  - intros T' HT'. unfold resolveAlias. by rewrite HT'.
Qed.

(** ["Morpho Blue"] on Ethereum, with the table of the second revision. *)
Lemma alias_block_is_chain_scoped_lookup_witness :
  resolveAlias Rev2.PROTOCOL_NAME_MAP "ethereum" "Morpho Blue" = Ok (Name "Morpho").
Proof.
  rewrite (proj1 (alias_block_is_chain_scoped_lookup Rev2.PROTOCOL_NAME_MAP
                    "ethereum" "Morpho Blue" eq_refl eq_refl
                    (or_intror (or_introl eq_refl)))).
  vm_compute. reflexivity.
Defined.

(** ** When the normalisers return *)

Lemma is_ok_bind {A B} (m : outcome A) (k : A -> outcome B) :
  is_ok (m ≫= k) = match m with Ok a => is_ok (k a) | _ => false end.
Proof. by destruct m. Qed.

Lemma is_ok_mapM {A B} (f : A -> outcome B) (l : list A) :
  is_ok (mapM f l) = forallb (fun x => is_ok (f x)) l.
Proof.
  induction l as [|x l IH]; cbn [mapM forallb]; [done|].
  destruct (f x); [rewrite bind_Ok|done..]. simpl.
  rewrite <- IH. by destruct (mapM f l).
Qed.

Lemma forallb_ext_eq {A} (f g : A -> bool) (l : list A) :
  (forall x, f x = g x) -> forallb f l = forallb g l.
Proof. intros H. induction l; simpl; [done|]. by rewrite H, IHl. Qed.

Lemma is_ok_debankAsset (token : jsval) (negate : bool) (ty : string) :
  is_ok (debankAsset token negate ty) = token_ok token.
Proof.
  unfold debankAsset, token_ok.
  destruct token as [| | | | | |fields]; try done.
  cbn [get]. rewrite !bind_Ok.
  destruct (prop (Object fields) "symbol"); try done.
  cbn [js_trim is_string andb]. rewrite !bind_Ok.
  unfold js_mul, is_numeric.
  destruct (to_number (prop (Object fields) "amount")); [|done].
  destruct (to_number (prop (Object fields) "price")); [|done].
  rewrite bind_Ok. by destruct negate.
Qed.

Lemma is_ok_amount_of (v : jsval) :
  is_ok (amount_of (or_else v (num 0))) = falsy_or is_number v.
Proof.
  unfold or_else, falsy_or. destruct (truthy v) eqn:Hv; [|done].
  by destruct v as [| | |[|]| | |].
Qed.

Lemma prop_truthy (v : jsval) (k : string) :
  truthy (prop v k) = true -> truthy v = true.
Proof. by destruct v. Qed.

Lemma is_ok_debankTokenAssets (list_key : string) (negate : bool) (ty : string)
    (item : jsval) :
  is_nullish item = false ->
  is_ok (debankTokenAssets list_key negate ty item)
  = token_list_ok (prop item "detail") list_key.
Proof.
  intros Hitem. unfold debankTokenAssets, token_list_ok.
  assert (Hg : get item "detail" = Ok (prop item "detail")) by (by destruct item).
  rewrite Hg, bind_Ok.
  destruct (truthy (prop (prop item "detail") list_key)) eqn:Hl.
  - rewrite (prop_truthy _ _ Hl). cbn [andb].
    destruct (prop (prop item "detail") list_key) as [| | | | |tokens|];
      try (by rewrite Hl).
    rewrite is_ok_mapM. apply forallb_ext_eq. intros token. apply is_ok_debankAsset.
  - rewrite andb_false_r.
    destruct (prop (prop item "detail") list_key); try discriminate; by rewrite ?Hl.
Qed.

Lemma is_ok_debankVestingAssets (item : jsval) :
  is_nullish item = false ->
  is_ok (debankVestingAssets item)
  = falsy_or token_ok (prop (prop item "detail") "token").
Proof.
  intros Hitem. unfold debankVestingAssets, falsy_or.
  assert (Hg : get item "detail" = Ok (prop item "detail")) by (by destruct item).
  rewrite Hg, bind_Ok.
  destruct (truthy (prop (prop item "detail") "token")) eqn:Htok.
  - rewrite (prop_truthy _ _ Htok). cbn [andb negb orb]. rewrite is_ok_bind.
    rewrite <- (is_ok_debankAsset _ false "vesting").
    by destruct (debankAsset _ _ _).
  - by rewrite andb_false_r.
Qed.

Lemma is_ok_debankItemContribution (vesting : bool) (item : jsval) :
  is_ok (debankItemContribution vesting item) = item_ok vesting item.
Proof.
  unfold debankItemContribution, item_ok.
  destruct (is_nullish item) eqn:Hitem; [by destruct item|].
  assert (Hg : get item "stats" = Ok (prop item "stats")) by (by destruct item).
  rewrite Hg, bind_Ok.
  destruct (is_nullish (prop item "stats")) eqn:Hstats;
    [by destruct (prop item "stats")|].
  assert (Hg' : get (prop item "stats") "net_usd_value"
                = Ok (prop (prop item "stats") "net_usd_value"))
    by (by destruct (prop item "stats")).
  rewrite Hg', bind_Ok. cbn [negb andb].
  rewrite <- is_ok_amount_of.
  destruct (amount_of _) as [q| |]; [|done..]. rewrite bind_Ok. cbn [is_ok andb].
  rewrite <- (is_ok_debankTokenAssets "supply_token_list" false "supply" item),
    <- (is_ok_debankTokenAssets "borrow_token_list" true "borrow" item),
    <- (is_ok_debankTokenAssets "reward_token_list" false "reward" item) by done.
  destruct (debankTokenAssets "supply_token_list" _ _ _); [|done..].
  destruct (debankTokenAssets "borrow_token_list" _ _ _); [|done..].
  destruct (debankTokenAssets "reward_token_list" _ _ _); [|done..].
  rewrite !bind_Ok. cbn [is_ok andb].
  destruct vesting; [|done]. cbn [negb orb].
  rewrite <- (is_ok_debankVestingAssets item) by done.
  by destruct (debankVestingAssets item).
Qed.

Lemma is_ok_debankContribution (vesting : bool) (proto : jsval) :
  is_ok (debankContribution vesting proto) = record_ok vesting proto.
Proof.
  unfold debankContribution, record_ok, falsy_or.
  destruct (is_nullish proto) eqn:Hproto; [by destruct proto|].
  assert (Hg : forall k, get proto k = Ok (prop proto k)) by (by destruct proto).
  rewrite !Hg, bind_Ok.
  assert (Hn : is_ok (as_key (or_else (prop proto "name") (Str "Unknown")))
               = negb (truthy (prop proto "name")) || is_string (prop proto "name")).
  { unfold or_else. destruct (truthy (prop proto "name")) eqn:E; [|done].
    by destruct (prop proto "name"). }
  rewrite <- Hn. destruct (as_key _) as [n| |]; [|done..].
  rewrite !bind_Ok. cbn [andb].
  destruct (prop proto "portfolio_item_list") as [| | | | |items|]; try done.
  rewrite is_ok_bind, <- (forallb_ext_eq _ _ _ (is_ok_debankItemContribution vesting)),
    <- is_ok_mapM.
  by destruct (mapM _ items).
Qed.

Lemma is_ok_true {A} (o : outcome A) : is_ok o = true <-> exists a, o = Ok a.
Proof.
  destruct o; simpl; split; try done; try (by intros [? ?]). by eexists.
Qed.

Lemma debankTokenAssets_empty (list_key : string) (negate : bool) (ty : string)
    (item : jsval) (assets : list Asset.t) :
  debankTokenAssets list_key negate ty item = Ok assets ->
  assets = [] <-> token_list_empty (prop item "detail") list_key = true.
Proof.
  unfold debankTokenAssets, token_list_empty. intros H.
  returned as detail eqn:Hd in H. apply get_Ok in Hd as ->.
  destruct (truthy (prop item "detail")
            && truthy (prop (prop item "detail") list_key)) eqn:Ht.
  - destruct (prop (prop item "detail") list_key) as [| | | | |l|];
      try discriminate.
    destruct l as [|token l]; [by injection H as <-|].
    split; [|done]. intros ->. by apply mapM_cons_not_nil in H.
  - injection H as <-. split; [|done]. intros _.
    apply andb_false_iff in Ht as [Ht|Ht].
    + by destruct (prop item "detail").
    + destruct (prop (prop item "detail") list_key); try discriminate;
        by rewrite ?Ht.
Qed.

Lemma debankVestingAssets_empty (item : jsval) (assets : list Asset.t) :
  debankVestingAssets item = Ok assets ->
  assets = [] <-> truthy (prop (prop item "detail") "token") = false.
Proof.
  unfold debankVestingAssets. intros H.
  returned as detail eqn:Hd in H. apply get_Ok in Hd as ->.
  destruct (truthy (prop item "detail")
            && truthy (prop (prop item "detail") "token")) eqn:Ht.
  - returned as a in H. injection H as <-.
    apply andb_true_iff in Ht as [_ Ht]. split; [done|]. by rewrite Ht.
  - injection H as <-. split; [|done]. intros _.
    apply andb_false_iff in Ht as [Ht|Ht]; [|done].
    by destruct (prop item "detail").
Qed.

Lemma debankItemContribution_empty (vesting : bool) (item : jsval)
    (ic : Q * list Asset.t) :
  debankItemContribution vesting item = Ok ic ->
  ic.2 = [] <-> item_without_asset vesting item = true.
Proof.
  unfold debankItemContribution, item_without_asset. intros H.
  returned as stats in H. returned as nuv in H. returned as q in H.
  returned as supply eqn:Hs in H. returned as borrow eqn:Hb in H.
  returned as reward eqn:Hr in H. returned as vest eqn:Hv in H.
  injection H as <-. cbn [snd].
  apply debankTokenAssets_empty in Hs, Hb, Hr.
  rewrite !andb_true_iff, <- Hs, <- Hb, <- Hr.
  assert (Hvest : vest = [] <->
            negb vesting || negb (truthy (prop (prop item "detail") "token")) = true).
  { destruct vesting; cbn [negb orb].
    - rewrite negb_true_iff. by apply debankVestingAssets_empty.
    - by injection Hv as <-. }
  rewrite <- Hvest. split.
  - intros H. apply app_eq_nil in H as [-> H]. apply app_eq_nil in H as [-> H].
    by apply app_eq_nil in H as [-> ->].
  - by intros [[[-> ->] ->] ->].
Qed.

Lemma debankItems_empty (vesting : bool) (items : list jsval) :
  forall ics, mapM (debankItemContribution vesting) items = Ok ics ->
  concat ics.*2 = [] <-> forallb (item_without_asset vesting) items = true.
Proof.
  induction items as [|item items IH]; intros ics H; cbn [mapM] in H.
  - by injection H as <-.
  - returned as ic eqn:Hic in H. returned as ics' eqn:Hics in H.
    injection H as <-. cbn [forallb]. rewrite andb_true_iff.
    change (concat (ic :: ics').*2) with (ic.2 ++ concat ics'.*2).
    rewrite <- (IH _ eq_refl), <- (debankItemContribution_empty _ _ _ Hic).
    split; [by intros ?%app_eq_nil|by intros [-> ->]].
Qed.

Lemma debankContribution_filed (vesting : bool) (proto : jsval) (c : Contribution) :
  debankContribution vesting proto = Ok c ->
  creditable c <-> record_filed vesting proto = true.
Proof.
  unfold debankContribution, record_filed, creditable. intros H.
  returned as pn eqn:Hpn in H. apply get_Ok in Hpn as ->.
  destruct (or_else _ _) as [| | | |n| |]; try discriminate H.
  simpl as_key in H. rewrite bind_Ok in H.
  returned as pid in H.
  returned as pil eqn:Hpil in H. apply get_Ok in Hpil as ->.
  destruct (prop proto "portfolio_item_list") as [| | | | |items|];
    try discriminate H.
  returned as ics eqn:Hics in H. injection H as <-. cbn [c_name c_assets].
  destruct (inherited n); cbn [negb orb]; [|done].
  rewrite <- (debankItems_empty _ _ _ Hics). split; auto.
Qed.

Lemma debankContributions_ok (vesting : bool) (l : list jsval) :
  (exists cs, mapM (debankContribution vesting) l = Ok cs /\ Forall creditable cs)
  <-> forallb (fun proto => record_ok vesting proto && record_filed vesting proto) l
      = true.
Proof.
  induction l as [|proto l IH]; cbn [mapM forallb].
  - split; [done|]. intros _. by exists [].
  - rewrite !andb_true_iff, <- IH, <- is_ok_debankContribution. split.
    + intros (cs' & H & Hcs).
      returned as c eqn:Hc in H. returned as cs eqn:Hl in H. injection H as <-.
      apply Forall_cons in Hcs as [Hcr Hcs].
      split; [split; [done|by apply (debankContribution_filed _ _ _ Hc)]|].
      by exists cs.
    + intros [[Hok Hf] (cs & Hl & Hcs)].
      apply is_ok_true in Hok as [c Hc].
      exists (c :: cs). rewrite Hc, Hl. split; [done|].
      constructor; [by apply (debankContribution_filed _ _ _ Hc)|done].
Qed.

(** X7. [normalizeDeBank] returns a snapshot exactly on the payloads
    that are not arrays and on the arrays of records whose [name] is falsy
    or a string and whose [portfolio_item_list] is an array of items with a
    [stats] object, a [net_usd_value] that is falsy or a number, and token
    lists that are falsy or arrays of tokens with a string [symbol] and
    numeric [amount] and [price] (likewise [detail.token] in the second
    revision); a record filed under the name of a member of
    [Object.prototype] must moreover have no token at all: its token lists
    are falsy or empty (and [detail.token] is falsy).  On every other
    payload the run throws or depends on a coercion the development does
    not follow. *)
Theorem normalizeDeBank_returns_iff (vesting : bool) (chainData : jsval) :
  is_ok (normalizeDeBankRev vesting chainData) = debank_payload_ok vesting chainData.
Proof.
  destruct chainData as [| | | | |l|]; try done.
  apply Bool.eq_iff_eq_true. unfold debank_payload_ok.
  rewrite <- debankContributions_ok, is_ok_true. split.
  - intros [s (cs & Hcs & Hcr & _)%normalizeDeBank_creditAll]. by exists cs.
  - intros (cs & Hcs & Hcr). exists (creditAll cs).
    apply normalizeDeBank_creditAll. by exists cs.
Qed.

Lemma zerionContribution_ok (T : gmap string (gmap string string))
    (chainId : string) (pos : jsval) :
  (exists oc, zerionContribution T chainId pos = Ok oc
     /\ from_option creditable True oc)
  <-> position_ok T chainId pos = true.
Proof.
  unfold zerionContribution, position_ok, creditable.
  destruct (is_nullish pos) eqn:Hpos.
  { destruct pos; try discriminate; (split; [by intros (? & ? & _)|done]). }
  assert (Hg : get pos "attributes" = Ok (prop pos "attributes")) by (by destruct pos).
  rewrite Hg, bind_Ok. cbn [negb andb]. set (attrs := prop pos "attributes").
  destruct (truthy attrs); cbn [negb orb]; [|split; [done|by exists None]].
  destruct (truthy (prop attrs "protocol")) eqn:Hp; cbn [negb orb];
    [|split; [done|by exists None]].
  destruct (prop attrs "protocol") as [| | | |p| |];
    try (split; [by intros (? & ? & _)|done]).
  cbn [as_key protocol_ok]. rewrite bind_Ok.
  destruct (resolveAlias T chainId p) as [[n|k]| |];
    try (split; [by intros (? & ? & _)|done]).
  cbn [alias_key mbind outcome_bind]. cbv zeta.
  rewrite <- is_ok_amount_of.
  destruct (amount_of _) as [q| |];
    [|rewrite andb_false_r; simpl; split; [by intros (? & ? & _)|done]..].
  cbn [is_ok mbind outcome_bind]. rewrite andb_true_r.
  assert (Hsym : is_ok (zerionSymbol attrs)
                 = falsy_or is_string (get_opt (prop attrs "fungible_info") "symbol")).
  { unfold zerionSymbol, falsy_or, or_else.
    destruct (truthy (get_opt (prop attrs "fungible_info") "symbol")); [|done].
    by destruct (get_opt (prop attrs "fungible_info") "symbol"). }
  rewrite <- Hsym.
  destruct (zerionSymbol attrs) as [symbol| |];
    [|rewrite andb_false_r; simpl; split; [by intros (? & ? & _)|done]..].
  cbn [is_ok mbind outcome_bind]. rewrite andb_true_r, negb_true_iff. split.
  - intros (oc & [= <-] & Hc). simpl in Hc.
    destruct (inherited n); [by specialize (Hc eq_refl)|done].
  - intros Hn. eexists. split; [done|]. simpl. by rewrite Hn.
Qed.

Lemma zerionContributions_ok (T : gmap string (gmap string string))
    (chainId : string) (items : list jsval) :
  (exists ocs, mapM (zerionContribution T chainId) items = Ok ocs
     /\ Forall creditable (omap id ocs))
  <-> forallb (position_ok T chainId) items = true.
Proof.
  induction items as [|pos items IH]; cbn [mapM forallb].
  - split; [done|]. intros _. by exists [].
  - rewrite andb_true_iff, <- IH, <- zerionContribution_ok. split.
    + intros (ocs' & H & Hcs).
      returned as oc eqn:Hoc in H. returned as ocs eqn:Hl in H. injection H as <-.
      split; [exists oc|exists ocs]; (split; [done|]);
        destruct oc; simpl in *; try done; by inversion Hcs.
    + intros [(oc & Hoc & Hcr) (ocs & Hl & Hcs)].
      exists (oc :: ocs). rewrite Hoc, Hl. split; [done|].
      destruct oc; simpl in *; [by constructor|done].
Qed.

Lemma zerionItems_itemsOf (raw : jsval) :
  zerionItems raw = if is_nullish raw then Throw TypeError else Ok (itemsOf raw).
Proof.
  unfold zerionItems, itemsOf. destruct raw; try done.
  cbn [get is_nullish]. rewrite bind_Ok. by destruct (prop _ "data").
Qed.

(** X8. [normalizeZerion] returns a snapshot exactly when the payload
    is neither [null] nor [undefined] and every position it iterates over is
    neither, and is either skipped (no [attributes] or no [protocol]) or has
    a [value] that is falsy or a number, a [fungible_info.symbol] that is
    falsy or a string, and a string [protocol] for which the alias lookup of
    the chain leaves a string that is not the name of a member of
    [Object.prototype].  On every other payload the run throws or is not
    followed by the development: it depends on a coercion, or its alias
    lookup answers with an inherited member, for a protocol or for a chain
    id that is the name of a member of [Object.prototype]. *)
Theorem normalizeZerion_returns_iff (T : gmap string (gmap string string))
    (chainDataRaw : jsval) (chainId : string) :
  is_ok (normalizeZerionWith T chainDataRaw chainId)
  = zerion_payload_ok T chainDataRaw chainId.
Proof.
  apply Bool.eq_iff_eq_true. unfold zerion_payload_ok.
  rewrite andb_true_iff, <- zerionContributions_ok, is_ok_true, negb_true_iff.
  split.
  - intros [s (cs & Hcs & Hcr & _)%normalizeZerion_creditAll].
    unfold zerionContributions, kept in Hcs. rewrite zerionItems_itemsOf in Hcs.
    destruct (is_nullish chainDataRaw); [discriminate Hcs|]. rewrite bind_Ok in Hcs.
    returned as ocs eqn:Hocs in Hcs. injection Hcs as <-.
    split; [done|]. by exists ocs.
  - intros [Hraw (ocs & Hocs & Hcr)]. exists (creditAll (omap id ocs)).
    apply normalizeZerion_creditAll. exists (omap id ocs).
    unfold zerionContributions, kept.
    by rewrite zerionItems_itemsOf, Hraw, bind_Ok, Hocs.
Qed.

(** ** Runs of the assembler that return *)

Section Runs.

Variable record : string -> string * string -> outcome (option ComparisonRecord).
Variable mainChain : string -> string * string
  -> gmap string (gmap string ComparisonRecord)
  -> outcome (gmap string (gmap string ComparisonRecord)).
Variable mainAddress : string
  -> gmap string (gmap string ComparisonRecord)
  -> outcome (gmap string (gmap string ComparisonRecord)).

Hypothesis mainChain_record : forall address entry result,
  mainChain address entry result =
  (orec ← record address entry;
   match orec with
   | Some r => set_record address entry.2 r result
   | None => Ok result
   end).

Hypothesis mainAddress_loop : forall address result,
  mainAddress address result
  = forEach CHAIN_MAP (mainChain address) (<[address := ∅]> result).

Lemma chains_run (address : string) (entries : list (string * string)) :
  forall result chains result',
  result !! address = Some chains ->
  forEach entries (mainChain address) result = Ok result' ->
  exists chains',
    result' = <[address := chains']> result
    /\ Forall (fun e => is_ok (record address e) = true) entries
    /\ (forall z, z ∉ entries.*2 -> chains' !! z = chains !! z)
    /\ (NoDup entries.*2 -> forall e, e ∈ entries -> chains !! e.2 = None ->
          record address e = Ok (chains' !! e.2)).
Proof.
  induction entries as [|e0 entries IH]; intros result chains result' Hres Hrun.
  - cbn [forEach] in Hrun. injection Hrun as <-. exists chains.
    rewrite insert_id by done. split; [done|]. split; [constructor|].
    split; [done|]. intros _ e He. by apply not_elem_of_nil in He.
  - cbn [forEach] in Hrun. rewrite mainChain_record in Hrun.
    destruct (record address e0) as [orec| |] eqn:Hrec; try discriminate.
    rewrite bind_Ok in Hrun. destruct orec as [r|].
    + unfold set_record in Hrun. rewrite Hres, bind_Ok in Hrun.
      destruct (IH _ (<[e0.2 := r]> chains) _ (lookup_insert_eq _ _ _) Hrun)
        as (chains' & -> & Hok & Hkeep & Hexact).
      exists chains'. rewrite insert_insert_eq. split; [done|].
      split; [constructor; [by rewrite Hrec|done]|]. split.
      * intros z Hz. rewrite fmap_cons, not_elem_of_cons in Hz.
        destruct Hz as [Hne Hz]. rewrite Hkeep by done. by rewrite lookup_insert_ne.
      * intros Hnd e He Hnone. rewrite fmap_cons in Hnd.
        apply NoDup_cons in Hnd as [Hfresh Hnd].
        apply elem_of_cons in He as [-> | He].
        -- rewrite Hkeep by done. by rewrite lookup_insert_eq.
        -- apply Hexact; [done..|]. rewrite lookup_insert_ne; [done|].
           intros Heq. apply Hfresh. rewrite Heq. by apply list_elem_of_fmap_2.
    + rewrite bind_Ok in Hrun.
      destruct (IH _ chains _ Hres Hrun) as (chains' & -> & Hok & Hkeep & Hexact).
      exists chains'. split; [done|].
      split; [constructor; [by rewrite Hrec|done]|]. split.
      * intros z Hz. rewrite fmap_cons, not_elem_of_cons in Hz.
        destruct Hz as [_ Hz]. by apply Hkeep.
      * intros Hnd e He Hnone. rewrite fmap_cons in Hnd.
        apply NoDup_cons in Hnd as [Hfresh Hnd].
        apply elem_of_cons in He as [-> | He].
        -- rewrite Hkeep by done. by rewrite Hnone.
        -- by apply Hexact.
Qed.

Lemma mainAddress_run (address : string)
    (result result' : gmap string (gmap string ComparisonRecord)) :
  mainAddress address result = Ok result' ->
  exists chains,
    result' = <[address := chains]> result
    /\ Forall (fun e => is_ok (record address e) = true) CHAIN_MAP
    /\ exact_chains record address chains.
Proof.
  rewrite mainAddress_loop. intros Hrun.
  destruct (chains_run _ _ _ ∅ _ (lookup_insert_eq _ _ _) Hrun)
    as (chains & -> & Hok & Hkeep & Hexact).
  exists chains. rewrite insert_insert_eq. split; [done|]. split; [done|]. split.
  - intros e He. apply Hexact; [apply CHAIN_MAP_NoDup|done|apply lookup_empty].
  - intros z Hz. rewrite Hkeep by done. apply lookup_empty.
Qed.

Lemma addresses_run (addresses : list string) :
  forall result result',
  forEach addresses mainAddress result = Ok result' ->
  clean_run record addresses
  /\ (forall a, a ∉ addresses -> result' !! a = result !! a)
  /\ (forall a, a ∈ addresses ->
        exists chains, result' !! a = Some chains /\ exact_chains record a chains).
Proof.
  unfold clean_run.
  induction addresses as [|a0 addresses IH]; intros result result' Hrun.
  - cbn [forEach] in Hrun. injection Hrun as <-. split; [constructor|].
    split; [done|]. intros a Ha. by apply not_elem_of_nil in Ha.
  - cbn [forEach] in Hrun.
    destruct (mainAddress a0 result) as [r1| |] eqn:H0; try discriminate.
    rewrite bind_Ok in Hrun.
    destruct (mainAddress_run _ _ _ H0) as (chains & -> & Hok0 & Hexact0).
    destruct (IH _ _ Hrun) as (Hok & Hkeep & Hin).
    split; [by constructor|]. split.
    + intros a Ha. apply not_elem_of_cons in Ha as [Hne Ha].
      rewrite Hkeep by done. by rewrite lookup_insert_ne.
    + intros a Ha. destruct (decide (a ∈ addresses)) as [Hrest|Hrest].
      * by apply Hin.
      * apply elem_of_cons in Ha as [-> | Ha]; [|done].
        exists chains. rewrite Hkeep by done. by rewrite lookup_insert_eq.
Qed.

Lemma addresses_run_iff (addresses : list string)
    (result : gmap string (gmap string ComparisonRecord)) :
  is_ok (forEach addresses mainAddress result) = true
  <-> clean_run record addresses.
Proof.
  split.
  - destruct (forEach _ _ _) as [result'| |] eqn:Hrun; try discriminate.
    intros _. by destruct (addresses_run _ _ _ Hrun).
  - intros Hclean.
    destruct (addresses_loop record mainChain mainAddress mainChain_record
                mainAddress_loop addresses result Hclean) as (result' & -> & _).
    done.
Qed.

End Runs.

Lemma Rev1_mainAddress_loop (fs : FileSystem) (address : string)
    (result : gmap string (gmap string ComparisonRecord)) :
  Rev1.mainAddress fs address result
  = forEach CHAIN_MAP (Rev1.mainChain fs address) (<[address := ∅]> result).
Proof. reflexivity. Qed.

Lemma Rev2_mainAddress_loop (fs : FileSystem) (address : string)
    (result : gmap string (gmap string ComparisonRecord)) :
  Rev2.mainAddress fs address result
  = forEach CHAIN_MAP (Rev2.mainChain fs address) (<[address := ∅]> result).
Proof. reflexivity. Qed.

Lemma Rev1_main_dirs (fs : FileSystem) (dirs : list string) :
  debank_dirs fs = Some dirs ->
  Rev1.main fs = forEach dirs (Rev1.mainAddress fs) ∅.
Proof. intros Hdirs. unfold Rev1.main, getDirectories. by rewrite Hdirs. Qed.

Lemma elem_of_allowed (dirs : list string) (a : string) :
  a ∈ allowed dirs
  <-> a ∈ dirs /\ includes Rev2.TARGET_ADDRESSES (toLowerCase a) = true.
Proof. unfold allowed. rewrite list_elem_of_filter. tauto. Qed.

(** X9. [main] is all or nothing: it returns a result exactly when the
    DeBank data directory can be listed and, for every address it visits
    and every mapped chain, the record of the chain can be built, that is,
    neither normaliser fails on the payloads of the chain.  One payload a
    normaliser fails on makes the whole run fail. *)
Theorem main_returns_iff_clean (fs : FileSystem) :
  (is_ok (Rev1.main fs) = true
   <-> exists dirs, debank_dirs fs = Some dirs /\ clean_run (recordRev1 fs) dirs)
  /\ (is_ok (Rev2.main fs) = true
      <-> exists dirs, debank_dirs fs = Some dirs
            /\ clean_run (recordRev2 fs) (allowed dirs)).
Proof.
  split.
  - destruct (debank_dirs fs) as [dirs|] eqn:Hdirs.
    + rewrite (Rev1_main_dirs _ _ Hdirs).
      rewrite (addresses_run_iff (recordRev1 fs) (Rev1.mainChain fs)
                 (Rev1.mainAddress fs) (Rev1_mainChain_record fs)
                 (Rev1_mainAddress_loop fs)).
      split; [by exists dirs|]. by intros (dirs' & [= <-] & H).
    + unfold Rev1.main, getDirectories. rewrite Hdirs.
      split; [done|]. by intros (dirs' & [=] & _).
  - destruct (debank_dirs fs) as [dirs|] eqn:Hdirs.
    + rewrite (Rev2_main_allowed _ _ Hdirs).
      rewrite (addresses_run_iff (recordRev2 fs) (Rev2.mainChain fs)
                 (Rev2.mainAddress fs) (Rev2_mainChain_record fs)
                 (Rev2_mainAddress_loop fs)).
      split; [by exists dirs|]. by intros (dirs' & [= <-] & H).
    + unfold Rev2.main, getDirectories. rewrite Hdirs.
      split; [done|]. by intros (dirs' & [=] & _).
Qed.

(** X10. When no subdirectory of the DeBank data directory is named
    [__proto__], the result of the first revision of [main] has an entry
    for exactly the subdirectories.  Under an address it holds, for every
    mapped chain, the record of the chain under the chain's Zerion id when
    at least one of the two files exists and nothing when neither does, and
    nothing under any other key.  (For a subdirectory [__proto__] the
    assignment [result[address] = {}] sets the prototype of [result] and
    makes no entry.) *)
Theorem Rev1_main_result (fs : FileSystem) (dirs : list string)
    (result : gmap string (gmap string ComparisonRecord)) :
  debank_dirs fs = Some dirs ->
  "__proto__" ∉ dirs ->
  Rev1.main fs = Ok result ->
  (forall a, is_Some (result !! a) <-> a ∈ dirs)
  /\ (forall a chains, result !! a = Some chains ->
        exact_chains (recordRev1 fs) a chains).
Proof.
  intros Hdirs _ Hrun. rewrite (Rev1_main_dirs _ _ Hdirs) in Hrun.
  destruct (addresses_run (recordRev1 fs) (Rev1.mainChain fs) (Rev1.mainAddress fs)
              (Rev1_mainChain_record fs) (Rev1_mainAddress_loop fs) _ _ _ Hrun)
    as (_ & Hout & Hin).
  split.
  - intros a. split.
    + intros [chains Ha]. destruct (decide (a ∈ dirs)) as [|Hna]; [done|].
      rewrite (Hout _ Hna), lookup_empty in Ha. discriminate.
    + intros Ha. destruct (Hin _ Ha) as (chains & -> & _). by eexists.
  - intros a chains Ha. destruct (decide (a ∈ dirs)) as [Hd|Hna].
    + destruct (Hin _ Hd) as (chains' & Ha' & Hexact). congruence.
    + rewrite (Hout _ Hna), lookup_empty in Ha. discriminate.
Qed.

(** X11. The result of the second revision of [main] has an entry for
    exactly the subdirectories of the DeBank data directory whose name, in
    lower case, is on the allow-list.  Under an address it holds, for every
    mapped chain, the record of the chain under the chain's Zerion id when
    at least one of the two files exists and nothing when neither does, and
    nothing under any other key. *)
Theorem Rev2_main_result (fs : FileSystem) (dirs : list string)
    (result : gmap string (gmap string ComparisonRecord)) :
  debank_dirs fs = Some dirs ->
  Rev2.main fs = Ok result ->
  (forall a, is_Some (result !! a)
     <-> a ∈ dirs /\ includes Rev2.TARGET_ADDRESSES (toLowerCase a) = true)
  /\ (forall a chains, result !! a = Some chains ->
        exact_chains (recordRev2 fs) a chains).
Proof.
  intros Hdirs Hrun. rewrite (Rev2_main_allowed _ _ Hdirs) in Hrun.
  destruct (addresses_run (recordRev2 fs) (Rev2.mainChain fs) (Rev2.mainAddress fs)
              (Rev2_mainChain_record fs) (Rev2_mainAddress_loop fs) _ _ _ Hrun)
    as (_ & Hout & Hin).
  split.
  - intros a. rewrite <- elem_of_allowed. split.
    + intros [chains Ha]. destruct (decide (a ∈ allowed dirs)) as [|Hna]; [done|].
      rewrite (Hout _ Hna), lookup_empty in Ha. discriminate.
    + intros Ha. destruct (Hin _ Ha) as (chains & -> & _). by eexists.
  - intros a chains Ha. destruct (decide (a ∈ allowed dirs)) as [Hd|Hna].
    + destruct (Hin _ Hd) as (chains' & Ha' & Hexact). congruence.
    + rewrite (Hout _ Hna), lookup_empty in Ha. discriminate.
Qed.

Lemma Rev1_main_result_witness :
  exists result chains,
    Rev1.main two_address_fs = Ok result
    /\ result !! "0xabc" = Some chains
    /\ exact_chains (recordRev1 two_address_fs) "0xabc" chains.
Proof.
  assert (Hok : is_ok (Rev1.main two_address_fs) = true) by (vm_compute; reflexivity).
  destruct (Rev1.main two_address_fs) as [result| |] eqn:Hrun; [|discriminate Hok..].
  assert (Hdirs : "__proto__" ∉ ["0x9d17bb55b57b31329cf01aa7017948e398b277bc"; "0xabc"]).
  { intros H. repeat (apply elem_of_cons in H as [H|H]; [discriminate H|]).
    by apply not_elem_of_nil in H. }
  destruct (Rev1_main_result two_address_fs _ result eq_refl Hdirs Hrun)
    as [Hdom Hexact].
  destruct (proj2 (Hdom "0xabc")) as [chains Hchains]; [right; left|].
  exists result, chains. split; [reflexivity|]. split; [exact Hchains|].
  exact (Hexact _ _ Hchains).
Defined.

Lemma Rev2_main_result_witness :
  exists result,
    Rev2.main two_address_fs = Ok result
    /\ is_Some (result !! "0x9d17bb55b57b31329cf01aa7017948e398b277bc")
    /\ result !! "0xabc" = None.
Proof.
  assert (Hok : is_ok (Rev2.main two_address_fs) = true) by (vm_compute; reflexivity).
  destruct (Rev2.main two_address_fs) as [result| |] eqn:Hrun; [|discriminate Hok..].
  destruct (Rev2_main_result two_address_fs _ result eq_refl Hrun) as [Hdom _].
  exists result. split; [reflexivity|]. split.
  - apply Hdom. split; [left|vm_compute; reflexivity].
  - destruct (result !! "0xabc") as [chains|] eqn:Hc; [|reflexivity].
    destruct (proj1 (Hdom "0xabc")) as [_ Hin]; [rewrite Hc; by eexists|].
    vm_compute in Hin. discriminate Hin.
Defined.

(** ** The files [main] depends on *)

Lemma mainAddress_same_files (fs fs' : FileSystem) (address : string)
    (result : gmap string (gmap string ComparisonRecord)) :
  (forall e, e ∈ CHAIN_MAP ->
     debank_file fs address e.1 = debank_file fs' address e.1
     /\ zerion_file fs address e.2 = zerion_file fs' address e.2) ->
  Rev1.mainAddress fs address result = Rev1.mainAddress fs' address result
  /\ Rev2.mainAddress fs address result = Rev2.mainAddress fs' address result.
Proof.
  intros Hsame. unfold Rev1.mainAddress, Rev2.mainAddress. split.
  - apply forEach_ext. intros e s He. destruct (Hsame e He) as [Hd Hz].
    unfold Rev1.mainChain. cbv zeta. by rewrite Hd, Hz.
  - apply forEach_ext. intros e s He. destruct (Hsame e He) as [Hd Hz].
    unfold Rev2.mainChain. cbv zeta. by rewrite Hd, Hz.
Qed.

(** X12. [main] depends on no file other than [<DeBank id>.json] and
    [<Zerion id>.json] of the mapped chains under the listed addresses: two
    file systems with the same subdirectories and the same such files give
    the same outcome, in both revisions. *)
Theorem main_reads_mapped_files_only (fs fs' : FileSystem) (dirs : list string) :
  debank_dirs fs = Some dirs ->
  debank_dirs fs' = Some dirs ->
  same_mapped_files fs fs' dirs ->
  Rev1.main fs = Rev1.main fs' /\ Rev2.main fs = Rev2.main fs'.
Proof.
  intros Hdirs Hdirs' Hsame. split.
  - rewrite (Rev1_main_dirs _ _ Hdirs), (Rev1_main_dirs _ _ Hdirs').
    apply forEach_ext. intros a s Ha.
    apply (proj1 (mainAddress_same_files fs fs' a s (fun e He => Hsame a e Ha He))).
  - rewrite (Rev2_main_allowed _ _ Hdirs), (Rev2_main_allowed _ _ Hdirs').
    apply forEach_ext. intros a s [Ha _]%elem_of_allowed.
    apply (proj2 (mainAddress_same_files fs fs' a s (fun e He => Hsame a e Ha He))).
Qed.

Lemma main_reads_mapped_files_only_witness :
  Rev1.main two_address_fs = Rev1.main two_address_fs'
  /\ Rev2.main two_address_fs = Rev2.main two_address_fs'.
Proof.
  apply (main_reads_mapped_files_only two_address_fs two_address_fs'
           ["0x9d17bb55b57b31329cf01aa7017948e398b277bc"; "0xabc"]).
  - reflexivity.
  - reflexivity.
  - assert (H : Forall (fun a => Forall (fun e =>
                  debank_file two_address_fs a e.1 = debank_file two_address_fs' a e.1
                  /\ zerion_file two_address_fs a e.2 = zerion_file two_address_fs' a e.2)
                CHAIN_MAP)
              ["0x9d17bb55b57b31329cf01aa7017948e398b277bc"; "0xabc"]).
    { repeat (constructor; [repeat (constructor; [split; reflexivity|]); constructor|]).
      constructor. }
    intros a e Ha He.
    exact (proj1 (Forall_forall _ _) (proj1 (Forall_forall _ _) H a Ha) e He).
Defined.

(** ** Files that cannot be parsed *)

Lemma mainAddress_repaired (fs : FileSystem) (address : string)
    (result : gmap string (gmap string ComparisonRecord)) :
  Rev1.mainAddress (repaired_fs fs) address result = Rev1.mainAddress fs address result
  /\ Rev2.mainAddress (repaired_fs fs) address result
     = Rev2.mainAddress fs address result.
Proof.
  unfold Rev1.mainAddress, Rev2.mainAddress. split.
  - apply forEach_ext. intros e s _. unfold Rev1.mainChain. cbn.
    by destruct (debank_file fs address e.1), (zerion_file fs address e.2).
  - apply forEach_ext. intros e s _. unfold Rev2.mainChain. cbn.
    by destruct (debank_file fs address e.1), (zerion_file fs address e.2).
Qed.

(** X13. A file that exists but cannot be read or parsed counts as a
    file that holds [[]]: replacing every such file by one holding the empty
    array changes the outcome of [main] in neither revision. *)
Theorem unreadable_file_is_empty_payload (fs : FileSystem) :
  Rev1.main (repaired_fs fs) = Rev1.main fs
  /\ Rev2.main (repaired_fs fs) = Rev2.main fs.
Proof.
  unfold Rev1.main, Rev2.main, getDirectories. cbn [repaired_fs debank_dirs].
  destruct (debank_dirs fs) as [dirs|]; [|done]. rewrite !bind_Ok. split.
  - apply forEach_ext. intros a s _. apply (proj1 (mainAddress_repaired fs a s)).
  - apply forEach_ext. intros a s _. apply (proj2 (mainAddress_repaired fs a s)).
Qed.

(** ** Retries *)

Lemma getWalletPositionsLoop_firstFinal (net : nat -> reply) (n : nat) :
  forall retries fuel,
  (retries + n = ZerionFetcher.MAX_RETRIES)%nat -> (n < fuel)%nat ->
  ZerionFetcher.getWalletPositionsLoop fuel retries net
  = Some match firstFinal zerionRetry net retries n with
         | Some k => (zerionAnswer (net k), S k)
         | None => (Null, ZerionFetcher.MAX_RETRIES)
         end.
Proof.
  induction n as [|n IH]; intros retries fuel Hsum Hfuel;
    (destruct fuel as [|fuel]; [lia|]); cbn [ZerionFetcher.getWalletPositionsLoop firstFinal].
  - rewrite Nat.add_0_r in Hsum. subst retries. rewrite Nat.ltb_irrefl. reflexivity.
  - assert (Hlt : (retries <? ZerionFetcher.MAX_RETRIES)%nat = true)
      by (apply Nat.ltb_lt; lia).
    rewrite Hlt. unfold zerionRetry at 1, zerionAnswer.
    destruct (net retries) as [status data|status] eqn:Hnet.
    + destruct (status =? 202)%nat; [apply IH; lia|]. cbv beta iota.
      rewrite Hnet. by destruct (get data "data").
    + destruct (rate_limited status); [apply IH; lia|]. cbv beta iota.
      by rewrite Hnet.
Qed.

Lemma firstFinal_bound (retry : reply -> bool) (net : nat -> reply) (n : nat) :
  forall k j, firstFinal retry net k n = Some j -> (k <= j < k + n)%nat.
Proof.
  induction n as [|n IH]; intros k j; cbn [firstFinal]; [done|].
  destruct (retry (net k)).
  - intros H%IH. lia.
  - intros [= <-]. lia.
Qed.

(** X14. [getWalletPositions] of the Zerion fetcher sends at least one
    and at most three requests.  It returns what the first reply that is
    neither a 202 response nor a 429 error stands for, [response.data.data]
    of a response and [null] for an error or a response without data, and
    [null] when all three replies ask for another attempt. *)
Theorem getWalletPositions_retries (net : nat -> reply) :
  ZerionFetcher.getWalletPositions net
  = Some match firstFinal zerionRetry net 0 3 with
         | Some k => (zerionAnswer (net k), S k)
         | None => (Null, 3%nat)
         end
  /\ exists v n, ZerionFetcher.getWalletPositions net = Some (v, n)
       /\ (1 <= n <= 3)%nat.
Proof.
  assert (H : ZerionFetcher.getWalletPositions net
              = Some match firstFinal zerionRetry net 0 3 with
                     | Some k => (zerionAnswer (net k), S k)
                     | None => (Null, 3%nat)
                     end).
  { apply getWalletPositionsLoop_firstFinal; unfold ZerionFetcher.MAX_RETRIES; lia. }
  split; [exact H|]. rewrite H.
  destruct (firstFinal zerionRetry net 0 3) as [k|] eqn:Hk.
  - apply firstFinal_bound in Hk. eexists _, _. split; [done|lia].
  - eexists _, _. split; [done|lia].
Qed.

Lemma getProtocolListLoop_firstFinal (net : nat -> reply) (n : nat) :
  forall retries fuel,
  (retries + n = S DeBankFetcher.MAX_RETRIES)%nat -> (n < fuel)%nat ->
  DeBankFetcher.getProtocolListLoop fuel retries net
  = Some match firstFinal debankRetry net retries n with
         | Some k => (debankAnswer (net k), S k)
         | None => (Array [], S DeBankFetcher.MAX_RETRIES)
         end.
Proof.
  induction n as [|n IH]; intros retries fuel Hsum Hfuel;
    (destruct fuel as [|fuel]; [lia|]); cbn [DeBankFetcher.getProtocolListLoop firstFinal].
  - rewrite Nat.add_0_r in Hsum. subst retries.
    assert (Hle : (S DeBankFetcher.MAX_RETRIES <=? DeBankFetcher.MAX_RETRIES)%nat = false)
      by (apply Nat.leb_gt; lia).
    rewrite Hle. reflexivity.
  - assert (Hle : (retries <=? DeBankFetcher.MAX_RETRIES)%nat = true)
      by (apply Nat.leb_le; lia).
    rewrite Hle. unfold debankRetry at 1, debankAnswer.
    destruct (net retries) as [status data|status] eqn:Hnet;
      [cbv beta iota; by rewrite Hnet|].
    destruct (rate_limited status); [|cbv beta iota; by rewrite Hnet]. cbn [andb].
    destruct (S retries <=? DeBankFetcher.MAX_RETRIES)%nat eqn:Hnext.
    + apply IH; lia.
    + apply Nat.leb_gt in Hnext.
      assert (n = 0)%nat as -> by lia. cbn [firstFinal]. do 2 f_equal. lia.
Qed.

(** X15. [getProtocolList] of the DeBank fetcher sends at least one
    and at most four requests.  It returns what the first reply that is not
    a 429 error stands for, [response.data || []] of a response and [[]]
    for any other error, and [[]] when all four replies are 429 errors; the
    value it returns is never falsy. *)
Theorem getProtocolList_retries (net : nat -> reply) :
  DeBankFetcher.getProtocolList net
  = Some match firstFinal debankRetry net 0 4 with
         | Some k => (debankAnswer (net k), S k)
         | None => (Array [], 4%nat)
         end
  /\ exists v n, DeBankFetcher.getProtocolList net = Some (v, n)
       /\ (1 <= n <= 4)%nat /\ truthy v = true.
Proof.
  assert (H : DeBankFetcher.getProtocolList net
              = Some match firstFinal debankRetry net 0 4 with
                     | Some k => (debankAnswer (net k), S k)
                     | None => (Array [], 4%nat)
                     end).
  { apply getProtocolListLoop_firstFinal; unfold DeBankFetcher.MAX_RETRIES; lia. }
  split; [exact H|]. rewrite H.
  assert (Hans : forall r, truthy (debankAnswer r) = true).
  { intros [st d|st]; [|done]. unfold debankAnswer, or_else.
    by destruct (truthy d) eqn:Hd. }
  destruct (firstFinal debankRetry net 0 4) as [k|] eqn:Hk.
  - apply firstFinal_bound in Hk. eexists _, _. split; [done|]. split; [lia|apply Hans].
  - eexists _, _. split; [done|]. split; [lia|done].
Qed.

(** ** Grouping the positions by chain *)

Lemma includes_elem_of (l : list string) (x : string) :
  includes l x = true <-> x ∈ l.
Proof.
  unfold includes. rewrite existsb_exists. split.
  - intros (y & Hy & ->%String.eqb_eq). by apply list_elem_of_In.
  - intros Hx. exists x. split; [by apply list_elem_of_In|apply String.eqb_refl].
Qed.

Lemma ALLOWED_ZERION_CHAINS_mapped (chain : string) :
  includes ZerionFetcher.ALLOWED_ZERION_CHAINS chain = true <-> chain ∈ CHAIN_MAP.*2.
Proof.
  rewrite includes_elem_of.
  change ZerionFetcher.ALLOWED_ZERION_CHAINS with
    [ "ethereum"; "optimism"; "polygon"; "fantom"; "zksync-era"; "arbitrum";
      "avalanche"; "scroll"; "binance-smart-chain"; "linea"; "base" ].
  change (CHAIN_MAP.*2) with
    [ "ethereum"; "binance-smart-chain"; "polygon"; "fantom"; "avalanche";
      "optimism"; "arbitrum"; "base"; "linea"; "zksync-era"; "scroll" ].
  rewrite !elem_of_cons, !elem_of_nil. tauto.
Qed.

Lemma initChainData_lookup (chains : list string) (chain : string) :
  forall chainData : gmap string (list jsval),
  fold_left (fun chainData chain => <[chain := []]> chainData) chains chainData !! chain
  = if includes chains chain then Some [] else chainData !! chain.
Proof.
  induction chains as [|c chains IH]; intros chainData; [done|].
  cbn [fold_left]. rewrite IH. unfold includes. cbn [existsb].
  fold (includes chains chain). destruct (includes chains chain);
    [by rewrite orb_true_r|]. rewrite orb_false_r.
  destruct (String.eqb_spec chain c) as [->|Hne].
  - by rewrite lookup_insert_eq.
  - by rewrite lookup_insert_ne.
Qed.

Lemma onChain_Str (chain chain' : string) (pos : jsval) :
  chainOf pos = Str chain -> onChain chain' pos = String.eqb chain chain'.
Proof. unfold onChain. by intros ->. Qed.

Lemma groupPosition_kept (pos : jsval) (chain : string)
    (chainData : gmap string (list jsval)) (n : nat) (l : list jsval) :
  is_nullish pos = false ->
  chainOf pos = Str chain ->
  includes ZerionFetcher.ALLOWED_ZERION_CHAINS chain = true ->
  chainData !! chain = Some l ->
  ZerionFetcher.groupPosition pos (chainData, n)
  = Ok (<[chain := l ++ [pos]]> chainData, S n).
Proof.
  intros Hpos Hchain Hin Hl. unfold ZerionFetcher.groupPosition.
  assert (Hg : get pos "relationships" = Ok (prop pos "relationships"))
    by (by destruct pos).
  rewrite Hg, bind_Ok. cbv zeta. fold (chainOf pos). rewrite Hchain, Hin.
  cbn [fst snd]. rewrite Hl.
  assert (truthy (Str chain) = true) as ->; [|done].
  simpl. destruct (String.eqb_spec chain EmptyString) as [->|]; [|done].
  by vm_compute in Hin.
Qed.

Lemma groupPosition_dropped (pos : jsval) (st : gmap string (list jsval) * nat) :
  is_nullish pos = false ->
  onTargetChain pos = false ->
  ZerionFetcher.groupPosition pos st = Ok st.
Proof.
  intros Hpos Hdrop. unfold ZerionFetcher.groupPosition.
  assert (Hg : get pos "relationships" = Ok (prop pos "relationships"))
    by (by destruct pos).
  rewrite Hg, bind_Ok. cbv zeta. fold (chainOf pos).
  unfold onTargetChain in Hdrop.
  destruct (chainOf pos); try done. by rewrite Hdrop, andb_false_r.
Qed.

Lemma groupPositions_from (positions : list jsval) :
  forall (chainData : gmap string (list jsval)) (n : nat),
  Forall (fun pos => is_nullish pos = false) positions ->
  (forall chain, is_Some (chainData !! chain)
     <-> includes ZerionFetcher.ALLOWED_ZERION_CHAINS chain = true) ->
  exists chainData',
    forEach positions ZerionFetcher.groupPosition (chainData, n)
    = Ok (chainData',
          (n + length (filter (fun pos => onTargetChain pos = true) positions))%nat)
    /\ forall chain,
         chainData' !! chain
         = (fun l => l ++ positionsOn chain positions) <$> chainData !! chain.
Proof.
  induction positions as [|pos positions IH]; intros chainData n Hpos Hdom.
  - exists chainData. cbn [forEach filter list_filter length]. rewrite Nat.add_0_r.
    split; [done|]. intros chain. unfold positionsOn.
    destruct (chainData !! chain); simpl; [|done]. by rewrite app_nil_r.
  - apply Forall_cons in Hpos as [Hpos0 Hpos]. cbn [forEach].
    destruct (onTargetChain pos) eqn:Htarget.
    + unfold onTargetChain in Htarget.
      destruct (chainOf pos) as [| | | |c| |] eqn:Hchain; try discriminate.
      destruct (proj2 (Hdom c) Htarget) as [l Hl].
      rewrite (groupPosition_kept _ _ _ _ _ Hpos0 Hchain Htarget Hl), bind_Ok.
      destruct (IH (<[c := l ++ [pos]]> chainData) (S n) Hpos)
        as (chainData' & Hrun & Hlookup).
      { intros chain. destruct (decide (c = chain)) as [<-|Hne].
        - rewrite lookup_insert_eq. split; [done|by eexists].
        - rewrite lookup_insert_ne by done. apply Hdom. }
      exists chainData'. split.
      * rewrite Hrun. do 2 f_equal. rewrite filter_cons_True; [simpl; lia|].
        unfold onTargetChain. by rewrite Hchain.
      * intros chain. rewrite Hlookup. unfold positionsOn.
        destruct (decide (c = chain)) as [<-|Hne].
        -- rewrite lookup_insert_eq, Hl. simpl.
           rewrite filter_cons_True, <- app_assoc; [done|].
           rewrite (onChain_Str _ _ _ Hchain). apply String.eqb_refl.
        -- rewrite lookup_insert_ne by done.
           rewrite filter_cons_False; [done|].
           rewrite (onChain_Str _ _ _ Hchain). by apply not_true_iff_false, String.eqb_neq.
    + rewrite (groupPosition_dropped _ _ Hpos0 Htarget), bind_Ok.
      destruct (IH chainData n Hpos Hdom) as (chainData' & Hrun & Hlookup).
      exists chainData'. split.
      * rewrite Hrun. do 2 f_equal. rewrite filter_cons_False; [done|].
        by rewrite Htarget.
      * intros chain. rewrite Hlookup. unfold positionsOn.
        destruct (chainData !! chain) as [l|] eqn:Hl; [|done]. simpl.
        rewrite filter_cons_False; [done|].
        apply not_true_iff_false. unfold onChain.
        destruct (strict_eq_str (chainOf pos) chain) eqn:Heq; [|done].
        apply strict_eq_str_spec in Heq. unfold onTargetChain in Htarget.
        rewrite Heq in Htarget.
        assert (Hin : includes ZerionFetcher.ALLOWED_ZERION_CHAINS chain = true)
          by (apply Hdom; by eexists).
        congruence.
Qed.

Lemma groupPositions_grouped (positions : list jsval) :
  Forall (fun pos => is_nullish pos = false) positions ->
  exists chainData,
    ZerionFetcher.groupPositions positions
    = Ok (chainData, length (filter (fun pos => onTargetChain pos = true) positions))
    /\ forall chain,
         chainData !! chain
         = if includes ZerionFetcher.ALLOWED_ZERION_CHAINS chain
           then Some (positionsOn chain positions) else None.
Proof.
  intros Hpos.
  assert (Hinit : forall chain,
            ZerionFetcher.initChainData !! chain
            = if includes ZerionFetcher.ALLOWED_ZERION_CHAINS chain
              then Some [] else None).
  { intros chain. unfold ZerionFetcher.initChainData.
    rewrite initChainData_lookup. by rewrite lookup_empty. }
  destruct (groupPositions_from positions ZerionFetcher.initChainData 0 Hpos)
    as (chainData & Hrun & Hlookup).
  { intros chain. rewrite Hinit.
    destruct (includes _ chain); (split; [|done]); [by eexists|by intros [? ?]]. }
  exists chainData. split; [exact Hrun|].
  intros chain. rewrite Hlookup, Hinit. by destruct (includes _ chain).
Qed.

Lemma sum_list_with_plus {A} (f g : A -> nat) (l : list A) :
  sum_list_with (fun x => f x + g x)%nat l
  = (sum_list_with f l + sum_list_with g l)%nat.
Proof. induction l as [|x l IH]; simpl; [done|]. rewrite IH. lia. Qed.

Lemma sum_list_with_ext {A} (f g : A -> nat) (l : list A) :
  (forall x, f x = g x) -> sum_list_with f l = sum_list_with g l.
Proof. intros H. induction l as [|x l IH]; simpl; [done|]. by rewrite H, IH. Qed.

(** A position counts for one chain of a list without repetitions when its
    chain is on the list, and for none otherwise. *)
Lemma onChain_count (chains : list string) (pos : jsval) :
  NoDup chains ->
  sum_list_with (fun chain => if onChain chain pos then 1 else 0)%nat chains
  = match chainOf pos with
    | Str chain => if includes chains chain then 1%nat else 0%nat
    | _ => 0%nat
    end.
Proof.
  unfold onChain. destruct (chainOf pos) as [| | | |c| |];
    try (intros _; induction chains as [|x chains IH]; [done|]; simpl in *; exact IH).
  induction 1 as [|x l Hx Hnd IH]; [done|].
  cbn [sum_list_with]. rewrite IH. cbn [strict_eq_str]. unfold includes.
  cbn [existsb].
  fold (includes l c). destruct (String.eqb_spec c x) as [->|Hne]; [|done].
  cbn [orb]. destruct (includes l x) eqn:Hin; [|done].
  by apply includes_elem_of in Hin.
Qed.

Lemma positionsOn_count (chains : list string) (positions : list jsval) :
  NoDup chains ->
  sum_list_with (fun chain => length (positionsOn chain positions)) chains
  = length (filter (fun pos =>
              match chainOf pos with
              | Str chain => includes chains chain
              | _ => false
              end = true) positions).
Proof.
  intros Hnd. induction positions as [|pos positions IH].
  - induction chains as [|x l IHl]; [done|]. simpl. apply IHl. by inversion Hnd.
  - rewrite (sum_list_with_ext _
               (fun chain => (if onChain chain pos then 1 else 0)
                             + length (positionsOn chain positions))%nat).
    2:{ intros chain. unfold positionsOn. rewrite filter_cons.
        destruct (decide (onChain chain pos = true)) as [->|Hn]; [done|].
        by apply not_true_is_false in Hn as ->. }
    rewrite sum_list_with_plus, IH, (onChain_count _ _ Hnd), filter_cons.
    destruct (chainOf pos) as [| | | |c| |];
      try (rewrite decide_False by discriminate; done).
    destruct (includes chains c).
    + by rewrite decide_True.
    + by rewrite decide_False.
Qed.

Lemma ALLOWED_ZERION_CHAINS_NoDup : NoDup ZerionFetcher.ALLOWED_ZERION_CHAINS.
Proof. apply (bool_decide_unpack _). vm_compute. exact I. Qed.

(** X16. The Zerion fetcher groups positions by chain without loss or
    duplication: when no position is [null] or [undefined] the grouping
    returns, the bucket of every fetched chain holds the positions whose
    [relationships.chain.data.id] is that chain, in order, there is no other
    bucket, and [matchCount] is the number of positions on fetched chains,
    which is the total size of the buckets. *)
Theorem groupPositions_by_chain (positions : list jsval) :
  Forall (fun pos => is_nullish pos = false) positions ->
  exists chainData matchCount,
    ZerionFetcher.groupPositions positions = Ok (chainData, matchCount)
    /\ (forall chain,
          chainData !! chain
          = if includes ZerionFetcher.ALLOWED_ZERION_CHAINS chain
            then Some (positionsOn chain positions) else None)
    /\ matchCount = length (filter (fun pos => onTargetChain pos = true) positions)
    /\ matchCount
       = sum_list_with (fun chain => length (default [] (chainData !! chain)))
           ZerionFetcher.ALLOWED_ZERION_CHAINS.
Proof.
  intros Hpos.
  destruct (groupPositions_grouped positions Hpos) as (chainData & Hrun & Hlookup).
  exists chainData, (length (filter (fun pos => onTargetChain pos = true) positions)).
  split; [exact Hrun|]. split; [exact Hlookup|]. split; [done|].
  rewrite <- (positionsOn_count _ _ ALLOWED_ZERION_CHAINS_NoDup).
  assert (Hext : forall chains,
            Forall (fun chain =>
                      includes ZerionFetcher.ALLOWED_ZERION_CHAINS chain = true) chains ->
            sum_list_with (fun chain => length (positionsOn chain positions)) chains
            = sum_list_with (fun chain => length (default [] (chainData !! chain)))
                chains).
  { induction 1 as [|c l Hc _ IH]; [done|]. simpl.
    by rewrite IH, Hlookup, Hc. }
  apply Hext, Forall_forall. intros chain Hin. by apply includes_elem_of.
Qed.

Lemma groupPositions_by_chain_witness :
  exists chainData,
    ZerionFetcher.groupPositions fetched_positions = Ok (chainData, 2%nat)
    /\ chainData !! "ethereum"
       = Some [ position_on "ethereum" "Morpho Blue" 10;
                position_on "ethereum" "Morpho" 5 ]
    /\ chainData !! "solana" = None.
Proof.
  destruct (groupPositions_by_chain fetched_positions)
    as (chainData & matchCount & Hrun & Hlookup & Hcount & _).
  - repeat constructor.
  - exists chainData. split; [by rewrite Hrun, Hcount|].
    split; [exact (Hlookup "ethereum")|exact (Hlookup "solana")].
Defined.

(** ** From the Zerion fetcher to [normalizeZerion] *)

Lemma normalizeZerion_chainOutput (T : gmap string (gmap string string))
    (address chainId timestamp chain : string) (chainPositions : list jsval) :
  normalizeZerionWith T
    (ZerionFetcher.chainOutput address chainId timestamp chainPositions) chain
  = normalizeZerionWith T (Array chainPositions) chain.
Proof. reflexivity. Qed.

Lemma savedChainFiles_elem (address : string) (now : string -> string)
    (chainData : gmap string (list jsval)) (chain : string) (out : jsval) :
  (chain, out) ∈ ZerionFetcher.savedChainFiles address now chainData
  <-> chain ∈ ZerionFetcher.ALLOWED_ZERION_CHAINS
      /\ exists pos rest, chainData !! chain = Some (pos :: rest)
           /\ out = ZerionFetcher.chainOutput address chain (now chain) (pos :: rest).
Proof.
  unfold ZerionFetcher.savedChainFiles. rewrite list_elem_of_omap. split.
  - intros (c & Hc & Hsome).
    destruct (chainData !! c) as [[|pos rest]|] eqn:Hl; try discriminate.
    injection Hsome as <- <-. split; [done|]. by exists pos, rest.
  - intros (Hc & pos & rest & Hl & ->). exists chain. split; [done|]. by rewrite Hl.
Qed.

(** X17. What the Zerion fetcher saves is what the comparison reads:
    when no fetched position is [null] or [undefined], a turn of the
    fetcher returns and writes a file for exactly the mapped chains that
    have a position, under the chain's Zerion id, and [normalizeZerion] on
    the saved [{ data, meta }] object gives what it gives on the bare array
    of the chain's positions. *)
Theorem zerion_files_round_trip (address : string) (now : string -> string)
    (positions : list jsval) :
  Forall (fun pos => is_nullish pos = false) positions ->
  exists files,
    ZerionFetcher.saveAddress address now (Array positions) = Ok files
    /\ (forall chain out, (chain, out) ∈ files ->
          chain ∈ CHAIN_MAP.*2
          /\ positionsOn chain positions ≠ []
          /\ out = ZerionFetcher.chainOutput address chain (now chain)
                     (positionsOn chain positions)
          /\ forall T, normalizeZerionWith T out chain
                       = normalizeZerionWith T (Array (positionsOn chain positions)) chain)
    /\ (forall chain, chain ∈ CHAIN_MAP.*2 -> positionsOn chain positions ≠ [] ->
          exists out, (chain, out) ∈ files).
Proof.
  intros Hpos. unfold ZerionFetcher.saveAddress.
  destruct (groupPositions_grouped positions Hpos) as (chainData & Hrun & Hlookup).
  rewrite Hrun, bind_Ok. cbn [fst]. eexists. split; [done|]. split.
  - intros chain out (Hc & pos & rest & Hl & ->)%savedChainFiles_elem.
    apply includes_elem_of in Hc. rewrite Hlookup, Hc in Hl. injection Hl as Hl.
    rewrite Hl. split; [by apply ALLOWED_ZERION_CHAINS_mapped|].
    split; [done|]. split; [done|]. intros T. apply normalizeZerion_chainOutput.
  - intros chain Hc%ALLOWED_ZERION_CHAINS_mapped Hne.
    destruct (positionsOn chain positions) as [|pos rest] eqn:Hl; [done|].
    eexists. apply savedChainFiles_elem. split; [by apply includes_elem_of|].
    exists pos, rest. split; [|done]. by rewrite Hlookup, Hc, Hl.
Qed.

Lemma zerion_files_round_trip_witness :
  exists files out,
    ZerionFetcher.saveAddress "0xabc" (fun _ => "2025-01-01T00:00:00.000Z")
      (Array fetched_positions) = Ok files
    /\ (("ethereum", out) ∈ files)
    /\ Rev1.normalizeZerion out "ethereum"
       = Rev1.normalizeZerion
           (Array [ position_on "ethereum" "Morpho Blue" 10;
                    position_on "ethereum" "Morpho" 5 ]) "ethereum".
Proof.
  destruct (zerion_files_round_trip "0xabc" (fun _ => "2025-01-01T00:00:00.000Z")
              fetched_positions) as (files & Hrun & Hfiles & Hall).
  - repeat constructor.
  - destruct (Hall "ethereum") as [out Hout].
    + apply (proj1 (ALLOWED_ZERION_CHAINS_mapped "ethereum")). reflexivity.
    + discriminate.
    + exists files, out. split; [exact Hrun|]. split; [exact Hout|].
      destruct (Hfiles _ _ Hout) as (_ & _ & _ & Hnorm).
      exact (Hnorm Rev1.PROTOCOL_NAME_MAP).
Defined.

(** ** The files of the DeBank fetcher *)

Lemma targetChains_elem (usedChains : list jsval) (chain : string) :
  chain ∈ DeBankFetcher.targetChains usedChains
  <-> Str chain ∈ usedChains /\ chain ∈ DeBankFetcher.ALLOWED_DEBANK_CHAINS.
Proof.
  unfold DeBankFetcher.targetChains. rewrite list_elem_of_omap. split.
  - intros (c & Hc & Hsome). destruct c as [| | | |c| |]; try discriminate.
    destruct (includes _ c) eqn:Hin; try discriminate. injection Hsome as ->.
    split; [done|]. by apply includes_elem_of.
  - intros [Hc Hin%includes_elem_of]. exists (Str chain). split; [done|]. by rewrite Hin.
Qed.

Lemma saveChain_files (chainId : string) (protocols : jsval)
    (saved saved' : DeBankFetcher.Saved) :
  DeBankFetcher.saveChain chainId protocols saved = Ok saved' ->
  DeBankFetcher.chainFiles saved' = DeBankFetcher.chainFiles saved
  \/ (DeBankFetcher.chainFiles saved'
      = DeBankFetcher.chainFiles saved ++ [(chainId, protocols)]
      /\ (DeBankFetcher.lengthOf protocols ≫= DeBankFetcher.positive) = Ok true).
Proof.
  unfold DeBankFetcher.saveChain. intros H.
  returned as len eqn:Hlen in H. rewrite bind_Ok.
  returned as nonEmpty eqn:Hpos in H. destruct nonEmpty.
  - returned as items in H. injection H as <-. by right.
  - injection H as <-. by left.
Qed.

Lemma saveChains_files (protocolsAt : nat -> jsval) (chains : list string) :
  forall (i : nat) (saved : DeBankFetcher.Saved) (name : string) (content : jsval),
  (name, content) ∈ DeBankFetcher.chainFiles
                      (DeBankFetcher.saveChains chains i protocolsAt saved).1 ->
  (name, content) ∈ DeBankFetcher.chainFiles saved
  \/ (name ∈ chains
      /\ (DeBankFetcher.lengthOf content ≫= DeBankFetcher.positive) = Ok true).
Proof.
  induction chains as [|chainId chains IH]; intros i saved name content;
    cbn [DeBankFetcher.saveChains]; [by left|].
  destruct (DeBankFetcher.saveChain _ _ saved) as [saved'| |] eqn:Hstep;
    cbn [fst]; [|by left..].
  intros [Hin|[Hin Hlen]]%IH.
  - destruct (saveChain_files _ _ _ _ Hstep) as [Hsame|[Hmore Hlen]].
    + left. by rewrite <- Hsame.
    + rewrite Hmore in Hin. apply elem_of_app in Hin as [Hin|Hin]; [by left|].
      apply list_elem_of_singleton in Hin as [= -> ->]. right. split; [left|done].
  - right. split; [by right|done].
Qed.

(** X18. Every file a turn of the DeBank fetcher leaves in the
    directory of an address is [all_protocols] or is named after a chain
    that is both on the fetcher's list of DeBank chains and among the
    chains in use, and holds a response of positive length. *)
Theorem debank_files_named_by_target_chains (usedChains : list jsval)
    (protocolsAt : nat -> jsval) (name : string) (content : jsval) :
  (name, content) ∈ DeBankFetcher.savedFiles usedChains protocolsAt ->
  name = "all_protocols"
  \/ (name ∈ DeBankFetcher.ALLOWED_DEBANK_CHAINS
      /\ Str name ∈ usedChains
      /\ (DeBankFetcher.lengthOf content ≫= DeBankFetcher.positive) = Ok true).
Proof.
  unfold DeBankFetcher.savedFiles. cbv zeta.
  intros [Hin|Hin]%elem_of_app.
  - apply saveChains_files in Hin as [Hin|[Hin Hlen]];
      [by apply not_elem_of_nil in Hin|].
    apply targetChains_elem in Hin as [Hused Hallowed]. by right.
  - destruct (DeBankFetcher.saveChains _ _ _ _).2; try by apply not_elem_of_nil in Hin.
    destruct (DeBankFetcher.allProtocols _); [by apply not_elem_of_nil in Hin|].
    apply list_elem_of_singleton in Hin as [= -> _]. by left.
Qed.

Lemma debank_files_named_by_target_chains_witness :
  "eth" ∈ DeBankFetcher.ALLOWED_DEBANK_CHAINS
  /\ Str "eth" ∈ [ Str "eth"; Str "manta" ].
Proof.
  destruct (debank_files_named_by_target_chains [ Str "eth"; Str "manta" ]
              (fun _ => aave_payload) "eth" aave_payload) as [Hall|(H1 & H2 & _)].
  - vm_compute. left.
  - discriminate Hall.
  - split; [exact H1|exact H2].
Defined.

(** ** DeBank files the comparison never looks up *)

(** X19. The DeBank ids of two mapped chains, ["era"] and ["scrl"], are
    not on the DeBank fetcher's list (it saves these chains as ["zksync"]
    and ["scroll"]).  So in a data directory that holds only files the
    fetcher can write, every record [main] builds for zkSync Era or Scroll
    has the empty snapshot on its DeBank side, in both revisions. *)
Theorem debank_era_scrl_never_saved (fs : FileSystem) (address : string) :
  (forall chain, existsSync (debank_file fs address chain) = true ->
     chain ∈ DeBankFetcher.ALLOWED_DEBANK_CHAINS \/ chain = "all_protocols") ->
  filter (fun e : string * string => e.1 ∉ DeBankFetcher.ALLOWED_DEBANK_CHAINS) CHAIN_MAP
  = [ ("era", "zksync-era"); ("scrl", "scroll") ]
  /\ includes DeBankFetcher.ALLOWED_DEBANK_CHAINS "zksync" = true
  /\ includes DeBankFetcher.ALLOWED_DEBANK_CHAINS "scroll" = true
  /\ forall e r, e ∈ CHAIN_MAP ->
       e.1 ∉ DeBankFetcher.ALLOWED_DEBANK_CHAINS ->
       recordRev1 fs address e = Ok (Some r) \/ recordRev2 fs address e = Ok (Some r) ->
       debank r = empty_snapshot.
Proof.
  intros Hfs. split; [by vm_compute|]. split; [by vm_compute|].
  split; [by vm_compute|]. intros e r He Hout Hrec.
  assert (Hname : e.1 ≠ "all_protocols").
  { intros Hall. revert He. rewrite (surjective_pairing e), Hall.
    unfold CHAIN_MAP. rewrite !elem_of_cons, elem_of_nil.
    intros H; repeat destruct H as [H|H]; try discriminate H; done. }
  assert (Habsent : existsSync (debank_file fs address e.1) = false).
  { destruct (existsSync _) eqn:Hex; [|done]. destruct (Hfs _ Hex); done. }
  apply existsSync_false in Habsent.
  unfold recordRev1, recordRev2, chainRecord, or_empty_array in Hrec.
  rewrite Habsent in Hrec.
  destruct (negb _ && negb _); [by destruct Hrec|].
  destruct Hrec as [Hrec|Hrec].
  - change (Rev1.normalizeDeBank Null) with (Ok empty_snapshot) in Hrec.
    rewrite bind_Ok in Hrec. returned as z in Hrec. by injection Hrec as <-.
  - change (Rev2.normalizeDeBank (or_else Null (Array []))) with (Ok empty_snapshot) in Hrec.
    rewrite bind_Ok in Hrec. returned as z in Hrec. by injection Hrec as <-.
Qed.

Lemma debank_era_scrl_never_saved_witness :
  exists r, recordRev1 zksync_fs "0xabc" ("era", "zksync-era") = Ok (Some r)
    /\ debank r = empty_snapshot.
Proof.
  assert (Hrec : is_ok (recordRev1 zksync_fs "0xabc" ("era", "zksync-era")) = true)
    by (vm_compute; reflexivity).
  destruct (recordRev1 zksync_fs "0xabc" ("era", "zksync-era")) as [[r|]| |] eqn:Hr;
    try discriminate Hrec.
  - exists r. split; [reflexivity|].
    refine (proj2 (proj2 (proj2 (debank_era_scrl_never_saved zksync_fs "0xabc" _)))
              ("era", "zksync-era") r _ _ (or_introl Hr)).
    + intros chain Hex. left.
      assert (chain = "zksync") as ->.
      { unfold zksync_fs in Hex. cbn [debank_file] in Hex.
        destruct (String.eqb_spec chain "zksync"); [done|discriminate Hex]. }
      vm_compute. do 4 right. left.
    + do 9 right. left.
    + cbn [fst]. intros H%includes_elem_of. vm_compute in H. discriminate H.
  - vm_compute in Hr. discriminate Hr.
Defined.
